(** * maintain_amis: the backup / expiry lambda of [lambda_function.py]

    A shallow embedding of the Lambda function that creates backup AMIs of
    the EC2 instances tagged [Backup = Yes], tags each AMI with a [DeleteOn]
    date and deregisters the AMIs (and their EBS snapshots) whose [DeleteOn]
    date has passed.

    The file is organised as the program is:
    - [PyStr]   : the [str] operations the code relies on ([int(...)],
                  [str.find], [<=] on strings, [strftime] digits);
    - [PyDate]  : the part of Python's [datetime] the code calls
                  ([date.today() + timedelta(days=n)], [strftime]);
    - [Ec2]     : the provider (EC2 / STS) as an explicit world, with the
                  calls the code makes on [ec2_client] / [ec2_resource];
    - [Lambda]  : the functions of [lambda_function.py], one definition per
                  [def], in a state-and-exception monad over the world.

    Python 3 semantics are followed throughout (ordering [None] or [False]
    against a [str] raises [TypeError]); where the library depends on its
    version or platform, CPython 3.11 on Linux (glibc) is followed, as on
    AWS Lambda: [int(...)] accepts the decimal digits and the white space
    of Unicode 14.0 and at most 4300 digits, and [strftime('%Y')] prints
    the year without leading zeros.  The [logger.info] calls write a line
    and change nothing else; they are left out. *)

From Stdlib Require Import ZArith NArith List String Ascii Bool Lia Arith.
Import ListNotations.

Local Open Scope string_scope.
Local Open Scope list_scope.
Local Open Scope Z_scope.

(* ===================================================================== *)
(** ** Exceptions and results *)
(* ===================================================================== *)

(** The exceptions that can arise in the code: the built-in ones and
    botocore's [ClientError] for a failed provider call. *)
Inductive exn : Type :=
| IndexError | KeyError | ValueError | TypeError
| UnboundLocalError | OverflowError | ClientError.

(** The result of evaluating an expression: a value, or a raised exception. *)
Inductive outcome (A : Type) : Type :=
| Ok (a : A)
| Raise (e : exn).
Arguments Ok {A} a.
Arguments Raise {A} e.

Definition exn_eqb (a b : exn) : bool :=
  match a, b with
  | IndexError, IndexError | KeyError, KeyError | ValueError, ValueError
  | TypeError, TypeError | UnboundLocalError, UnboundLocalError
  | OverflowError, OverflowError | ClientError, ClientError => true
  | _, _ => false
  end.

Definition obind {A B} (m : outcome A) (k : A -> outcome B) : outcome B :=
  match m with
  | Ok a => k a
  | Raise e => Raise e
  end.

Notation "x <~ m ;; k" := (obind m (fun x => k))
  (at level 61, m at next level, right associativity).

(** [try: body  except e: handler]. *)
Definition try_except {A} (e : exn) (body handler : outcome A) : outcome A :=
  match body with
  | Ok a => Ok a
  | Raise e' => if exn_eqb e e' then handler else Raise e'
  end.

(** [l[0]]. *)
Definition subscript0 {A} (l : list A) : outcome A :=
  match l with
  | x :: _ => Ok x
  | [] => Raise IndexError
  end.

(** The list comprehension [[f(x) for x in l if cond(x)]]: elements are
    visited in order and the first exception raised by [f] ends it. *)
Fixpoint comprehension {A B} (f : A -> outcome B) (cond : A -> bool)
    (l : list A) : outcome (list B) :=
  match l with
  | [] => Ok []
  | x :: l' =>
      if cond x then
        y <~ f x ;; ys <~ comprehension f cond l' ;; Ok (y :: ys)
      else comprehension f cond l'
  end.

(* ===================================================================== *)
(** ** Python's [str] operations *)
(* ===================================================================== *)

Module PyStr.

(** A [str] is held as its UTF-8 encoding, one [ascii] per byte.  Byte-wise
    lexicographic order is code-point order, and a match of [str.find] is
    at byte offset 0 exactly when it is at character offset 0. *)

(** [a <= b] on two [str]. *)
Definition le (a b : string) : bool := String.leb a b.

(** [s.find(sub)]: lowest index at which [sub] occurs in [s], or -1. *)
Definition find (s sub : string) : Z :=
  match String.index 0 sub s with
  | Some n => Z.of_nat n
  | None => -1
  end.

Definition digit (d : Z) : ascii := ascii_of_N (48 + Z.to_N d).

(** ["%0kd" % n] for [0 <= n < 10^k]: exactly [k] decimal digits. *)
Fixpoint zfill (k : nat) (n : Z) : string :=
  match k with
  | O => ""
  | S k' => String (digit (n / 10 ^ Z.of_nat k')) (zfill k' (n mod 10 ^ Z.of_nat k'))
  end.

(** *** [int(s)]

    [int] first rewrites the string character by character
    ([_PyUnicode_TransformDecimalAndSpaceToASCII]): a character below
    U+007F is kept, any other white space becomes a space, any other
    decimal digit becomes the ASCII digit of its value, and anything else
    is an error.  The result is read by [PyLong_FromString] in base 10. *)

(** The payload of a UTF-8 continuation byte [10xxxxxx]. *)
Definition continuation (c : ascii) : option N :=
  let n := N_of_ascii c in
  if ((128 <=? n) && (n <? 192))%N then Some (n - 128)%N else None.

(** The code points of a UTF-8 string; [None] when the bytes are not the
    encoding of a [str] (a stray or missing continuation byte, an overlong
    form, a surrogate, a value beyond U+10FFFF). *)
Fixpoint decode (l : list ascii) : option (list N) :=
  match l with
  | [] => Some []
  | b :: l1 =>
      let n := N_of_ascii b in
      if (n <? 128)%N then option_map (cons n) (decode l1)
      else if (n <? 192)%N then None
      else if (n <? 224)%N then
        match l1 with
        | c1 :: l2 =>
            match continuation c1 with
            | Some x1 =>
                let cp := ((n - 192) * 64 + x1)%N in
                if (128 <=? cp)%N then option_map (cons cp) (decode l2) else None
            | None => None
            end
        | _ => None
        end
      else if (n <? 240)%N then
        match l1 with
        | c1 :: c2 :: l3 =>
            match continuation c1, continuation c2 with
            | Some x1, Some x2 =>
                let cp := (((n - 224) * 64 + x1) * 64 + x2)%N in
                if ((2048 <=? cp) && negb ((55296 <=? cp) && (cp <=? 57343)))%N
                then option_map (cons cp) (decode l3) else None
            | _, _ => None
            end
        | _ => None
        end
      else if (n <? 248)%N then
        match l1 with
        | c1 :: c2 :: c3 :: l4 =>
            match continuation c1, continuation c2, continuation c3 with
            | Some x1, Some x2, Some x3 =>
                let cp := ((((n - 240) * 64 + x1) * 64 + x2) * 64 + x3)%N in
                if ((65536 <=? cp) && (cp <=? 1114111))%N
                then option_map (cons cp) (decode l4) else None
            | _, _, _ => None
            end
        | _ => None
        end
      else None
  end.

(** [Py_UNICODE_ISSPACE] from U+007F on: U+0085, U+00A0, U+1680,
    U+2000 .. U+200A, U+2028, U+2029, U+202F, U+205F, U+3000. *)
Definition unicode_space (cp : N) : bool :=
  (existsb (N.eqb cp) [133; 160; 5760; 8232; 8233; 8239; 8287; 12288]
   || (8192 <=? cp) && (cp <=? 8202))%N.

(** The code points of the digit zero of each decimal system of Unicode
    14.0 other than ASCII; the digits 0 to 9 of a system are consecutive. *)
Definition decimal_zeros : list N :=
  [1632; 1776; 1984; 2406; 2534; 2662; 2790; 2918; 3046; 3174; 3302;
   3430; 3558; 3664; 3792; 3872; 4160; 4240; 6112; 6160; 6470; 6608;
   6784; 6800; 6992; 7088; 7232; 7248; 42528; 43216; 43264; 43472; 43504;
   43600; 44016; 65296; 66720; 68912; 69734; 69872; 69942; 70096; 70384;
   70736; 70864; 71248; 71360; 71472; 71904; 72016; 72784; 73040; 73120;
   92768; 92864; 93008; 120782; 120792; 120802; 120812; 120822; 123200;
   123632; 125264; 130032]%N.

(** [Py_UNICODE_TODECIMAL] from U+007F on. *)
Definition decimal (cp : N) : option N :=
  match List.find (fun z => (z <=? cp) && (cp <? z + 10))%N decimal_zeros with
  | Some z => Some (cp - z)%N
  | None => None
  end.

(** The rewriting of one character; [None] is the error. *)
Definition to_ascii (cp : N) : option ascii :=
  if (cp <? 127)%N then Some (ascii_of_N cp)
  else if unicode_space cp then Some " "%char
  else option_map (fun d => ascii_of_N (48 + d)) (decimal cp).

Fixpoint transform (cps : list N) : option (list ascii) :=
  match cps with
  | [] => Some []
  | cp :: rest =>
      match to_ascii cp, transform rest with
      | Some c, Some l => Some (c :: l)
      | _, _ => None
      end
  end.

(** [Py_ISSPACE]: the white space [PyLong_FromString] skips. *)
Definition is_space (c : ascii) : bool :=
  let n := N_of_ascii c in
  ((9 <=? n) && (n <=? 13) || (n =? 32))%N.

Definition is_digit (c : ascii) : bool :=
  let n := N_of_ascii c in ((48 <=? n) && (n <=? 57))%N.

Definition digit_value (c : ascii) : Z := Z.of_N (N_of_ascii c) - 48.

Fixpoint lstrip (l : list ascii) : list ascii :=
  match l with
  | c :: l' => if is_space c then lstrip l' else l
  | [] => []
  end.

Definition strip (l : list ascii) : list ascii :=
  rev (lstrip (rev (lstrip l))).

(** Decimal digits with single underscores allowed between digits;
    [prev] tells whether the previous character was a digit. *)
Fixpoint digits_value (acc : Z) (prev : bool) (l : list ascii) : option Z :=
  match l with
  | [] => if prev then Some acc else None
  | c :: l' =>
      if is_digit c then digits_value (acc * 10 + digit_value c) true l'
      else if Ascii.eqb c "_" && prev then digits_value acc false l'
      else None
  end.

(** [sys.get_int_max_str_digits()]: more digits than this are refused. *)
Definition max_str_digits : Z := 4300.

Definition limited_digits_value (l : list ascii) : option Z :=
  if max_str_digits <? Z.of_nat (List.length (filter is_digit l)) then None
  else digits_value 0 false l.

(** [PyLong_FromString(s, base=10)]: surrounding white space, an optional
    sign, decimal digits; [None] stands for [ValueError]. *)
Definition parse_ascii (l : list ascii) : option Z :=
  match strip l with
  | "+"%char :: l => limited_digits_value l
  | "-"%char :: l => option_map Z.opp (limited_digits_value l)
  | l => limited_digits_value l
  end.

(** [int(s)] for a [str]; [None] stands for [ValueError]. *)
Definition parse_int (s : string) : option Z :=
  match decode (list_ascii_of_string s) with
  | Some cps =>
      match transform cps with
      | Some l => parse_ascii l
      | None => None
      end
  | None => None
  end.

Definition int (s : string) : outcome Z :=
  match parse_int s with
  | Some n => Ok n
  | None => Raise ValueError
  end.

End PyStr.

(* ===================================================================== *)
(** ** Python's calendar arithmetic ([datetime.date]) *)
(* ===================================================================== *)

Module PyDate.

(** A [datetime.date]: proleptic Gregorian year, month, day. *)
Record date := mkDate { year : Z; month : Z; day : Z }.

(** [_is_leap(year)]: [year % 4 == 0 and (year % 100 != 0 or year % 400 == 0)]. *)
Definition is_leap (y : Z) : bool :=
  (y mod 4 =? 0) && (negb (y mod 100 =? 0) || (y mod 400 =? 0)).

Definition b2z (b : bool) : Z := if b then 1 else 0.

(** [_DAYS_IN_MONTH = [-1, 31, 28, 31, 30, 31, 30, 31, 31, 30, 31, 30, 31]]. *)
Definition DAYS_IN_MONTH (m : Z) : Z :=
  match m with
  | 1 => 31 | 2 => 28 | 3 => 31 | 4 => 30 | 5 => 31 | 6 => 30
  | 7 => 31 | 8 => 31 | 9 => 30 | 10 => 31 | 11 => 30 | 12 => 31
  | _ => -1
  end.

(** [_DAYS_BEFORE_MONTH]: days in the year before the first of the month. *)
Definition DAYS_BEFORE_MONTH (m : Z) : Z :=
  match m with
  | 1 => 0 | 2 => 31 | 3 => 59 | 4 => 90 | 5 => 120 | 6 => 151
  | 7 => 181 | 8 => 212 | 9 => 243 | 10 => 273 | 11 => 304 | 12 => 334
  | _ => -1
  end.

(** [_days_in_month(year, month)]. *)
Definition days_in_month (y m : Z) : Z :=
  if (m =? 2) && is_leap y then 29 else DAYS_IN_MONTH m.

(** [_days_before_year(year)]: [y*365 + y//4 - y//100 + y//400] with [y = year - 1]. *)
Definition days_before_year (y : Z) : Z :=
  let y' := y - 1 in y' * 365 + y' / 4 - y' / 100 + y' / 400.

(** [_days_before_month(year, month)]. *)
Definition days_before_month (y m : Z) : Z :=
  DAYS_BEFORE_MONTH m + b2z ((2 <? m) && is_leap y).

(** [_ymd2ord]: ordinal of a date, 0001-01-01 being day 1. *)
Definition ymd2ord (d : date) : Z :=
  days_before_year (year d) + days_before_month (year d) (month d) + day d.

Definition DI400Y : Z := 146097.
Definition DI100Y : Z := 36524.
Definition DI4Y : Z := 1461.
Definition MAXORDINAL : Z := 3652059.

(** [_ord2ymd(n)], statement for statement. *)
Definition ord2ymd (n : Z) : date :=
  let n := n - 1 in
  let n400 := n / DI400Y in
  let n := n mod DI400Y in
  let y := n400 * 400 + 1 in
  let n100 := n / DI100Y in
  let n := n mod DI100Y in
  let n4 := n / DI4Y in
  let n := n mod DI4Y in
  let n1 := n / 365 in
  let n := n mod 365 in
  let y := y + n100 * 100 + n4 * 4 + n1 in
  if (n1 =? 4) || (n100 =? 4) then mkDate (y - 1) 12 31
  else
    let leapyear := (n1 =? 3) && (negb (n4 =? 24) || (n100 =? 3)) in
    let m := Z.shiftr (n + 50) 5 in
    let preceding := DAYS_BEFORE_MONTH m + b2z ((2 <? m) && leapyear) in
    if n <? preceding then
      let m := m - 1 in
      let preceding := preceding - (DAYS_IN_MONTH m + b2z ((m =? 2) && leapyear)) in
      mkDate y m (n - preceding + 1)
    else mkDate y m (n - preceding + 1).

(** The dates a [datetime.date] object can hold ([MINYEAR = 1],
    [MAXYEAR = 9999]). *)
Definition valid_date (d : date) : Prop :=
  1 <= year d <= 9999 /\ 1 <= month d <= 12 /\
  1 <= day d <= days_in_month (year d) (month d).

(** The calendar's own notion of "the next day" and "the day before",
    written from the calendar rules (month lengths, leap years) and not
    from ordinals; used to say what adding a number of days means. *)
Definition next_day (d : date) : date :=
  if day d <? days_in_month (year d) (month d) then
    mkDate (year d) (month d) (day d + 1)
  else if month d <? 12 then mkDate (year d) (month d + 1) 1
  else mkDate (year d + 1) 1 1.

Definition prev_day (d : date) : date :=
  if 1 <? day d then mkDate (year d) (month d) (day d - 1)
  else if 1 <? month d then
    mkDate (year d) (month d - 1) (days_in_month (year d) (month d - 1))
  else mkDate (year d - 1) 12 31.

(** Calendar date [d] shifted by [n] days, by stepping day by day. *)
Definition shift_days (d : date) (n : Z) : date :=
  match n with
  | Z0 => d
  | Zpos p => Pos.iter next_day d p
  | Zneg p => Pos.iter prev_day d p
  end.

(** [date.__add__(timedelta(days=n))]: [timedelta] refuses more than
    999999999 days, and the sum must stay within [1 .. _MAXORDINAL]. *)
Definition add_days (d : date) (n : Z) : outcome date :=
  if 999999999 <? Z.abs n then Raise OverflowError
  else
    let o := ymd2ord d + n in
    if (0 <? o) && (o <=? MAXORDINAL) then Ok (ord2ymd o)
    else Raise OverflowError.

(** A [datetime.datetime], to the second. *)
Record datetime := mkDatetime { dt_date : date; hour : Z; minute : Z; second : Z }.

(** The local wall clock is read as a number of seconds elapsed since
    0001-01-01 00:00:00 local time; this is the [datetime] it shows. *)
Definition datetime_of_seconds (t : Z) : datetime :=
  mkDatetime (ord2ymd (t / 86400 + 1))
             ((t mod 86400) / 3600) ((t mod 3600) / 60) (t mod 60).

(** [%Y]: the C library prints the year as a plain decimal number, without
    leading zeros (year 299 prints as "299"); the years of a [date] are 1 to
    9999, so this is the number of characters it takes. *)
Definition year_digits (y : Z) : nat :=
  if y <? 10 then 1 else if y <? 100 then 2 else if y <? 1000 then 3 else 4.

(** [d.strftime('%Y%m%d%H%M%S')] on a [date]: the time fields print as 0. *)
Definition strftime_date (d : date) : string :=
  (PyStr.zfill (year_digits (year d)) (year d)
   ++ PyStr.zfill 2 (month d) ++ PyStr.zfill 2 (day d)
   ++ PyStr.zfill 2 0 ++ PyStr.zfill 2 0 ++ PyStr.zfill 2 0)%string.

(** [dt.strftime('%Y%m%d%H%M%S')] on a [datetime]. *)
Definition strftime (dt : datetime) : string :=
  (PyStr.zfill (year_digits (year (dt_date dt))) (year (dt_date dt))
   ++ PyStr.zfill 2 (month (dt_date dt))
   ++ PyStr.zfill 2 (day (dt_date dt))
   ++ PyStr.zfill 2 (hour dt) ++ PyStr.zfill 2 (minute dt)
   ++ PyStr.zfill 2 (second dt))%string.

End PyDate.

(* ===================================================================== *)
(** ** The provider: EC2 and STS as an explicit world *)
(* ===================================================================== *)

Module Ec2.

(** A tag as the API returns it: a dict with ['Key'] and ['Value'];
    [Value = None] is a dict without the ['Value'] entry. *)
Record tag := mkTag { Key : string; Value : option string }.

(** An entry of [Reservations[..]['Instances']]. *)
Record instance := mkInstance { InstanceId : string; Tags : list tag }.

Record reservation := mkReservation { Instances : list instance }.

(** An [ec2.Image] resource: [image.id], [image.tags] ([None] when the
    image carries no tag), and the name and description it was given. *)
Record image := mkImage {
  image_id : string;
  image_tags : option (list tag);
  image_name : string;
  image_description : string
}.

(** An entry of [describe_snapshots(..)['Snapshots']]. *)
Record snapshot := mkSnapshot {
  SnapshotId : string;
  Description : string;
  OwnerId : string
}.

(** The requests the code sends. *)
Inductive request : Type :=
| DescribeInstances
| CreateImage (instance_id : string)
| CreateTags (resource : string)
| DescribeImages
| DeregisterImage (image : string)
| GetCallerIdentity
| DescribeSnapshots
| DeleteSnapshot (snapshot_id : string).

(** What the provider has done, in order, for the requests that changed
    something. *)
Inductive event : Type :=
| ImageCreated (instance_id image : string)
| TagsCreated (image value : string)
| ImageDeregistered (image : string)
| SnapshotDeleted (snapshot_id : string).

Record world := mkWorld {
  reservations : list reservation;   (* the account's instances *)
  images : list image;               (* images owned by "self" *)
  snapshots : list snapshot;
  account : string;                  (* STS caller identity *)
  clock : nat -> Z;                  (* k-th reading of the local clock *)
  reads : nat;                       (* clock readings made so far *)
  image_ids : nat -> string;         (* ids the provider hands out *)
  created : nat;                     (* images created so far *)
  faults : request -> bool;          (* requests the provider rejects *)
  history : list event;
  image_snapshots : nat -> list snapshot
                                     (* snapshots created with the n-th image *)
}.

(** Computations on the world that may raise: the world is kept when an
    exception is raised (what was done before it stays done). *)
Definition M (A : Type) : Type := world -> outcome A * world.

Definition ret {A} (a : A) : M A := fun w => (Ok a, w).

Definition bind {A B} (m : M A) (k : A -> M B) : M B :=
  fun w => match m w with
           | (Ok a, w') => k a w'
           | (Raise e, w') => (Raise e, w')
           end.

Definition lift {A} (o : outcome A) : M A := fun w => (o, w).

(** [for x in l: body(x)]. *)
Fixpoint for_each {A} (l : list A) (body : A -> M unit) : M unit :=
  match l with
  | [] => ret tt
  | x :: l' => bind (body x) (fun _ => for_each l' body)
  end.

(** A request is rejected with [ClientError] when the provider says so. *)
Definition send (r : request) : M unit :=
  fun w => if faults w r then (Raise ClientError, w) else (Ok tt, w).

(** The world after one more reading of the clock. *)
Definition tick (w : world) : world :=
  mkWorld (reservations w) (images w) (snapshots w) (account w) (clock w)
          (S (reads w)) (image_ids w) (created w) (faults w) (history w)
          (image_snapshots w).

(** [datetime.datetime.now()]: one reading of the clock. *)
Definition now : M PyDate.datetime :=
  fun w => (Ok (PyDate.datetime_of_seconds (clock w (reads w))), tick w).

(** [datetime.date.today()]: the date of one reading of the clock. *)
Definition today : M PyDate.date :=
  bind now (fun dt => ret (PyDate.dt_date dt)).

Definition has_tag (k v : string) (ts : list tag) : bool :=
  existsb (fun t => String.eqb (Key t) k &&
                    match Value t with
                    | Some v' => String.eqb v' v
                    | None => false
                    end) ts.

Definition has_tag_key (k : string) (ts : list tag) : bool :=
  existsb (fun t => String.eqb (Key t) k) ts.

(** [describe_instances(Filters=[{'Name': 'tag:' + k, 'Values': [v]}])]:
    the reservations that hold a matching instance, with those instances. *)
Definition describe_instances (k v : string) : M (list reservation) :=
  bind (send DescribeInstances) (fun _ => fun w =>
    (Ok (filter (fun r => negb (Nat.eqb (List.length (Instances r)) 0))
           (map (fun r => mkReservation
                            (filter (fun i => has_tag k v (Tags i)) (Instances r)))
                (reservations w))), w)).

(** [create_image(InstanceId=.., Name=.., Description=.., NoReboot=True,
    DryRun=False)]: registers a new, untagged image and returns its id; the
    provider creates the snapshots of the instance's volumes along with it. *)
Definition create_image (instance_id name description : string) : M string :=
  bind (send (CreateImage instance_id)) (fun _ => fun w =>
    let ami := image_ids w (created w) in
    (Ok ami,
     mkWorld (reservations w)
             (images w ++ [mkImage ami None name description])
             (snapshots w ++ image_snapshots w (created w))
             (account w) (clock w) (reads w) (image_ids w)
             (S (created w)) (faults w)
             (history w ++ [ImageCreated instance_id ami])
             (image_snapshots w))).

(** Writing tag [k = v] on a resource replaces an earlier tag [k]. *)
Definition set_tag (k v : string) (ts : option (list tag)) : option (list tag) :=
  let old := match ts with Some l => l | None => [] end in
  Some (filter (fun t => negb (String.eqb (Key t) k)) old ++ [mkTag k (Some v)]).

(** [create_tags(Resources=[resource], Tags=[{'Key': k, 'Value': v}])]. *)
Definition create_tags (resource k v : string) : M unit :=
  bind (send (CreateTags resource)) (fun _ => fun w =>
    (Ok tt,
     mkWorld (reservations w)
             (map (fun i => if String.eqb (image_id i) resource
                            then mkImage (image_id i) (set_tag k v (image_tags i))
                                         (image_name i) (image_description i)
                            else i) (images w))
             (snapshots w) (account w) (clock w) (reads w) (image_ids w)
             (created w) (faults w)
             (history w ++ [TagsCreated resource v])
             (image_snapshots w))).

(** [ec2_resource.images.filter(Owners=['self'], Filters=[{'Name':
    'tag-key', 'Values': [k]}])], evaluated when it is iterated. *)
Definition images_with_tag_key (k : string) : M (list image) :=
  bind (send DescribeImages) (fun _ => fun w =>
    (Ok (filter (fun i => match image_tags i with
                          | Some ts => has_tag_key k ts
                          | None => false
                          end) (images w)), w)).

(** [deregister_image(DryRun=False, ImageId=ami)]; an unknown id is
    rejected. *)
Definition deregister_image (ami : string) : M unit :=
  bind (send (DeregisterImage ami)) (fun _ => fun w =>
    if existsb (fun i => String.eqb (image_id i) ami) (images w) then
      (Ok tt,
       mkWorld (reservations w)
               (filter (fun i => negb (String.eqb (image_id i) ami)) (images w))
               (snapshots w) (account w) (clock w) (reads w) (image_ids w)
               (created w) (faults w)
               (history w ++ [ImageDeregistered ami])
               (image_snapshots w))
    else (Raise ClientError, w)).

(** [boto3.client('sts').get_caller_identity()['Account']]. *)
Definition get_caller_identity : M string :=
  bind (send GetCallerIdentity) (fun _ => fun w => (Ok (account w), w)).

(** [describe_snapshots(MaxResults=n, OwnerIds=[owner])['Snapshots']]:
    one page of at most [n] snapshots of that owner. *)
Definition describe_snapshots (n : nat) (owner : string) : M (list snapshot) :=
  bind (send DescribeSnapshots) (fun _ => fun w =>
    (Ok (firstn n (filter (fun s => String.eqb (OwnerId s) owner) (snapshots w))), w)).

(** [delete_snapshot(SnapshotId=sid)]; an unknown id is rejected. *)
Definition delete_snapshot (sid : string) : M unit :=
  bind (send (DeleteSnapshot sid)) (fun _ => fun w =>
    if existsb (fun s => String.eqb (SnapshotId s) sid) (snapshots w) then
      (Ok tt,
       mkWorld (reservations w) (images w)
               (filter (fun s => negb (String.eqb (SnapshotId s) sid)) (snapshots w))
               (account w) (clock w) (reads w) (image_ids w)
               (created w) (faults w)
               (history w ++ [SnapshotDeleted sid])
               (image_snapshots w))
    else (Raise ClientError, w)).

End Ec2.

Notation "x <- m ;; k" := (Ec2.bind m (fun x => k))
  (at level 61, m at next level, right associativity).

(* ===================================================================== *)
(** ** [lambda_function.py] *)
(* ===================================================================== *)

Module Lambda.
Import Ec2.

(** [[item for sublist in list_to_flatten for item in sublist]]. *)
Definition flatten_list {A} (list_to_flatten : list (list A)) : list A :=
  List.concat list_to_flatten.

Definition get_instances_by_tag_keys : M (list instance) :=
  reservations_list <- describe_instances "Backup" "Yes" ;;
  let instances_list := map Instances reservations_list in
  ret (flatten_list instances_list).

(** [tag['Value']]. *)
Definition tag_value (t : tag) : outcome string :=
  match Value t with
  | Some v => Ok v
  | None => Raise KeyError
  end.

Definition get_instance_name (instance : instance) : outcome string :=
  try_except IndexError
    (l <~ comprehension tag_value (fun t => String.eqb (Key t) "Name")
                        (Tags instance) ;;
     subscript0 l)
    (Ok "Not Specified").

Definition get_instance_retention_days (instance : instance) : outcome Z :=
  try_except IndexError
    (l <~ comprehension (fun t => v <~ tag_value t ;; PyStr.int v)
                        (fun t => String.eqb (Key t) "Retention")
                        (Tags instance) ;;
     subscript0 l)
    (Ok 7).

(** Returns the ['ImageId'] of the response. *)
Definition create_ami (instance_id instance_name : string) : M string :=
  t <- now ;;
  let create_time := PyDate.strftime t in
  create_image instance_id
    (instance_name ++ "-" ++ instance_id ++ "-" ++ create_time)%string
    ("AMI of instance " ++ instance_name ++ " with instance id " ++ instance_id
     ++ " created by Lambda on " ++ create_time)%string.

(** [(datetime.date.today() + datetime.timedelta(days=retention_days))
     .strftime('%Y%m%d%H%M%S')] for a given value of [date.today()]. *)
Definition deregister_on (today : PyDate.date) (retention_days : Z) : outcome string :=
  d <~ PyDate.add_days today retention_days ;;
  Ok (PyDate.strftime_date d).

Definition create_ami_tags (image_id : string) (retention_days : Z) : M unit :=
  d <- today ;;
  deregister_on <- lift (deregister_on d retention_days) ;;
  create_tags image_id "DeleteOn" deregister_on.

(** The body of the [for instance in instances_list] loop. *)
Definition backup_instance (instance : instance) : M unit :=
  let instance_id := InstanceId instance in
  instance_name <- lift (get_instance_name instance) ;;
  retention_days <- lift (get_instance_retention_days instance) ;;
  ami <- create_ami instance_id instance_name ;;
  create_ami_tags ami retention_days.

Definition create_backup_amis : M unit :=
  instances_list <- get_instances_by_tag_keys ;;
  for_each instances_list backup_instance.

Definition get_amis_with_deleteon_tag : M (list image) :=
  images_with_tag_key "DeleteOn".

(** The values the local [deletion_date] can hold. *)
Inductive pyval : Type :=
| VStr (s : string)
| VNone
| VFalse.

(** [t.get('Value')]. *)
Definition tag_get_value (t : tag) : pyval :=
  match Value t with
  | Some v => VStr v
  | None => VNone
  end.

(** [deletion_date <= todays_date], the right operand being a [str]. *)
Definition le_str (v : pyval) (s : string) : outcome bool :=
  match v with
  | VStr a => Ok (PyStr.le a s)
  | VNone | VFalse => Raise TypeError
  end.

(** The [try] statement of the loop body: the new binding of
    [deletion_date] ([None] while the name is still unbound). *)
Definition extract_deletion_date (image : image) (deletion_date : option pyval)
  : outcome (option pyval) :=
  try_except IndexError
    match image_tags image with
    | Some ts =>
        l <~ comprehension (fun t => Ok (tag_get_value t))
                           (fun t => String.eqb (Key t) "DeleteOn") ts ;;
        v <~ subscript0 l ;;
        Ok (Some v)
    | None => Ok deletion_date
    end
    (Ok (Some VFalse)).

(** The [for] loop of [get_list_of_images_to_deregister], with its two
    locals: [deletion_date] lives across iterations. *)
Fixpoint select_loop (amis : list image) (deletion_date : option pyval)
    (amis_to_delete : list string) : M (list string) :=
  match amis with
  | [] => ret amis_to_delete
  | image :: rest =>
      deletion_date <- lift (extract_deletion_date image deletion_date) ;;
      t <- now ;;
      let todays_date := PyDate.strftime t in
      match deletion_date with
      | None => lift (Raise UnboundLocalError)
      | Some v =>
          expired <- lift (le_str v todays_date) ;;
          if expired : bool
          then select_loop rest deletion_date (amis_to_delete ++ [image_id image])
          else select_loop rest deletion_date amis_to_delete
      end
  end.

Definition get_list_of_images_to_deregister (amis_with_deleteon_tag : list image)
  : M (list string) :=
  select_loop amis_with_deleteon_tag None [].

(** The second parameter is called [amis_to_delete] in the source; the
    only caller passes one image id, a [str]. *)
Definition matches (amis_to_delete : string) (snapshot : snapshot) : bool :=
  0 <? PyStr.find (Description snapshot) amis_to_delete.

Definition delete_snapshots (amis_to_delete : string) : M unit :=
  security_token <- get_caller_identity ;;
  snapshots <- describe_snapshots 1000 security_token ;;
  for_each snapshots (fun snapshot =>
    if matches amis_to_delete snapshot
    then delete_snapshot (SnapshotId snapshot)
    else ret tt).

(** The body of the [for ami in amis_to_delete] loop. *)
Definition deregister_ami (ami : string) : M unit :=
  _ <- deregister_image ami ;;
  delete_snapshots ami.

Definition deregister_amis (amis_to_delete : list string) : M unit :=
  for_each amis_to_delete deregister_ami.

Definition deregister_backup_amis : M unit :=
  amis <- get_amis_with_deleteon_tag ;;
  amis_to_delete <- get_list_of_images_to_deregister amis ;;
  deregister_amis amis_to_delete.

Definition lambda_handler : M unit :=
  _ <- create_backup_amis ;;
  deregister_backup_amis.

End Lambda.

(* ===================================================================== *)
(** ** Vocabulary of the statements *)
(* ===================================================================== *)

Module Spec.
Import Ec2 Lambda.

(** The values ([tag.get('Value')]) of the tags with key [k], in order. *)
Definition tag_values (k : string) (ts : list tag) : list (option string) :=
  map Value (filter (fun t => String.eqb (Key t) k) ts).

(** A tag value that [int(...)] accepts. *)
Definition parseable (o : option string) : Prop :=
  exists v n, o = Some v /\ PyStr.parse_int v = Some n.

(** An image whose tag list is there and whose first [DeleteOn] tag
    holds the string [d]. *)
Definition delete_on (i : image) (d : string) : Prop :=
  exists ts rest,
    image_tags i = Some ts /\ tag_values "DeleteOn" ts = Some d :: rest.

(** Lexicographic order on strings, character by character. *)
Inductive lex_le : string -> string -> Prop :=
| lex_nil s : lex_le "" s
| lex_lt c1 c2 s1 s2 :
    (nat_of_ascii c1 < nat_of_ascii c2)%nat -> lex_le (String c1 s1) (String c2 s2)
| lex_eq c s1 s2 : lex_le s1 s2 -> lex_le (String c s1) (String c s2).

(** ["now" formatted as YYYYMMDDHHMMSS] at the [k]-th reading of the clock. *)
Definition now_string (clock : nat -> Z) (k : nat) : string :=
  PyDate.strftime (PyDate.datetime_of_seconds (clock k)).

(** Order on dates: year, then month, then day. *)
Definition date_lt (a b : PyDate.date) : Prop :=
  PyDate.year a < PyDate.year b \/
  (PyDate.year a = PyDate.year b /\
   (PyDate.month a < PyDate.month b \/
    (PyDate.month a = PyDate.month b /\ PyDate.day a < PyDate.day b))).

(** The month and day that [_ord2ymd] derives from the offset [n] of a
    day within its year. *)
Definition md_split (n : Z) (leapyear : bool) : Z * Z :=
  let m := Z.shiftr (n + 50) 5 in
  let preceding := PyDate.DAYS_BEFORE_MONTH m + PyDate.b2z ((2 <? m) && leapyear) in
  if n <? preceding then
    let m := m - 1 in
    let preceding :=
      preceding - (PyDate.DAYS_IN_MONTH m + PyDate.b2z ((m =? 2) && leapyear)) in
    (m, n - preceding + 1)
  else (m, n - preceding + 1).

Definition md_ok (leapyear : bool) (n : Z) : bool :=
  let '(m, d) := md_split n leapyear in
  (1 <=? m) && (m <=? 12) && (1 <=? d) &&
  (d <=? (if (m =? 2) && leapyear then 29 else PyDate.DAYS_IN_MONTH m)) &&
  (PyDate.DAYS_BEFORE_MONTH m + PyDate.b2z ((2 <? m) && leapyear) + d =? n + 1).

(** The first second of the year 1000, as the clock counts. *)
Definition year_1000 : Z := (PyDate.ymd2ord (PyDate.mkDate 1000 1 1) - 1) * 86400.

(** Clock values whose year has four digits, 1000 to 9999. *)
Definition four_digit_year (t : Z) : Prop :=
  year_1000 <= t < PyDate.MAXORDINAL * 86400.

(** The clock never runs backwards and shows a year of four digits. *)
Definition clock_sane (clock : nat -> Z) : Prop :=
  (forall i j, (i <= j)%nat -> clock i <= clock j) /\
  (forall i, four_digit_year (clock i)).

(** The ids the provider will hand out from now on are pairwise distinct
    and differ from the ids of the images that exist. *)
Definition ids_fresh (w : world) : Prop :=
  (forall i j, (created w <= i)%nat -> (created w <= j)%nat ->
               image_ids w i = image_ids w j -> i = j) /\
  (forall i img, (created w <= i)%nat -> In img (images w) ->
                 image_id img <> image_ids w i).

(** The snapshots that exist and those the provider will create with the
    images to come have pairwise distinct ids. *)
Definition snapshots_fresh (w : world) : Prop :=
  forall n,
    NoDup (map SnapshotId
             (snapshots w ++ flat_map (image_snapshots w) (seq (created w) n))).

(** No request is rejected. *)
Definition no_faults (w : world) : Prop := forall r, faults w r = false.

(** The world holds an image with id [ami] whose first [DeleteOn] tag is [d]. *)
Definition tagged (w : world) (ami d : string) : Prop :=
  exists img, In img (images w) /\ image_id img = ami /\ delete_on img d.

(** The world after a successful iteration of the Backup Phase for
    instance [i], resolved name [name] and deletion date [dd]. *)
Definition backed_up (w : world) (i : instance) (name : string) (dd : PyDate.date)
  : world :=
  let ami := image_ids w (created w) in
  let d := PyDate.strftime_date dd in
  let create_time := now_string (clock w) (reads w) in
  mkWorld (reservations w)
    (map (fun i0 => if String.eqb (image_id i0) ami
                    then mkImage (image_id i0)
                                 (set_tag "DeleteOn" d (image_tags i0))
                                 (image_name i0) (image_description i0)
                    else i0)
         (images w ++
          [mkImage ami None
             (name ++ "-" ++ InstanceId i ++ "-" ++ create_time)%string
             ("AMI of instance " ++ name ++ " with instance id "
              ++ InstanceId i ++ " created by Lambda on " ++ create_time)%string]))
    (snapshots w ++ image_snapshots w (created w))
    (account w) (clock w) (S (S (reads w))) (image_ids w)
    (S (created w)) (faults w)
    (history w ++ [ImageCreated (InstanceId i) ami; TagsCreated ami d])
    (image_snapshots w).

(** The world after [deregister_image(ImageId=ami)] was accepted. *)
Definition deregistered (w : world) (ami : string) : world :=
  mkWorld (reservations w)
          (filter (fun i => negb (String.eqb (image_id i) ami)) (images w))
          (snapshots w) (account w) (clock w) (reads w) (image_ids w)
          (created w) (faults w)
          (history w ++ [ImageDeregistered ami]) (image_snapshots w).

(** An instance whose name and retention resolve, and for which the
    deletion date exists whenever the clock is read. *)
Definition backs_up (clock : nat -> Z) (i : instance) : Prop :=
  (exists name, get_instance_name i = Ok name) /\
  (exists days,
     get_instance_retention_days i = Ok days /\
     forall k, exists dd,
       PyDate.add_days (PyDate.dt_date (PyDate.datetime_of_seconds (clock k))) days
       = Ok dd).

(** Image ids are unique, and an image carrying a [DeleteOn] tag has a
    string as the value of its first such tag. *)
Definition images_sane (l : list image) : Prop :=
  NoDup (map image_id l) /\
  forall img, In img l ->
    match image_tags img with
    | Some ts => has_tag_key "DeleteOn" ts
    | None => false
    end = true ->
    exists d, delete_on img d.

(** A world in which a run meets no exception. *)
Definition well_behaved (w : world) : Prop :=
  no_faults w /\ clock_sane (clock w) /\ ids_fresh w /\ images_sane (images w) /\
  snapshots_fresh w /\
  (forall r i, In r (reservations w) -> In i (Instances r) ->
               has_tag "Backup" "Yes" (Tags i) = true -> backs_up (clock w) i).

(** [w'] is a later state of [w]: same clock, same id supply, same faults,
    and the history of [w] extended by [h]. *)
Definition later (w w' : world) (h : list event) : Prop :=
  clock w' = clock w /\ image_ids w' = image_ids w /\ faults w' = faults w /\
  (reads w <= reads w')%nat /\ history w' = history w ++ h.

(** The string held by the first [DeleteOn] tag of an image, if any. *)
Definition first_delete_on (i : image) : option string :=
  match image_tags i with
  | Some ts =>
      match tag_values "DeleteOn" ts with
      | Some d :: _ => Some d
      | _ => None
      end
  | None => None
  end.

Definition expired (i : image) (now : string) : bool :=
  match first_delete_on i with
  | Some d => PyStr.le d now
  | None => false
  end.

(** The ids of the images of [l] that have expired, the [j]-th image being
    judged against the [k + j]-th reading of the clock. *)
Fixpoint selected (l : list image) (clock : nat -> Z) (k : nat) : list string :=
  match l with
  | [] => []
  | i :: l' =>
      (if expired i (now_string clock k) then [image_id i] else [])
      ++ selected l' clock (S k)
  end.

(** The world after [n] more readings of the clock. *)
Definition ticks (n : nat) (w : world) : world := Nat.iter n tick w.

(** The string [sub] occurs in [s], at some offset. *)
Definition contains (s sub : string) : Prop :=
  exists m, String.substring m (String.length sub) s = sub.

(** The one page of snapshots that [delete_snapshots] looks at. *)
Definition page (w : world) : list snapshot :=
  firstn 1000 (filter (fun s => String.eqb (OwnerId s) (account w)) (snapshots w)).

(** The ids of the snapshots of that page whose description matches. *)
Definition hits (ami : string) (w : world) : list string :=
  map SnapshotId (filter (matches ami) (page w)).

(** The world once the snapshots [sids] have been deleted, in that order. *)
Definition after_delete (w : world) (sids : list string) : world :=
  mkWorld (reservations w) (images w)
          (filter (fun s => negb (existsb (String.eqb (SnapshotId s)) sids))
                  (snapshots w))
          (account w) (clock w) (reads w) (image_ids w) (created w) (faults w)
          (history w ++ map SnapshotDeleted sids) (image_snapshots w).

End Spec.

(* ===================================================================== *)
(** ** Sample resources and worlds *)
(* ===================================================================== *)

Module Examples.
Import Ec2 Lambda.

(** An image whose [DeleteOn] date is 2024-01-01. *)
Definition image_expired : image :=
  mkImage "ami-1" (Some [mkTag "DeleteOn" (Some "20240101000000")]) "n" "d".

(** An image whose [DeleteOn] tag is there, without a value. *)
Definition image_unreadable : image :=
  mkImage "ami-2" (Some [mkTag "DeleteOn" None]) "n" "d".

(** An image whose [tags] attribute is [None]. *)
Definition image_untagged : image := mkImage "ami-3" None "n" "d".

(** A provider that creates no snapshot with an image. *)
Definition no_new_snapshots : nat -> list snapshot := fun _ => [].

(** A clock stopped at 2024-01-02 00:00:00. *)
Definition clock_20240102 : nat -> Z := fun _ => 63839750400.

Definition world_20240102 (imgs : list image) : world :=
  mkWorld [] imgs [] "123456789012" clock_20240102 0
          (fun _ => "ami-new") 0 (fun _ => false) [] no_new_snapshots.

Definition image_future : image :=
  mkImage "ami-4" (Some [mkTag "DeleteOn" (Some "20240103000000")]) "n" "d".

Definition instance_web1 : instance :=
  mkInstance "i-1" [mkTag "Backup" (Some "Yes"); mkTag "Name" (Some "web1");
                    mkTag "Retention" (Some "two weeks")].

Definition instance_db1 : instance :=
  mkInstance "i-2" [mkTag "Backup" (Some "Yes"); mkTag "Name" (Some "db1");
                    mkTag "Retention" (Some "5")].

Definition world_bad_retention : world :=
  mkWorld [mkReservation [instance_web1; instance_db1]] [] [] "123456789012"
          clock_20240102 0 (fun _ => "ami-new") 0 (fun _ => false) [] no_new_snapshots.

Definition instance_app1 : instance :=
  mkInstance "i-1" [mkTag "Backup" (Some "Yes"); mkTag "Name" (Some "app1")].

Definition fails_create_i1 (r : request) : bool :=
  match r with
  | CreateImage i => String.eqb i "i-1"
  | _ => false
  end.

Definition world_create_fails : world :=
  mkWorld [mkReservation [instance_app1; instance_db1]] [] [] "123456789012"
          clock_20240102 0 (fun _ => "ami-new") 0 fails_create_i1 [] no_new_snapshots.

Definition fails_deregister_ami1 (r : request) : bool :=
  match r with
  | DeregisterImage i => String.eqb i "ami-1"
  | _ => false
  end.

Definition image_expired_too : image :=
  mkImage "ami-5" (Some [mkTag "DeleteOn" (Some "20231231000000")]) "n" "d".

Definition world_deregister_fails : world :=
  mkWorld [] [image_expired; image_expired_too] [] "123456789012"
          clock_20240102 0 (fun _ => "ami-new") 0 fails_deregister_ami1 [] no_new_snapshots.

Definition snapshot_tail : snapshot :=
  mkSnapshot "snap-1" "Created by CreateImage(i-1) for ami-1 from vol-1" "123456789012".

Definition snapshot_head : snapshot :=
  mkSnapshot "snap-2" "ami-1 root volume" "123456789012".

Definition snapshot_foreign : snapshot :=
  mkSnapshot "snap-3" "Created by CreateImage(i-1) for ami-1 from vol-2" "999999999999".

(** One expired image, one image to keep, and three snapshots naming the
    expired image: in the middle of the description, at its very start, and
    in the description of a snapshot of another account. *)
Definition world_snapshots : world :=
  mkWorld [] [image_expired; image_future]
          [snapshot_tail; snapshot_head; snapshot_foreign] "123456789012"
          clock_20240102 0 (fun _ => "ami-new") 0 (fun _ => false) [] no_new_snapshots.

Fixpoint unary (n : nat) : string :=
  match n with
  | O => ""
  | S k => String "1" (unary k)
  end.

(** An id supply that never repeats, no id occurring inside another:
    "ami-new0", "ami-new10", "ami-new110", ... *)
Definition ami_ids (n : nat) : string := ("ami-new" ++ unary n ++ "0")%string.

(** The provider creates one snapshot with each image and names the image
    in its description. *)
Definition snapshots_of_image (n : nat) : list snapshot :=
  [mkSnapshot ("snap-new" ++ unary n)
     ("Created by CreateImage for " ++ ami_ids n ++ " from vol-1")
     "123456789012"].

Definition instance_scratch : instance :=
  mkInstance "i-9" [mkTag "Backup" (Some "Yes"); mkTag "Retention" (Some "0")].

Definition world_zero_retention : world :=
  mkWorld [mkReservation [instance_scratch]] [] [] "123456789012"
          clock_20240102 0 ami_ids 0 (fun _ => false) [] snapshots_of_image.

Definition instance_far_past : instance :=
  mkInstance "i-8" [mkTag "Backup" (Some "Yes"); mkTag "Retention" (Some "-3000000")].

Definition world_far_past : world :=
  mkWorld [mkReservation [instance_far_past]] [] [] "123456789012"
          clock_20240102 0 ami_ids 0 (fun _ => false) [] snapshots_of_image.

(** A retention that leads back to the year 299. *)
Definition instance_year_299 : instance :=
  mkInstance "i-7" [mkTag "Backup" (Some "Yes"); mkTag "Retention" (Some "-630000")].

Definition world_year_299 : world :=
  mkWorld [mkReservation [instance_year_299]] [] [] "123456789012"
          clock_20240102 0 ami_ids 0 (fun _ => false) [] snapshots_of_image.

(** "30" in Arabic-Indic digits (U+0663 U+0660), and "5" after the
    control character U+001C. *)
Definition thirty_arabic_indic : string :=
  string_of_list_ascii (map ascii_of_nat [217; 163; 217; 160]%nat).

Definition five_after_file_separator : string :=
  String (ascii_of_nat 28) "5".

End Examples.

(* ===================================================================== *)
(** ** Vocabulary of the further properties *)
(* ===================================================================== *)

Module Spec2.
Import Ec2 Lambda Spec.

(** Year, month and day compared in that order. *)
Definition ymd_compare (a b : PyDate.date) : comparison :=
  match PyDate.year a ?= PyDate.year b with
  | Eq => match PyDate.month a ?= PyDate.month b with
          | Eq => PyDate.day a ?= PyDate.day b
          | c => c
          end
  | c => c
  end.

(** The day number (0001-01-01 being day 1) the clock shows at [t]. *)
Definition day_of (t : Z) : Z := t / 86400 + 1.

(** Clock values that [datetime] can show. *)
Definition in_range (t : Z) : Prop := 0 <= t < PyDate.MAXORDINAL * 86400.

(** The name [create_ami] gives an image: ["{}-{}-{}".format(instance_name,
    instance_id, create_time)]. *)
Definition ami_name (instance_name instance_id create_time : string) : string :=
  (instance_name ++ "-" ++ instance_id ++ "-" ++ create_time)%string.

Definition ami_description (instance_name instance_id create_time : string) : string :=
  ("AMI of instance " ++ instance_name ++ " with instance id " ++ instance_id
   ++ " created by Lambda on " ++ create_time)%string.

(** The world once [create_ami] has succeeded for an instance. *)
Definition image_created (w : world) (instance_id instance_name : string) : world :=
  let create_time := now_string (clock w) (reads w) in
  mkWorld (reservations w)
    (images w ++
     [mkImage (image_ids w (created w)) None
        (ami_name instance_name instance_id create_time)
        (ami_description instance_name instance_id create_time)])
    (snapshots w ++ image_snapshots w (created w))
    (account w) (clock w) (S (reads w)) (image_ids w)
    (S (created w)) (faults w)
    (history w ++ [ImageCreated instance_id (image_ids w (created w))])
    (image_snapshots w).

(** The instances for which the history records a created image, and the
    images it records as created and as tagged, in order. *)
Definition created_for (h : list event) : list string :=
  flat_map (fun e => match e with ImageCreated i _ => [i] | _ => [] end) h.

Definition created_images (h : list event) : list string :=
  flat_map (fun e => match e with ImageCreated _ a => [a] | _ => [] end) h.

Definition tagged_images (h : list event) : list string :=
  flat_map (fun e => match e with TagsCreated a _ => [a] | _ => [] end) h.

Definition deregistered_images (h : list event) : list string :=
  flat_map (fun e => match e with ImageDeregistered a => [a] | _ => [] end) h.

Definition deleted_snapshots (h : list event) : list string :=
  flat_map (fun e => match e with SnapshotDeleted s => [s] | _ => [] end) h.

(** The images the Expiry Phase enumerates: those with a [DeleteOn] tag. *)
Definition has_delete_on (i : image) : bool :=
  match image_tags i with
  | Some ts => has_tag_key "DeleteOn" ts
  | None => false
  end.

Definition enumerated (w : world) : list image := filter has_delete_on (images w).

(** The images of [l] whose id is not in [ids]. *)
Definition without_images (ids : list string) (l : list image) : list image :=
  filter (fun i => negb (existsb (String.eqb (image_id i)) ids)) l.

(** The exceptions the Backup Phase and the Expiry Phase can end with. *)
Definition backup_exception (e : exn) : Prop :=
  e = KeyError \/ e = ValueError \/ e = OverflowError \/ e = ClientError.

Definition expiry_exception (e : exn) : Prop :=
  e = TypeError \/ e = ClientError.

End Spec2.

Module Examples2.
Import Ec2 Lambda Spec Examples.

(** Two eligible instances, an expired image and its snapshot, fresh ids. *)
Definition world_two_instances : world :=
  mkWorld [mkReservation [instance_app1]; mkReservation [instance_db1]]
          [image_expired] [snapshot_tail] "123456789012"
          clock_20240102 0 ami_ids 0 (fun _ => false) [] snapshots_of_image.

(** A clock that advances one hour per reading from 2024-01-02 00:00:00,
    for a day. *)
Definition clock_hourly : nat -> Z :=
  fun k => 63839750400 + 3600 * Z.of_nat (Nat.min k 24).

Definition image_noon : image :=
  mkImage "ami-6" (Some [mkTag "DeleteOn" (Some "20240102120000")]) "n" "d".

Definition world_hourly (k : nat) : world :=
  mkWorld [] [image_expired; image_noon] [] "123456789012" clock_hourly k
          (fun _ => "ami-new") 0 (fun _ => false) [] no_new_snapshots.

End Examples2.

(* ===================================================================== *)
(** ** Facts about the calendar *)
(* ===================================================================== *)

Module PyDateFacts.
Import PyDate Spec.

Lemma year_decomp n :
0 <= n ->
let n400 := n / DI400Y in
let r := n mod DI400Y in
let n100 := r / DI100Y in
let r2 := r mod DI100Y in
let n4 := r2 / DI4Y in
let r3 := r2 mod DI4Y in
let n1 := r3 / 365 in
let r4 := r3 mod 365 in
n = 146097 * n400 + 36524 * n100 + 1461 * n4 + 365 * n1 + r4 /\
0 <= n400 /\ 0 <= n100 <= 4 /\ 0 <= n4 <= 24 /\ 0 <= n1 <= 4 /\
0 <= r4 < 365 /\
(n100 = 4 -> n4 = 0 /\ n1 = 0 /\ r4 = 0) /\
(n1 = 4 -> r4 = 0) /\
(n4 = 24 -> n100 <> 4 -> n1 <= 3).
Proof.
intros Hn. cbv zeta. unfold DI400Y, DI100Y, DI4Y.
Z.div_mod_to_equations. lia.
Qed.

Lemma dby_compose a b c d :
0 <= a -> 0 <= b <= 3 -> 0 <= c <= 24 -> 0 <= d <= 3 ->
days_before_year (400 * a + 100 * b + 4 * c + d + 1) =
146097 * a + 36524 * b + 1461 * c + 365 * d.
Proof.
intros. unfold days_before_year. Z.div_mod_to_equations. lia.
Qed.

Lemma leap_compose a b c d :
0 <= a -> 0 <= b <= 3 -> 0 <= c <= 24 -> 0 <= d <= 3 ->
is_leap (400 * a + 100 * b + 4 * c + d + 1) =
(d =? 3) && (negb (c =? 24) || (b =? 3)).
Proof.
intros. unfold is_leap.
destruct (Z.eqb_spec d 3); destruct (Z.eqb_spec c 24); destruct (Z.eqb_spec b 3);
repeat match goal with |- context [?a mod ?k =? 0] => destruct (Z.eqb_spec (a mod k) 0) end;
cbn [andb orb negb]; try reflexivity; exfalso; Z.div_mod_to_equations; lia.
Qed.

Lemma forall_below (P : Z -> bool) (N : nat) :
forallb P (map Z.of_nat (seq 0 N)) = true ->
forall z, 0 <= z < Z.of_nat N -> P z = true.
Proof.
intros H z Hz. rewrite forallb_forall in H. apply H.
apply in_map_iff. exists (Z.to_nat z). split; [lia|].
apply in_seq. lia.
Qed.

Lemma md_split_ok leapyear n :
0 <= n < 365 + b2z leapyear -> md_ok leapyear n = true.
Proof.
intros H. destruct leapyear; cbn [b2z] in H.
- apply (forall_below (md_ok true) 366); [vm_compute; reflexivity | lia].
- apply (forall_below (md_ok false) 365); [vm_compute; reflexivity | lia].
Qed.

Lemma ord2ymd_split n :
ord2ymd n =
  let n0 := n - 1 in
  let n400 := n0 / DI400Y in
  let r := n0 mod DI400Y in
  let n100 := r / DI100Y in
  let r2 := r mod DI100Y in
  let n4 := r2 / DI4Y in
  let r3 := r2 mod DI4Y in
  let n1 := r3 / 365 in
  let r4 := r3 mod 365 in
  let y := n400 * 400 + 1 + n100 * 100 + n4 * 4 + n1 in
  if (n1 =? 4) || (n100 =? 4) then mkDate (y - 1) 12 31
  else
    let leapyear := (n1 =? 3) && (negb (n4 =? 24) || (n100 =? 3)) in
    mkDate y (fst (md_split r4 leapyear)) (snd (md_split r4 leapyear)).
Proof.
unfold ord2ymd, md_split. cbv zeta.
destruct (_ || _); [reflexivity|].
destruct (_ <? _); reflexivity.
Qed.

Lemma ord2ymd_spec n :
1 <= n <= MAXORDINAL ->
valid_date (ord2ymd n) /\ ymd2ord (ord2ymd n) = n.
Proof.
intros Hn. rewrite ord2ymd_split. cbv zeta.
pose proof (year_decomp (n - 1) ltac:(lia)) as D. cbv zeta in D.
set (n400 := (n - 1) / DI400Y) in *.
set (r := (n - 1) mod DI400Y) in *.
set (n100 := r / DI100Y) in *.
set (r2 := r mod DI100Y) in *.
set (n4 := r2 / DI4Y) in *.
set (r3 := r2 mod DI4Y) in *.
set (n1 := r3 / 365) in *.
set (r4 := r3 mod 365) in *.
clearbody n400 n100 n4 n1 r4. clear r r2 r3.
destruct D as (Heq & H400 & H100 & H4 & H1 & Hr4 & Hc100 & Hc1 & Hc4).
unfold MAXORDINAL in Hn.
destruct (Z.eqb_spec n1 4) as [E1|E1]; [|destruct (Z.eqb_spec n100 4) as [E100|E100]];
  cbn [orb].
- (* n1 = 4 *)
  assert (n100 <> 4) by (intros X; destruct (Hc100 X); lia).
  assert (n4 <> 24) by (intros X; specialize (Hc4 X); lia).
  specialize (Hc1 E1).
  replace (n400 * 400 + 1 + n100 * 100 + n4 * 4 + n1 - 1)
    with (400 * n400 + 100 * n100 + 4 * n4 + 3 + 1) by lia.
  pose proof (dby_compose n400 n100 n4 3 ltac:(lia) ltac:(lia) ltac:(lia) ltac:(lia)) as DB.
  pose proof (leap_compose n400 n100 n4 3 ltac:(lia) ltac:(lia) ltac:(lia) ltac:(lia)) as LP.
  assert (LP' : is_leap (400 * n400 + 100 * n100 + 4 * n4 + 3 + 1) = true).
  { rewrite LP. destruct (Z.eqb_spec n4 24); [lia | reflexivity]. }
  unfold valid_date, ymd2ord, days_before_month, days_in_month. cbn [year month day].
  rewrite LP', DB. change (12 =? 2) with false. change (2 <? 12) with true.
  cbn [andb b2z DAYS_IN_MONTH DAYS_BEFORE_MONTH]. lia.
- (* n100 = 4 *)
  destruct (Hc100 E100) as (? & ? & ?).
  replace (n400 * 400 + 1 + n100 * 100 + n4 * 4 + n1 - 1)
    with (400 * n400 + 100 * 3 + 4 * 24 + 3 + 1) by lia.
  pose proof (dby_compose n400 3 24 3 ltac:(lia) ltac:(lia) ltac:(lia) ltac:(lia)) as DB.
  pose proof (leap_compose n400 3 24 3 ltac:(lia) ltac:(lia) ltac:(lia) ltac:(lia)) as LP.
  assert (LP' : is_leap (400 * n400 + 100 * 3 + 4 * 24 + 3 + 1) = true).
  { rewrite LP. reflexivity. }
  unfold valid_date, ymd2ord, days_before_month, days_in_month. cbn [year month day].
  rewrite LP', DB. change (12 =? 2) with false. change (2 <? 12) with true.
  cbn [andb b2z DAYS_IN_MONTH DAYS_BEFORE_MONTH]. lia.
- cbv zeta.
  replace (n400 * 400 + 1 + n100 * 100 + n4 * 4 + n1)
    with (400 * n400 + 100 * n100 + 4 * n4 + n1 + 1) by lia.
  pose proof (dby_compose n400 n100 n4 n1 ltac:(lia) ltac:(lia) ltac:(lia) ltac:(lia)) as DB.
  pose proof (leap_compose n400 n100 n4 n1 ltac:(lia) ltac:(lia) ltac:(lia) ltac:(lia)) as LP.
  set (lp := (n1 =? 3) && (negb (n4 =? 24) || (n100 =? 3))) in *.
  assert (Hlp : lp = true -> n1 = 3).
  { unfold lp. destruct (Z.eqb_spec n1 3); [auto | discriminate]. }
  pose proof (md_split_ok lp r4) as MD.
  unfold md_ok in MD. destruct (md_split r4 lp) as [m d]. cbn [fst snd].
  assert (Hrange : 0 <= r4 < 365 + b2z lp) by (destruct lp; cbn; lia).
  specialize (MD Hrange).
  rewrite !andb_true_iff, !Z.leb_le, Z.eqb_eq in MD.
  destruct MD as ((((M1 & M2) & M3) & M4) & M5).
  unfold valid_date, ymd2ord, days_before_month, days_in_month. cbn [year month day].
  rewrite LP, DB.
  repeat split; try lia.
Qed.

Lemma dby_succ y :
days_before_year (y + 1) = days_before_year y + 365 + b2z (is_leap y).
Proof.
unfold days_before_year, is_leap.
replace (y + 1 - 1) with y by lia.
repeat match goal with |- context [?a mod ?k =? 0] => destruct (Z.eqb_spec (a mod k) 0) end;
cbn [andb orb negb b2z]; Z.div_mod_to_equations; lia.
Qed.

Lemma dby_mono a b : a <= b -> days_before_year a <= days_before_year b.
Proof.
intros H. unfold days_before_year. Z.div_mod_to_equations. lia.
Qed.

Ltac month_cases m :=
let H := fresh in
assert (H : m = 1 \/ m = 2 \/ m = 3 \/ m = 4 \/ m = 5 \/ m = 6 \/
        m = 7 \/ m = 8 \/ m = 9 \/ m = 10 \/ m = 11 \/ m = 12) by lia;
repeat (destruct H as [H|H]; [subst m|]); [..|subst m].

Lemma dbm_succ y m :
1 <= m < 12 ->
days_before_month y (m + 1) = days_before_month y m + days_in_month y m.
Proof.
intros H. unfold days_before_month, days_in_month.
month_cases m; try lia; destruct (is_leap y); reflexivity.
Qed.

Lemma dbm_mono y m m' :
1 <= m -> m <= m' -> m' <= 12 ->
days_before_month y m <= days_before_month y m'.
Proof.
intros H1 H2 H3. unfold days_before_month.
month_cases m; month_cases m'; try lia; destruct (is_leap y); cbn; lia.
Qed.

Lemma dim_bounds y m : 1 <= m <= 12 -> 28 <= days_in_month y m <= 31.
Proof.
intros H. unfold days_in_month. month_cases m; destruct (is_leap y); cbn; lia.
Qed.

Lemma dbm_last y : days_before_month y 12 + 31 = 365 + b2z (is_leap y).
Proof. unfold days_before_month. destruct (is_leap y); reflexivity. Qed.

Lemma dbm_first y : days_before_month y 1 = 0.
Proof. unfold days_before_month. rewrite andb_false_l. reflexivity. Qed.

Lemma dbm_dim_le y m :
1 <= m <= 12 ->
days_before_month y m + days_in_month y m <= 365 + b2z (is_leap y).
Proof.
intros H. unfold days_before_month, days_in_month.
month_cases m; destruct (is_leap y); cbn; lia.
Qed.

Lemma ymd2ord_lt a b :
valid_date a -> valid_date b -> date_lt a b -> ymd2ord a < ymd2ord b.
Proof.
destruct a as [ya ma da], b as [yb mb db].
unfold valid_date, date_lt, ymd2ord. cbn [year month day].
intros (Hya & Hma & Hda) (Hyb & Hmb & Hdb) [Hy | (Hy & [Hm | (Hm & Hd)])].
- pose proof (dbm_dim_le ya ma Hma).
  pose proof (dby_succ ya).
  pose proof (dby_mono (ya + 1) yb ltac:(lia)).
  pose proof (dbm_mono yb 1 mb ltac:(lia) ltac:(lia) ltac:(lia)).
  rewrite dbm_first in *. lia.
- subst yb.
  pose proof (dbm_succ ya ma ltac:(lia)).
  pose proof (dbm_mono ya (ma + 1) mb ltac:(lia) ltac:(lia) ltac:(lia)).
  lia.
- subst. lia.
Qed.

Lemma date_trichotomy a b : date_lt a b \/ a = b \/ date_lt b a.
Proof.
destruct a as [ya ma da], b as [yb mb db]. unfold date_lt. cbn [year month day].
destruct (Z.lt_trichotomy ya yb) as [?|[?|?]]; [lia| |lia].
destruct (Z.lt_trichotomy ma mb) as [?|[?|?]]; [lia| |lia].
destruct (Z.lt_trichotomy da db) as [?|[?|?]]; [lia| |lia].
right; left; congruence.
Qed.

Lemma ymd2ord_inj a b :
valid_date a -> valid_date b -> ymd2ord a = ymd2ord b -> a = b.
Proof.
intros Ha Hb E.
destruct (date_trichotomy a b) as [L|[?|L]]; [|assumption|];
  [pose proof (ymd2ord_lt a b Ha Hb L) | pose proof (ymd2ord_lt b a Hb Ha L)]; lia.
Qed.

Lemma ymd2ord_range d :
valid_date d -> 1 <= ymd2ord d <= MAXORDINAL.
Proof.
destruct d as [y m d]. unfold valid_date, ymd2ord. cbn [year month day].
intros (Hy & Hm & Hd).
pose proof (dbm_dim_le y m Hm).
pose proof (dby_succ y).
pose proof (dby_mono (y + 1) 10000 ltac:(lia)).
pose proof (dby_mono 1 y ltac:(lia)).
pose proof (dbm_mono y 1 m ltac:(lia) ltac:(lia) ltac:(lia)).
rewrite dbm_first in *.
change (days_before_year 10000) with 3652059 in *.
change (days_before_year 1) with 0 in *.
unfold MAXORDINAL. lia.
Qed.

Lemma ord2ymd_ymd2ord d : valid_date d -> ord2ymd (ymd2ord d) = d.
Proof.
intros H. pose proof (ymd2ord_range d H) as R.
destruct (ord2ymd_spec _ R) as [V E].
apply ymd2ord_inj; assumption.
Qed.

Lemma next_day_spec d :
valid_date d -> ymd2ord d < MAXORDINAL ->
valid_date (next_day d) /\ ymd2ord (next_day d) = ymd2ord d + 1.
Proof.
destruct d as [y m d]. unfold valid_date, ymd2ord, next_day. cbn [year month day].
intros (Hy & Hm & Hd) Hmax.
pose proof (dim_bounds y m Hm).
destruct (Z.ltb_spec d (days_in_month y m)); cbn [year month day].
- repeat split; lia.
- destruct (Z.ltb_spec m 12); cbn [year month day].
  + pose proof (dbm_succ y m ltac:(lia)).
    pose proof (dim_bounds y (m + 1) ltac:(lia)).
    repeat split; lia.
  + assert (m = 12) by lia. subst m.
    pose proof (dbm_last y). pose proof (dby_succ y).
    assert (d = 31) by (unfold days_in_month in *; cbn in *; lia). subst d.
    rewrite dbm_first.
    assert (y <> 9999).
    { intros ->. change (days_before_year 9999) with 3651694 in *.
      change (is_leap 9999) with false in *. cbn in *. unfold MAXORDINAL in *. lia. }
    pose proof (dim_bounds (y + 1) 1 ltac:(lia)).
    repeat split; lia.
Qed.

Lemma prev_day_spec d :
valid_date d -> 1 < ymd2ord d ->
valid_date (prev_day d) /\ ymd2ord (prev_day d) = ymd2ord d - 1.
Proof.
destruct d as [y m d]. unfold valid_date, ymd2ord, prev_day. cbn [year month day].
intros (Hy & Hm & Hd) Hmin.
pose proof (dim_bounds y m Hm).
destruct (Z.ltb_spec 1 d); cbn [year month day].
- repeat split; lia.
- assert (d = 1) by lia. subst d.
  destruct (Z.ltb_spec 1 m); cbn [year month day].
  + pose proof (dbm_succ y (m - 1) ltac:(lia)).
    pose proof (dim_bounds y (m - 1) ltac:(lia)).
    replace (m - 1 + 1) with m in * by lia.
    repeat split; lia.
  + assert (m = 1) by lia. subst m.
    rewrite dbm_first in *.
    assert (y <> 1).
    { intros ->. change (days_before_year 1) with 0 in *. lia. }
    pose proof (dbm_last (y - 1)). pose proof (dby_succ (y - 1)).
    replace (y - 1 + 1) with y in * by lia.
    assert (days_in_month (y - 1) 12 = 31).
    { unfold days_in_month. reflexivity. }
    repeat split; lia.
Qed.

End PyDateFacts.

(* ===================================================================== *)
(** ** Facts about strings and fixed-width digits *)
(* ===================================================================== *)

Module PyStrFacts.
Import PyStr Spec.

Lemma compare_refl s : String.compare s s = Eq.
Proof.
  induction s as [|c s IH]; cbn; [reflexivity|].
  unfold Ascii.compare. rewrite N.compare_refl. exact IH.
Qed.

Lemma compare_app a b x y :
  String.length a = String.length b ->
  String.compare (a ++ x) (b ++ y) =
  match String.compare a b with
  | Eq => String.compare x y
  | c => c
  end.
Proof.
  revert b. induction a as [|c a IH]; intros [|c' b] H; cbn in H; try discriminate.
  - reflexivity.
  - cbn. destruct (Ascii.compare c c'); try reflexivity.
    apply IH. congruence.
Qed.

Lemma length_app a b :
  String.length (a ++ b) = (String.length a + String.length b)%nat.
Proof. induction a as [|c a IH]; cbn; [reflexivity | now rewrite IH]. Qed.

Lemma zfill_length k n : String.length (zfill k n) = k.
Proof.
  revert n. induction k as [|k IH]; intros n; cbn [zfill String.length]; [reflexivity|].
  now rewrite IH.
Qed.

Lemma digit_compare a b :
  0 <= a <= 9 -> 0 <= b <= 9 -> Ascii.compare (digit a) (digit b) = (a ?= b).
Proof.
  intros Ha Hb. unfold Ascii.compare, digit.
  rewrite !N_ascii_embedding by lia.
  rewrite <- N2Z.inj_compare, !N2Z.inj_add, !Z2N.id by lia.
  apply Z.add_compare_mono_l.
Qed.

Lemma zfill_compare k :
  forall a b, 0 <= a < 10 ^ Z.of_nat k -> 0 <= b < 10 ^ Z.of_nat k ->
  String.compare (zfill k a) (zfill k b) = (a ?= b).
Proof.
  induction k as [|k IH]; intros a b Ha Hb.
  - cbn in *. assert (a = 0) by lia. assert (b = 0) by lia. subst. reflexivity.
  - cbn [zfill String.compare].
    rewrite Nat2Z.inj_succ, Z.pow_succ_r in Ha, Hb by lia.
    set (P := 10 ^ Z.of_nat k) in *.
    assert (HP : 0 < P) by (apply Z.pow_pos_nonneg; lia).
    pose proof (Z.div_mod a P ltac:(lia)) as Ea.
    pose proof (Z.div_mod b P ltac:(lia)) as Eb.
    pose proof (Z.mod_pos_bound a P HP) as Ra.
    pose proof (Z.mod_pos_bound b P HP) as Rb.
    assert (Qa : 0 <= a / P <= 9).
    { split; [apply Z.div_pos; lia|]. apply Z.lt_succ_r. apply Z.div_lt_upper_bound; lia. }
    assert (Qb : 0 <= b / P <= 9).
    { split; [apply Z.div_pos; lia|]. apply Z.lt_succ_r. apply Z.div_lt_upper_bound; lia. }
    rewrite digit_compare by assumption.
    rewrite IH by assumption.
    destruct (Z.compare_spec (a / P) (b / P)) as [E|L|G].
    + destruct (Z.compare_spec (a mod P) (b mod P));
        [symmetry; apply Z.compare_eq_iff | symmetry; apply Z.compare_lt_iff
        | symmetry; apply Z.compare_gt_iff]; nia.
    + symmetry; apply Z.compare_lt_iff. nia.
    + symmetry; apply Z.compare_gt_iff. nia.
Qed.

(** [String.leb] is the lexicographic order. *)
Lemma nat_of_ascii_compare c1 c2 :
  Ascii.compare c1 c2 = Nat.compare (nat_of_ascii c1) (nat_of_ascii c2).
Proof.
  unfold Ascii.compare, nat_of_ascii. now rewrite N2Nat.inj_compare.
Qed.

Lemma le_lex a b : le a b = true <-> lex_le a b.
Proof.
  unfold le, String.leb. split.
  - revert b. induction a as [|c a IH]; intros b H; [constructor|].
    destruct b as [|c' b]; cbn in H; [discriminate|].
    rewrite nat_of_ascii_compare in H.
    destruct (Nat.compare_spec (nat_of_ascii c) (nat_of_ascii c')) as [E|L|G].
    + assert (c = c').
      { rewrite <- (ascii_nat_embedding c), <- (ascii_nat_embedding c'). now rewrite E. }
      subst. apply lex_eq. apply IH. exact H.
    + now apply lex_lt.
    + discriminate.
  - intros H. induction H; cbn.
    + destruct s; reflexivity.
    + rewrite nat_of_ascii_compare.
      apply Nat.compare_lt_iff in H. now rewrite H.
    + rewrite nat_of_ascii_compare, Nat.compare_refl. exact IHlex_le.
Qed.

End PyStrFacts.

(* ===================================================================== *)
(** ** Adding days to a date, and the order of formatted dates *)
(* ===================================================================== *)

Module DeleteOnFacts.
Import PyStr PyDate Spec PyDateFacts PyStrFacts.

Lemma iter_next_day d p :
  valid_date d -> ymd2ord d + Z.pos p <= MAXORDINAL ->
  valid_date (Pos.iter next_day d p) /\
  ymd2ord (Pos.iter next_day d p) = ymd2ord d + Z.pos p.
Proof.
  intros V. induction p as [|p IH] using Pos.peano_ind; intros H.
  - cbn [Pos.iter]. apply next_day_spec; [assumption | lia].
  - rewrite Pos.iter_succ. rewrite Pos2Z.inj_succ in *.
    destruct (IH ltac:(lia)) as [V' E'].
    destruct (next_day_spec _ V' ltac:(lia)) as [V'' E''].
    split; [assumption | lia].
Qed.

Lemma iter_prev_day d p :
  valid_date d -> 1 <= ymd2ord d - Z.pos p ->
  valid_date (Pos.iter prev_day d p) /\
  ymd2ord (Pos.iter prev_day d p) = ymd2ord d - Z.pos p.
Proof.
  intros V. induction p as [|p IH] using Pos.peano_ind; intros H.
  - cbn [Pos.iter]. apply prev_day_spec; [assumption | lia].
  - rewrite Pos.iter_succ. rewrite Pos2Z.inj_succ in *.
    destruct (IH ltac:(lia)) as [V' E'].
    destruct (prev_day_spec _ V' ltac:(lia)) as [V'' E''].
    split; [assumption | lia].
Qed.

(** Stepping day by day through the calendar moves the ordinal by as much. *)
Lemma shift_days_spec d n :
  valid_date d -> 1 <= ymd2ord d + n <= MAXORDINAL ->
  valid_date (shift_days d n) /\ ymd2ord (shift_days d n) = ymd2ord d + n.
Proof.
  intros V H. destruct n as [|p|p]; cbn [shift_days].
  - split; [assumption | lia].
  - apply iter_next_day; [assumption | lia].
  - destruct (iter_prev_day d p V ltac:(lia)) as [V' E'].
    split; [assumption | lia].
Qed.

(** [date + timedelta(days=n)] is the date reached by stepping [n] days. *)
Lemma add_days_shift d n :
  valid_date d -> 1 <= ymd2ord d + n <= MAXORDINAL ->
  add_days d n = Ok (shift_days d n).
Proof.
  intros V H. pose proof (ymd2ord_range d V) as R. unfold MAXORDINAL in *.
  unfold add_days.
  destruct (Z.ltb_spec 999999999 (Z.abs n)); [lia|].
  destruct (Z.ltb_spec 0 (ymd2ord d + n)); [|lia].
  destruct (Z.leb_spec (ymd2ord d + n) MAXORDINAL); [|unfold MAXORDINAL in *; lia].
  cbn [andb]. f_equal.
  destruct (shift_days_spec d n V ltac:(unfold MAXORDINAL; lia)) as [V' E'].
  rewrite <- E'. apply ord2ymd_ymd2ord. exact V'.
Qed.

Lemma add_days_overflow d n :
  valid_date d -> ~ (1 <= ymd2ord d + n <= MAXORDINAL) ->
  add_days d n = Raise OverflowError.
Proof.
  intros V H. unfold add_days.
  destruct (Z.ltb_spec 999999999 (Z.abs n)); [reflexivity|].
  destruct (Z.ltb_spec 0 (ymd2ord d + n)); [|reflexivity].
  destruct (Z.leb_spec (ymd2ord d + n) MAXORDINAL); [lia | reflexivity].
Qed.

Lemma year_digits_four y : year_digits y = 4%nat <-> 1000 <= y.
Proof.
  unfold year_digits.
  destruct (Z.ltb_spec y 10); [split; [discriminate | lia]|].
  destruct (Z.ltb_spec y 100); [split; [discriminate | lia]|].
  destruct (Z.ltb_spec y 1000); [split; [discriminate | lia]|].
  split; [lia | reflexivity].
Qed.

Lemma year_digits_bound y :
  0 <= y <= 9999 -> 0 <= y < 10 ^ Z.of_nat (year_digits y).
Proof.
  intros H. unfold year_digits.
  destruct (Z.ltb_spec y 10); [cbn; lia|].
  destruct (Z.ltb_spec y 100); [cbn; lia|].
  destruct (Z.ltb_spec y 1000); cbn; lia.
Qed.


Lemma strftime_length dt :
  String.length (strftime dt) = (year_digits (year (dt_date dt)) + 10)%nat.
Proof.
  unfold strftime.
  rewrite !length_app, !zfill_length. reflexivity.
Qed.

Lemma valid_1000 : valid_date (mkDate 1000 1 1).
Proof. cbv. intuition discriminate. Qed.

(** The dates from 1000-01-01 on are those whose year has four digits. *)
Lemma year_ge_1000 d :
  valid_date d -> (1000 <= year d <-> ymd2ord (mkDate 1000 1 1) <= ymd2ord d).
Proof.
  intros V. split; intros H.
  - destruct (date_trichotomy (mkDate 1000 1 1) d) as [L|[E|L]].
    + pose proof (ymd2ord_lt _ _ valid_1000 V L). lia.
    + subst d. lia.
    + exfalso. destruct V as (_ & Vm & Vd). unfold date_lt in L.
      cbn [year month day] in L. lia.
  - destruct (Z_lt_le_dec (year d) 1000) as [C|C]; [|exact C]. exfalso.
    assert (L : date_lt d (mkDate 1000 1 1)) by (left; exact C).
    pose proof (ymd2ord_lt _ _ V valid_1000 L). lia.
Qed.

Lemma date_le_cases a b :
  valid_date a -> valid_date b -> ymd2ord a <= ymd2ord b -> date_lt a b \/ a = b.
Proof.
  intros Va Vb H. destruct (date_trichotomy a b) as [L|[E|L]]; auto.
  pose proof (ymd2ord_lt b a Vb Va L). lia.
Qed.

(** A date formatted with a zero time of day is, as a string, at most any
    [datetime] of the same or a later day, when both years have four
    digits. *)
Lemma strftime_date_le d dt :
  valid_date d -> valid_date (dt_date dt) ->
  1000 <= year d ->
  0 <= hour dt < 100 -> 0 <= minute dt < 100 -> 0 <= second dt < 100 ->
  ymd2ord d <= ymd2ord (dt_date dt) ->
  PyStr.le (strftime_date d) (strftime dt) = true.
Proof.
  intros Vd Vdt Hy Hh Hm Hs Hle.
  assert (Hy2 : 1000 <= year (dt_date dt)).
  { apply (year_ge_1000 _ Vdt). apply (year_ge_1000 _ Vd) in Hy. lia. }
  pose proof (proj2 (year_digits_four _) Hy) as W1.
  pose proof (proj2 (year_digits_four _) Hy2) as W2.
  pose proof (date_le_cases _ _ Vd Vdt Hle) as C.
  destruct d as [y m dd], dt as [[y2 m2 d2] hh mi ss].
  unfold valid_date, date_lt in *. cbn [year month day dt_date hour minute second] in *.
  assert (dim_le : forall yy mm, days_in_month yy mm <= 31).
  { intros yy mm. unfold days_in_month, DAYS_IN_MONTH.
    destruct ((mm =? 2) && is_leap yy); [lia|].
    destruct mm as [|p|p]; try lia.
    do 4 (destruct p as [p|p|]; try lia). }
  pose proof (dim_le y m). pose proof (dim_le y2 m2).
  unfold PyStr.le, String.leb, strftime_date, strftime.
  cbn [year month day dt_date hour minute second] in *. rewrite W1, W2.
  rewrite !compare_app by (rewrite !zfill_length; reflexivity).
  change 4%nat with (Z.to_nat 4). change 2%nat with (Z.to_nat 2).
  rewrite !zfill_compare
    by (rewrite Z2Nat.id by lia;
        first [change (10 ^ 4) with 10000 | change (10 ^ 2) with 100]; lia).
  destruct (Z.compare_spec y y2); [|reflexivity|].
  2:{ exfalso. destruct C as [C|C]; [lia | inversion C; lia]. }
  destruct (Z.compare_spec m m2); [|reflexivity|].
  2:{ exfalso. destruct C as [C|C]; [lia | inversion C; lia]. }
  destruct (Z.compare_spec dd d2); [|reflexivity|].
  2:{ exfalso. destruct C as [C|C]; [lia | inversion C; lia]. }
  destruct (Z.compare_spec 0 hh); [|reflexivity|lia].
  destruct (Z.compare_spec 0 mi); [|reflexivity|lia].
  destruct (Z.compare_spec 0 ss); [reflexivity|reflexivity|lia].
Qed.

(** What the clock shows is a valid [datetime]. *)
Lemma datetime_of_seconds_valid t :
  0 <= t < MAXORDINAL * 86400 ->
  let dt := datetime_of_seconds t in
  valid_date (dt_date dt) /\ ymd2ord (dt_date dt) = t / 86400 + 1 /\
  0 <= hour dt < 24 /\ 0 <= minute dt < 60 /\ 0 <= second dt < 60.
Proof.
  intros H. cbv zeta. unfold datetime_of_seconds. cbn [dt_date hour minute second].
  assert (R : 1 <= t / 86400 + 1 <= MAXORDINAL).
  { unfold MAXORDINAL in *. Z.div_mod_to_equations. lia. }
  destruct (ord2ymd_spec _ R) as [V E].
  split; [exact V|]. split; [exact E|].
  Z.div_mod_to_equations. lia.
Qed.

End DeleteOnFacts.

(* ===================================================================== *)
(** ** Facts about comprehensions, tags and the selection loop *)
(* ===================================================================== *)

Module LoopFacts.
Import Ec2 Lambda Spec Spec2.

Lemma comprehension_Forall2 {A B} (f : A -> outcome B) cond l ys :
  Forall2 (fun x y => f x = Ok y) (filter cond l) ys ->
  comprehension f cond l = Ok ys.
Proof.
  revert ys. induction l as [|x l IH]; intros ys H; cbn in *.
  - inversion H. reflexivity.
  - destruct (cond x).
    + inversion H as [|? y ? ys' Hx Hl]; subst.
      rewrite Hx. cbn. rewrite (IH ys' Hl). reflexivity.
    + apply IH, H.
Qed.

Lemma comprehension_total {A B} (g : A -> B) cond l :
  comprehension (fun x => Ok (g x)) cond l = Ok (map g (filter cond l)).
Proof.
  apply comprehension_Forall2. induction (filter cond l); constructor; auto.
Qed.

Lemma comprehension_first_raise {A B} (f : A -> outcome B) cond l x rest e :
  filter cond l = x :: rest -> f x = Raise e ->
  comprehension f cond l = Raise e.
Proof.
  induction l as [|a l IH]; intros H Hx; cbn in *; [discriminate|].
  destruct (cond a).
  - inversion H; subst. rewrite Hx. reflexivity.
  - apply IH; assumption.
Qed.

Lemma tag_values_cons k ts o rest :
  tag_values k ts = o :: rest ->
  exists t ts', filter (fun t => String.eqb (Key t) k) ts = t :: ts' /\
                Value t = o /\ map Value ts' = rest.
Proof.
  unfold tag_values. destruct (filter _ ts) as [|t ts']; cbn; intros H; [discriminate|].
  inversion H. eauto.
Qed.

Lemma parse_all (ts : list tag) :
  Forall parseable (map Value ts) ->
  exists ns, Forall2 (fun t n => (v <~ tag_value t ;; PyStr.int v) = Ok n) ts ns.
Proof.
  induction ts as [|t ts IH]; cbn; intros H.
  - exists []. constructor.
  - inversion H as [|? ? (v & n & Hv & Hn) Hrest]; subst.
    destruct (IH Hrest) as [ns Hns]. exists (n :: ns). constructor; [|exact Hns].
    unfold tag_value, PyStr.int. rewrite Hv. cbn. rewrite Hn. reflexivity.
Qed.

(** The [try] statement on an image whose first [DeleteOn] tag holds [d]. *)
Lemma extract_delete_on img d dd :
  delete_on img d -> extract_deletion_date img dd = Ok (Some (VStr d)).
Proof.
  intros (ts & rest & Ht & Hv). unfold extract_deletion_date. rewrite Ht.
  rewrite comprehension_total.
  destruct (tag_values_cons _ _ _ _ Hv) as (t & ts' & Hf & Hval & _).
  rewrite Hf. cbn. unfold tag_get_value. rewrite Hval. reflexivity.
Qed.

Lemma delete_on_first img d : delete_on img d -> first_delete_on img = Some d.
Proof.
  intros (ts & rest & Ht & Hv). unfold first_delete_on. now rewrite Ht, Hv.
Qed.

(** One iteration of the selection loop on such an image. *)
Lemma select_loop_step img d rest dd acc w :
  delete_on img d ->
  select_loop (img :: rest) dd acc w =
  select_loop rest (Some (VStr d))
    (if PyStr.le d (now_string (clock w) (reads w)) then acc ++ [image_id img] else acc)
    (tick w).
Proof.
  intros H. cbn [select_loop]. unfold bind, lift, now.
  rewrite (extract_delete_on img d dd H). cbn [le_str].
  unfold now_string. destruct (PyStr.le d _); reflexivity.
Qed.

(** One iteration on an image without a tag list, [deletion_date] bound. *)
Lemma select_loop_stale img rest d acc w :
  image_tags img = None ->
  select_loop (img :: rest) (Some (VStr d)) acc w =
  select_loop rest (Some (VStr d))
    (if PyStr.le d (now_string (clock w) (reads w)) then acc ++ [image_id img] else acc)
    (tick w).
Proof.
  intros H. cbn [select_loop]. unfold bind, lift, now, extract_deletion_date.
  rewrite H. cbn. unfold now_string. destruct (PyStr.le d _); reflexivity.
Qed.

Lemma ticks_S n w : ticks n (tick w) = ticks (S n) w.
Proof.
  unfold ticks. induction n as [|n IH]; [reflexivity|].
  change (tick (Nat.iter n tick (tick w)) = tick (Nat.iter (S n) tick w)).
  now rewrite IH.
Qed.

Lemma reads_ticks n w : reads (ticks n w) = (reads w + n)%nat.
Proof.
  unfold ticks. induction n as [|n IH]; [cbn; lia|].
  change (S (reads (Nat.iter n tick w)) = (reads w + S n)%nat).
  rewrite IH. lia.
Qed.

Lemma select_loop_well_formed l :
  Forall (fun i => exists d, delete_on i d) l ->
  forall dd acc w,
    select_loop l dd acc w = (Ok (acc ++ selected l (clock w) (reads w)), ticks (List.length l) w).
Proof.
  induction 1 as [|img l (d & Hd) Hl IH]; intros dd acc w.
  - cbn. rewrite app_nil_r. reflexivity.
  - rewrite (select_loop_step img d l dd acc w Hd). rewrite IH.
    cbn [selected List.length]. rewrite ticks_S.
    unfold expired. rewrite (delete_on_first img d Hd).
    cbn [reads clock tick].
    destruct (PyStr.le d _); [rewrite <- app_assoc|]; reflexivity.
Qed.

Lemma selected_In l c : forall k a,
  In a (selected l c k) <->
  exists j i, nth_error l j = Some i /\ image_id i = a /\
              expired i (now_string c (k + j)) = true.
Proof.
  induction l as [|i l IH]; intros k a; cbn [selected].
  - split; [intros [] | intros (j & i & H & _)]. destruct j; discriminate.
  - rewrite in_app_iff, IH. split.
    + intros [H | (j & i' & Hn & Hid & He)].
      * destruct (expired i (now_string c k)) eqn:E; [|destruct H].
        destruct H as [<-|[]]. exists 0%nat, i. rewrite Nat.add_0_r. auto.
      * exists (S j), i'. rewrite Nat.add_succ_r. auto.
    + intros ([|j] & i' & Hn & Hid & He); cbn in Hn.
      * inversion Hn; subst i'. left. rewrite Nat.add_0_r in He. rewrite He. now left.
      * right. exists j, i'. rewrite Nat.add_succ_r in He. auto.
Qed.

(** An enumerated image either has a string as its first [DeleteOn]
    value, or yields [None] for it. *)
Lemma extract_enumerated img dd :
  has_delete_on img = true ->
  (exists d, delete_on img d) \/ extract_deletion_date img dd = Ok (Some VNone).
Proof.
  unfold has_delete_on, extract_deletion_date, delete_on.
  destruct (image_tags img) as [ts|]; [|discriminate].
  intros H. unfold has_tag_key in H. apply existsb_exists in H.
  destruct H as (t0 & Hin & Hk).
  assert (Hf : In t0 (filter (fun t => String.eqb (Key t) "DeleteOn") ts))
    by (apply filter_In; auto).
  destruct (filter (fun t => String.eqb (Key t) "DeleteOn") ts) as [|t ts'] eqn:E;
    [destruct Hf|].
  destruct (Value t) as [d|] eqn:Ev.
  - left. exists d, ts, (map Value ts'). split; [reflexivity|].
    unfold tag_values. rewrite E. cbn. now rewrite Ev.
  - right. rewrite comprehension_total, E. cbn. unfold tag_get_value. now rewrite Ev.
Qed.

(** The selection over enumerated images returns exactly the expired ones,
    and raises nothing but [TypeError]. *)
Lemma select_loop_enumerated l :
  Forall (fun i => has_delete_on i = true) l ->
  forall dd acc w r w',
    select_loop l dd acc w = (r, w') ->
    match r with
    | Ok res => res = acc ++ selected l (clock w) (reads w)
    | Raise e => e = TypeError
    end.
Proof.
  induction 1 as [|img l Hi Hl IH]; intros dd acc w r w' H.
  - cbn in H. inversion H; subst. cbn. now rewrite app_nil_r.
  - destruct (extract_enumerated img dd Hi) as [(d & Hd)|Hx].
    + rewrite (select_loop_step img d l dd acc w Hd) in H.
      specialize (IH _ _ _ _ _ H). destruct r as [res|e]; [|exact IH].
      rewrite IH. cbn [selected clock reads tick]. unfold expired.
      rewrite (delete_on_first img d Hd).
      destruct (PyStr.le d _); [rewrite <- app_assoc|]; reflexivity.
    + cbn [select_loop] in H. unfold bind, lift, now in H. rewrite Hx in H.
      cbn in H. inversion H; subst. reflexivity.
Qed.


Lemma enumerated_has_delete_on w :
  Forall (fun i => has_delete_on i = true) (enumerated w).
Proof.
  apply Forall_forall. intros i Hi. unfold enumerated in Hi.
  now apply filter_In in Hi.
Qed.

End LoopFacts.


(* ===================================================================== *)
(** ** Facts about [int(...)] on plain decimal strings *)
(* ===================================================================== *)

Module IntFacts.
Import PyStr PyStrFacts.

Lemma digit_facts d :
  0 <= d <= 9 ->
  is_digit (digit d) = true /\ digit_value (digit d) = d /\
  (N_of_ascii (digit d) < 127)%N.
Proof.
  intros H. unfold is_digit, digit_value, digit.
  rewrite N_ascii_embedding by lia.
  repeat split; [|lia|lia].
  apply andb_true_iff. split; apply N.leb_le; lia.
Qed.

Lemma digit_not_space c : is_digit c = true -> is_space c = false.
Proof.
  unfold is_digit, is_space. intros H. apply andb_true_iff in H.
  destruct H as [H1 H2]. apply N.leb_le in H1.
  apply orb_false_iff. split.
  - apply andb_false_iff. right. apply N.leb_gt. lia.
  - apply N.eqb_neq. lia.
Qed.

Lemma digit_below_127 c : is_digit c = true -> (N_of_ascii c < 127)%N.
Proof.
  unfold is_digit. intros H. apply andb_true_iff in H.
  destruct H as [_ H2]. apply N.leb_le in H2. lia.
Qed.

Lemma quotient_digit n k :
  0 <= n < 10 ^ Z.of_nat (S k) ->
  0 <= n / 10 ^ Z.of_nat k <= 9 /\ 0 <= n mod 10 ^ Z.of_nat k < 10 ^ Z.of_nat k.
Proof.
  intros H. rewrite Nat2Z.inj_succ, Z.pow_succ_r in H by lia.
  set (P := 10 ^ Z.of_nat k) in *.
  assert (HP : 0 < P) by (apply Z.pow_pos_nonneg; lia).
  split; [|apply Z.mod_pos_bound; exact HP].
  split; [apply Z.div_pos; lia|].
  apply Z.lt_succ_r. apply Z.div_lt_upper_bound; lia.
Qed.

(** The characters of a fixed-width number are digits. *)
Lemma zfill_digits k :
  forall n, 0 <= n < 10 ^ Z.of_nat k ->
  Forall (fun c => is_digit c = true) (list_ascii_of_string (zfill k n)).
Proof.
  induction k as [|k IH]; intros n H; cbn [zfill list_ascii_of_string].
  - constructor.
  - destruct (quotient_digit n k H) as [Q R].
    constructor; [apply digit_facts, Q | apply IH, R].
Qed.

(** Reading a fixed-width number digit by digit gives the number. *)
Lemma digits_value_zfill k :
  forall n acc prev rest,
    0 <= n < 10 ^ Z.of_nat k ->
    digits_value acc prev (list_ascii_of_string (zfill k n) ++ rest)
    = digits_value (acc * 10 ^ Z.of_nat k + n) (prev || negb (Nat.eqb k 0)) rest.
Proof.
  induction k as [|k IH]; intros n acc prev rest H.
  - cbn in H. assert (n = 0) by lia. subst n. cbn [zfill list_ascii_of_string app].
    cbn. rewrite orb_false_r. f_equal. lia.
  - destruct (quotient_digit n k H) as [Q R].
    destruct (digit_facts _ Q) as (D1 & D2 & _).
    cbn [zfill list_ascii_of_string app digits_value]. rewrite D1, D2.
    rewrite (IH _ _ _ _ R). cbn [Nat.eqb negb]. rewrite !orb_true_r.
    f_equal. rewrite Nat2Z.inj_succ, Z.pow_succ_r by lia.
    pose proof (Z.div_mod n (10 ^ Z.of_nat k)
                  ltac:(apply Z.pow_nonzero; lia)) as E.
    set (P := 10 ^ Z.of_nat k) in *. nia.
Qed.

Lemma length_list_ascii s :
  List.length (list_ascii_of_string s) = String.length s.
Proof. induction s as [|c s IH]; cbn; [reflexivity | now rewrite IH]. Qed.

Lemma filter_all {A} (p : A -> bool) l :
  Forall (fun x => p x = true) l -> filter p l = l.
Proof.
  induction 1 as [|x l Hx Hl IH]; cbn; [reflexivity|]. now rewrite Hx, IH.
Qed.

(** A string of characters below U+007F is read as it is. *)
Lemma decode_ascii l :
  Forall (fun c => (N_of_ascii c < 127)%N) l -> decode l = Some (map N_of_ascii l).
Proof.
  induction 1 as [|c l Hc Hl IH]; cbn [decode map]; [reflexivity|].
  destruct (N.ltb_spec (N_of_ascii c) 128); [|lia].
  rewrite IH. reflexivity.
Qed.

Lemma transform_ascii l :
  Forall (fun c => (N_of_ascii c < 127)%N) l -> transform (map N_of_ascii l) = Some l.
Proof.
  induction 1 as [|c l Hc Hl IH]; cbn [transform map]; [reflexivity|].
  unfold to_ascii. destruct (N.ltb_spec (N_of_ascii c) 127); [|lia].
  rewrite IH, ascii_N_embedding. reflexivity.
Qed.

Lemma parse_int_ascii s :
  Forall (fun c => (N_of_ascii c < 127)%N) (list_ascii_of_string s) ->
  parse_int s = parse_ascii (list_ascii_of_string s).
Proof.
  intros H. unfold parse_int. now rewrite (decode_ascii _ H), (transform_ascii _ H).
Qed.

Lemma lstrip_no_space l :
  Forall (fun c => is_space c = false) l -> lstrip l = l.
Proof. destruct 1 as [|c l Hc Hl]; cbn; [reflexivity | now rewrite Hc]. Qed.

Lemma strip_no_space l :
  Forall (fun c => is_space c = false) l -> strip l = l.
Proof.
  intros H. unfold strip. rewrite (lstrip_no_space l H).
  rewrite lstrip_no_space; [apply rev_involutive|].
  apply Forall_rev, H.
Qed.

Lemma parse_ascii_digit_head c l :
  is_digit c = true -> strip (c :: l) = c :: l ->
  parse_ascii (c :: l) = limited_digits_value (c :: l).
Proof.
  intros H Hs. unfold parse_ascii. rewrite Hs.
  destruct c as [[] [] [] [] [] [] [] []]; try reflexivity;
    vm_compute in H; discriminate.
Qed.

Lemma limited_digits_value_zfill k n :
  (1 <= k)%nat -> Z.of_nat k <= max_str_digits ->
  0 <= n < 10 ^ Z.of_nat k ->
  limited_digits_value (list_ascii_of_string (zfill k n)) = Some n.
Proof.
  intros Hk Hmax Hn. unfold limited_digits_value.
  rewrite (filter_all _ _ (zfill_digits k n Hn)), length_list_ascii, zfill_length.
  destruct (Z.ltb_spec max_str_digits (Z.of_nat k)); [lia|].
  rewrite <- (app_nil_r (list_ascii_of_string _)), digits_value_zfill by exact Hn.
  destruct k; [lia|]. cbn. reflexivity.
Qed.

(** [int] reads a decimal number of up to 4300 digits, with or without a
    minus sign, as that number. *)
Lemma parse_int_zfill k n :
  (1 <= k)%nat -> Z.of_nat k <= 4300 ->
  0 <= n < 10 ^ Z.of_nat k ->
  parse_int (zfill k n) = Some n /\
  parse_int (String "-" (zfill k n)) = Some (- n).
Proof.
  intros Hk Hmax Hn.
  pose proof (zfill_digits k n Hn) as Hd.
  assert (H127 : Forall (fun c => (N_of_ascii c < 127)%N)
                        (list_ascii_of_string (zfill k n))).
  { eapply Forall_impl; [|exact Hd]. apply digit_below_127. }
  assert (Hsp : Forall (fun c => is_space c = false)
                       (list_ascii_of_string (zfill k n))).
  { eapply Forall_impl; [|exact Hd]. apply digit_not_space. }
  pose proof (limited_digits_value_zfill k n Hk Hmax Hn) as Hv.
  split.
  - rewrite (parse_int_ascii _ H127).
    destruct (list_ascii_of_string (zfill k n)) as [|c l] eqn:E.
    + apply (f_equal (@List.length _)) in E.
      rewrite length_list_ascii, zfill_length in E. cbn in E. lia.
    + inversion Hd; subst.
      rewrite parse_ascii_digit_head; [exact Hv | assumption |].
      now apply strip_no_space.
  - rewrite parse_int_ascii
      by (cbn [list_ascii_of_string]; constructor; [vm_compute; reflexivity | exact H127]).
    unfold parse_ascii. cbn [list_ascii_of_string].
    rewrite strip_no_space by (constructor; [reflexivity | exact Hsp]).
    rewrite Hv. reflexivity.
Qed.

End IntFacts.
Import Ec2 Lambda Spec Examples LoopFacts Spec2 Examples2.

(* ===================================================================== *)
(** ** The library model on sample values *)
(* ===================================================================== *)

Example zfill_samples :
  PyStr.zfill 4 2024 = "2024" /\ PyStr.zfill 2 7 = "07" /\ PyStr.zfill 4 33 = "0033".
Proof. repeat split; reflexivity. Qed.

Example int_samples :
  PyStr.parse_int " 30 " = Some 30 /\ PyStr.parse_int "-3" = Some (-3) /\
  PyStr.parse_int "1_000" = Some 1000 /\ PyStr.parse_int "1__0" = None /\
  PyStr.parse_int "abc" = None /\ PyStr.parse_int "" = None /\
  PyStr.parse_int "7_" = None /\ PyStr.parse_int "+ 7" = None /\
  PyStr.parse_int "007" = Some 7 /\ PyStr.parse_int "3.5" = None /\
  PyStr.parse_int thirty_arabic_indic = Some 30 /\
  PyStr.parse_int five_after_file_separator = None.
Proof. repeat split; reflexivity. Qed.

Example find_samples :
  PyStr.find "Created for ami-1" "ami-1" = 12 /\ PyStr.find "ami-1" "ami-1" = 0 /\
  PyStr.find "abc" "x" = -1 /\ PyStr.find "" "" = 0 /\ PyStr.find "abab" "b" = 1.
Proof. repeat split; reflexivity. Qed.

Example date_samples :
  PyDate.ymd2ord (PyDate.mkDate 1 1 1) = 1 /\
  PyDate.ymd2ord (PyDate.mkDate 9999 12 31) = PyDate.MAXORDINAL /\
  PyDate.ord2ymd 738887 = PyDate.mkDate 2024 1 2 /\
  PyDate.ord2ymd 730179 = PyDate.mkDate 2000 2 29 /\
  PyDate.add_days (PyDate.mkDate 2024 12 31) 1 = Ok (PyDate.mkDate 2025 1 1) /\
  PyDate.strftime (PyDate.datetime_of_seconds 63839836799) = "20240102235959" /\
  PyDate.strftime_date (PyDate.mkDate 299 2 14) = "2990214000000" /\
  PyDate.strftime (PyDate.datetime_of_seconds 31525372799) = "9991231235959".
Proof. repeat split; reflexivity. Qed.

(** A whole run: two eligible instances, one with a retention of 0 days;
    an old image with two snapshots, one naming it at the start of its
    description; the provider creates a snapshot with each new image. *)
Example sample_run :
  let w :=
    mkWorld
      [mkReservation
         [mkInstance "i-1" [mkTag "Backup" (Some "Yes"); mkTag "Name" (Some "web1");
                            mkTag "Retention" (Some "0")];
          mkInstance "i-2" [mkTag "Backup" (Some "No")]];
       mkReservation [mkInstance "i-3" [mkTag "Backup" (Some "Yes")]]]
      [image_expired; image_future] [snapshot_tail; snapshot_head] "123456789012"
      (fun k => 63839750400 + Z.of_nat k) 0 ami_ids 0 (fun _ => false) []
      snapshots_of_image in
  fst (lambda_handler w) = Ok tt /\
  history (snd (lambda_handler w))
  = [ImageCreated "i-1" "ami-new0"; TagsCreated "ami-new0" "20240102000000";
     ImageCreated "i-3" "ami-new10"; TagsCreated "ami-new10" "20240109000000";
     ImageDeregistered "ami-1"; SnapshotDeleted "snap-1";
     ImageDeregistered "ami-new0"; SnapshotDeleted "snap-new"] /\
  map image_name (images (snd (lambda_handler w)))
  = ["n"; "Not Specified-i-3-20240102000002"] /\
  map SnapshotId (snapshots (snd (lambda_handler w))) = ["snap-2"; "snap-new1"].
Proof. repeat split; reflexivity. Qed.

(* ===================================================================== *)
(** ** Retention resolution *)
(* ===================================================================== *)

(** C8. Retention resolution returns 7 for every instance whose tags hold
    no [Retention] tag, and the integer value of the [Retention] tag when
    the tag is present and its value parses as an integer (the value of the
    first such tag, should the list hold several, all parseable).  The
    integer value of a decimal string of up to 4300 digits, with or without
    a minus sign, is the number it writes. *)
Theorem retention_days_resolution (i : instance) :
  (tag_values "Retention" (Tags i) = [] ->
   get_instance_retention_days i = Ok 7) /\
  (forall v n rest,
     tag_values "Retention" (Tags i) = Some v :: rest ->
     PyStr.parse_int v = Some n ->
     Forall parseable rest ->
     get_instance_retention_days i = Ok n) /\
  (forall k n,
     (1 <= k)%nat -> Z.of_nat k <= 4300 -> 0 <= n < 10 ^ Z.of_nat k ->
     (tag_values "Retention" (Tags i) = [Some (PyStr.zfill k n)] ->
      get_instance_retention_days i = Ok n) /\
     (tag_values "Retention" (Tags i) = [Some (String "-" (PyStr.zfill k n))] ->
      get_instance_retention_days i = Ok (- n))).
Proof.
  assert (Hparse : forall v n rest,
            tag_values "Retention" (Tags i) = Some v :: rest ->
            PyStr.parse_int v = Some n ->
            Forall parseable rest ->
            get_instance_retention_days i = Ok n).
  { intros v n rest H Hn Hrest. unfold get_instance_retention_days.
    destruct (tag_values_cons _ _ _ _ H) as (t & ts' & Hf & Hv & Hm).
    subst rest. destruct (parse_all ts' Hrest) as [ns Hns].
    erewrite comprehension_Forall2 with (ys := n :: ns).
    + reflexivity.
    + rewrite Hf. constructor; [|exact Hns].
      unfold tag_value, PyStr.int. rewrite Hv. cbn. now rewrite Hn. }
  split; [|split].
  - intros H. unfold get_instance_retention_days.
    unfold tag_values in H. apply map_eq_nil in H.
    erewrite comprehension_Forall2 with (ys := []).
    + reflexivity.
    + rewrite H. constructor.
  - exact Hparse.
  - intros k n Hk Hmax Hn.
    destruct (IntFacts.parse_int_zfill k n Hk Hmax Hn) as [P N].
    split; intros H.
    + apply (Hparse _ n [] H P). constructor.
    + apply (Hparse _ (- n) [] H N). constructor.
Qed.

Lemma retention_days_resolution_witness :
  get_instance_retention_days
    (mkInstance "i-1" [mkTag "Backup" (Some "Yes"); mkTag "Name" (Some "web1")]) = Ok 7 /\
  get_instance_retention_days
    (mkInstance "i-2" [mkTag "Backup" (Some "Yes"); mkTag "Retention" (Some "30")]) = Ok 30 /\
  get_instance_retention_days
    (mkInstance "i-3" [mkTag "Retention" (Some thirty_arabic_indic)]) = Ok 30 /\
  get_instance_retention_days
    (mkInstance "i-4" [mkTag "Retention" (Some "-007")]) = Ok (-7).
Proof.
  split; [|split; [|split]].
  - apply (proj1 (retention_days_resolution _)). reflexivity.
  - apply (proj1 (proj2 (proj2 (retention_days_resolution _)) 2%nat 30
                    ltac:(lia) ltac:(lia) ltac:(lia))).
    reflexivity.
  - apply (proj1 (proj2 (retention_days_resolution _)) thirty_arabic_indic 30 []).
    + reflexivity.
    + reflexivity.
    + constructor.
  - apply (proj2 (proj2 (proj2 (retention_days_resolution _)) 3%nat 7
                    ltac:(lia) ltac:(lia) ltac:(lia))).
    reflexivity.
Defined.

(* ===================================================================== *)
(** ** The Expiry Phase: selecting the images to deregister *)
(* ===================================================================== *)

(** When the first [DeleteOn] tag has no readable value, [t.get('Value')]
    is [None] and the comparison with the timestamp raises. *)
Lemma select_loop_unreadable img ts vals rest dd acc w :
  image_tags img = Some ts ->
  tag_values "DeleteOn" ts = None :: vals ->
  select_loop (img :: rest) dd acc w = (Raise TypeError, tick w).
Proof.
  intros Ht Hv. cbn [select_loop]. unfold bind, lift, now, extract_deletion_date.
  rewrite Ht. rewrite comprehension_total.
  destruct (tag_values_cons _ _ _ _ Hv) as (t & ts' & Hf & Hval & _).
  rewrite Hf. cbn. unfold tag_get_value. rewrite Hval. reflexivity.
Qed.

(** An image whose tag list holds no [DeleteOn] tag at all gets
    [deletion_date = False], and the comparison raises as well. *)
Lemma select_loop_missing img ts rest dd acc w :
  image_tags img = Some ts ->
  tag_values "DeleteOn" ts = [] ->
  select_loop (img :: rest) dd acc w = (Raise TypeError, tick w).
Proof.
  intros Ht Hv. cbn [select_loop]. unfold bind, lift, now, extract_deletion_date.
  rewrite Ht. rewrite comprehension_total.
  unfold tag_values in Hv. apply map_eq_nil in Hv. rewrite Hv. reflexivity.
Qed.

(** C5, on the code.  An image whose first [DeleteOn] tag is present but
    has no readable value is not skipped: whatever the clock shows and
    whatever the loop has seen so far, its iteration raises [TypeError], so
    the selection returns no list at all (the expired image listed before it
    is not deregistered either). *)
Theorem unreadable_delete_on_raises :
  (forall img ts vals rest dd acc w,
     image_tags img = Some ts ->
     tag_values "DeleteOn" ts = None :: vals ->
     select_loop (img :: rest) dd acc w = (Raise TypeError, tick w)) /\
  (forall w,
     get_list_of_images_to_deregister [image_unreadable] w
     = (Raise TypeError, tick w)) /\
  (forall w,
     get_list_of_images_to_deregister [image_expired; image_unreadable] w
     = (Raise TypeError, tick (tick w))).
Proof.
  split; [exact select_loop_unreadable|]. split; intros w.
  - apply (select_loop_unreadable _ [mkTag "DeleteOn" None] []); reflexivity.
  - unfold get_list_of_images_to_deregister.
    rewrite (select_loop_step image_expired "20240101000000")
      by (exists [mkTag "DeleteOn" (Some "20240101000000")], []; split; reflexivity).
    apply (select_loop_unreadable _ [mkTag "DeleteOn" None] []); reflexivity.
Qed.

Lemma unreadable_delete_on_raises_witness :
  select_loop [image_unreadable; image_expired] (Some (VStr "20240101000000")) ["ami-0"]
    (world_20240102 [])
  = (Raise TypeError, tick (world_20240102 [])).
Proof.
  apply (proj1 unreadable_delete_on_raises image_unreadable [mkTag "DeleteOn" None] []);
    reflexivity.
Defined.

(** C9. In the selection loop, a first image whose tag list is [None] makes
    the comparison read [deletion_date] before any assignment
    ([UnboundLocalError]); a later image whose tag list is [None] is judged
    on the string [d] that [deletion_date] still holds from an earlier
    iteration, in particular on the [DeleteOn] value of the image just
    before it. *)
Theorem deletion_date_unbound_or_stale :
  (forall img rest w,
     image_tags img = None ->
     get_list_of_images_to_deregister (img :: rest) w
     = (Raise UnboundLocalError, tick w)) /\
  (forall img rest d acc w,
     image_tags img = None ->
     select_loop (img :: rest) (Some (VStr d)) acc w =
     select_loop rest (Some (VStr d))
       (if PyStr.le d (now_string (clock w) (reads w))
        then acc ++ [image_id img] else acc)
       (tick w)) /\
  (forall prev img rest d dd acc w,
     delete_on prev d ->
     image_tags img = None ->
     select_loop (prev :: img :: rest) dd acc w =
     select_loop rest (Some (VStr d))
       (let acc1 := if PyStr.le d (now_string (clock w) (reads w))
                    then acc ++ [image_id prev] else acc in
        if PyStr.le d (now_string (clock w) (S (reads w)))
        then acc1 ++ [image_id img] else acc1)
       (tick (tick w))).
Proof.
  split; [|split].
  - intros img rest w H. unfold get_list_of_images_to_deregister.
    cbn [select_loop]. unfold bind, lift, now, extract_deletion_date.
    rewrite H. reflexivity.
  - intros img rest d acc w H. now apply select_loop_stale.
  - intros prev img rest d dd acc w Hp Hi.
    rewrite (select_loop_step prev d _ dd acc w Hp).
    rewrite (select_loop_stale img rest d _ (tick w) Hi).
    reflexivity.
Qed.

Lemma deletion_date_unbound_or_stale_witness :
  get_list_of_images_to_deregister [image_untagged; image_expired] (world_20240102 [])
  = (Raise UnboundLocalError, tick (world_20240102 [])) /\
  select_loop [image_untagged] (Some (VStr "20240101000000")) [] (world_20240102 [])
  = (Ok ["ami-3"], tick (world_20240102 [])) /\
  get_list_of_images_to_deregister [image_expired; image_untagged] (world_20240102 [])
  = (Ok ["ami-1"; "ami-3"], tick (tick (world_20240102 []))).
Proof.
  destruct deletion_date_unbound_or_stale as (H1 & H2 & H3).
  split; [|split].
  - apply H1. reflexivity.
  - rewrite H2; reflexivity.
  - unfold get_list_of_images_to_deregister.
    rewrite (H3 image_expired image_untagged [] "20240101000000").
    + reflexivity.
    + exists [mkTag "DeleteOn" (Some "20240101000000")], []. split; reflexivity.
    + reflexivity.
Defined.




(* ===================================================================== *)
(** ** The [DeleteOn] value written at creation *)
(* ===================================================================== *)





(* ===================================================================== *)
(** ** Exceptions in the loops *)
(* ===================================================================== *)

Lemma for_each_app {A} (l1 l2 : list A) (body : A -> M unit) w :
  for_each (l1 ++ l2) body w =
  match for_each l1 body w with
  | (Ok _, w1) => for_each l2 body w1
  | (Raise e, w1) => (Raise e, w1)
  end.
Proof.
  revert w. induction l1 as [|x l1 IH]; intros w; cbn [for_each app].
  - reflexivity.
  - unfold bind. destruct (body x w) as [[[]|e] w1]; [apply IH | reflexivity].
Qed.

(** An exception raised by the body for one item ends the loop there. *)
Lemma for_each_raise {A} (pre post : list A) (body : A -> M unit) x w w1 w2 e :
  for_each pre body w = (Ok tt, w1) ->
  body x w1 = (Raise e, w2) ->
  for_each (pre ++ x :: post) body w = (Raise e, w2).
Proof.
  intros Hpre Hx. rewrite for_each_app, Hpre. cbn [for_each]. unfold bind.
  now rewrite Hx.
Qed.

(** C3, as the code has it.  A [Retention] tag whose value does not parse
    makes retention resolution raise [ValueError]; nothing catches it: the
    Backup Phase stops at that instance, no request is sent for it or for the
    instances after it, and the handler ends with the exception, the Expiry
    Phase not being run. *)
Theorem unparseable_retention_aborts_run :
  (forall i v rest,
     tag_values "Retention" (Tags i) = Some v :: rest ->
     PyStr.parse_int v = None ->
     get_instance_retention_days i = Raise ValueError) /\
  (forall w pre i post name w1,
     get_instances_by_tag_keys w = (Ok (pre ++ i :: post), w) ->
     for_each pre backup_instance w = (Ok tt, w1) ->
     get_instance_name i = Ok name ->
     get_instance_retention_days i = Raise ValueError ->
     lambda_handler w = (Raise ValueError, w1)).
Proof.
  split.
  - intros i v rest H Hv. unfold get_instance_retention_days.
    destruct (tag_values_cons _ _ _ _ H) as (t & ts' & Hf & Hval & _).
    rewrite (comprehension_first_raise _ _ _ t ts' ValueError Hf); [reflexivity|].
    unfold tag_value, PyStr.int. rewrite Hval. cbn. now rewrite Hv.
  - intros w pre i post name w1 Hl Hpre Hname Hret.
    unfold lambda_handler, create_backup_amis, bind at 1 2. rewrite Hl.
    rewrite (for_each_raise pre post backup_instance i w w1 w1 ValueError Hpre);
      [reflexivity|].
    unfold backup_instance, bind, lift. now rewrite Hname, Hret.
Qed.

Lemma unparseable_retention_aborts_run_witness :
  get_instance_retention_days instance_web1 = Raise ValueError /\
  get_instance_retention_days
    (mkInstance "i-5" [mkTag "Retention" (Some five_after_file_separator)])
  = Raise ValueError /\
  lambda_handler world_bad_retention = (Raise ValueError, world_bad_retention).
Proof.
  split; [|split].
  - apply (proj1 unparseable_retention_aborts_run _ "two weeks" []); reflexivity.
  - apply (proj1 unparseable_retention_aborts_run _ five_after_file_separator []);
      reflexivity.
  - apply (proj2 unparseable_retention_aborts_run world_bad_retention
             [] instance_web1 [instance_db1] "web1"); reflexivity.
Defined.

(** C3 as stated fails: the instance with the bad tag is not skipped; the
    run ends with [ValueError] and the eligible instance after it gets no
    image. *)
Lemma unparseable_retention_counterexample :
  fst (lambda_handler world_bad_retention) = Raise ValueError /\
  get_instance_retention_days instance_db1 = Ok 5 /\
  history (snd (lambda_handler world_bad_retention)) = [] /\
  images (snd (lambda_handler world_bad_retention)) = [].
Proof. repeat split; reflexivity. Qed.

(** C4, as the code has it.  A request that fails for one item raises
    [ClientError] out of the loop: the items after it are not processed
    (what was done for the items before it stays done), and the exception
    leaves the handler. *)
Theorem failed_item_aborts_run :
  (forall pre i post w w1 name days,
     for_each pre backup_instance w = (Ok tt, w1) ->
     get_instance_name i = Ok name ->
     get_instance_retention_days i = Ok days ->
     faults w1 (CreateImage (InstanceId i)) = true ->
     for_each (pre ++ i :: post) backup_instance w = (Raise ClientError, tick w1)) /\
  (forall pre ami post w w1,
     for_each pre deregister_ami w = (Ok tt, w1) ->
     faults w1 (DeregisterImage ami) = true ->
     deregister_amis (pre ++ ami :: post) w = (Raise ClientError, w1)) /\
  (forall w e w1,
     create_backup_amis w = (Raise e, w1) ->
     lambda_handler w = (Raise e, w1)) /\
  (forall w w1 e w2,
     create_backup_amis w = (Ok tt, w1) ->
     deregister_backup_amis w1 = (Raise e, w2) ->
     lambda_handler w = (Raise e, w2)).
Proof.
  split; [|split; [|split]].
  - intros pre i post w w1 name days Hpre Hname Hdays Hf.
    apply for_each_raise with (w1 := w1); [exact Hpre|].
    unfold backup_instance, bind, lift. rewrite Hname, Hdays.
    unfold create_ami, create_image, bind, now, send.
    cbn [faults tick]. now rewrite Hf.
  - intros pre ami post w w1 Hpre Hf. unfold deregister_amis.
    apply for_each_raise with (w1 := w1); [exact Hpre|].
    unfold deregister_ami, deregister_image, bind, send. now rewrite Hf.
  - intros w e w1 H. unfold lambda_handler, bind. now rewrite H.
  - intros w w1 e w2 H1 H2. unfold lambda_handler, bind. now rewrite H1, H2.
Qed.

Lemma failed_item_aborts_run_witness :
  for_each [instance_app1; instance_db1] backup_instance world_create_fails
  = (Raise ClientError, tick world_create_fails) /\
  deregister_amis ["ami-1"; "ami-5"] world_deregister_fails
  = (Raise ClientError, world_deregister_fails) /\
  lambda_handler world_create_fails = (Raise ClientError, tick world_create_fails) /\
  lambda_handler world_deregister_fails
  = (Raise ClientError, tick (tick world_deregister_fails)).
Proof.
  destruct failed_item_aborts_run as (H1 & H2 & H3 & H4).
  split; [|split; [|split]].
  - apply (H1 [] instance_app1 [instance_db1] _ _ "app1" 7); reflexivity.
  - apply (H2 [] "ami-1" ["ami-5"]); reflexivity.
  - apply H3. reflexivity.
  - apply (H4 _ world_deregister_fails); reflexivity.
Defined.

(** C4 as stated fails, in both phases: the failure for the first item
    ends the run, and the item after it is left untouched. *)
Lemma failed_item_counterexample :
  (fst (lambda_handler world_create_fails) = Raise ClientError /\
   history (snd (lambda_handler world_create_fails)) = []) /\
  (fst (lambda_handler world_deregister_fails) = Raise ClientError /\
   images (snd (lambda_handler world_deregister_fails))
   = [image_expired; image_expired_too]).
Proof. repeat split; reflexivity. Qed.

(* ===================================================================== *)
(** ** Deleting the snapshots of a deregistered image *)
(* ===================================================================== *)

Lemma NoDup_map_filter {A B} (f : A -> B) p (l : list A) :
  NoDup (map f l) -> NoDup (map f (filter p l)).
Proof.
  induction l as [|x l IH]; cbn; intros H; [constructor|].
  inversion H as [|? ? Hx Hl]; subst. destruct (p x); cbn; [|auto].
  constructor; [|auto]. intros Hin. apply Hx.
  apply in_map_iff in Hin. destruct Hin as (y & Hy & Hin).
  apply filter_In in Hin. apply in_map_iff. exists y. tauto.
Qed.

Lemma In_firstn {A} n (l : list A) x : In x (firstn n l) -> In x l.
Proof.
  revert n. induction l as [|a l IH]; intros [|n]; cbn; try tauto.
  intros [H|H]; [now left | right; eapply IH, H].
Qed.

Lemma NoDup_map_firstn {A B} (f : A -> B) n (l : list A) :
  NoDup (map f l) -> NoDup (map f (firstn n l)).
Proof.
  revert n. induction l as [|x l IH]; intros [|n] H; cbn; try constructor.
  - inversion H as [|? ? Hx Hl]; subst. intros Hin. apply Hx.
    apply in_map_iff in Hin. destruct Hin as (y & Hy & Hin).
    apply in_map_iff. exists y. split; [assumption|].
    eapply In_firstn, Hin.
  - inversion H; subst. auto.
Qed.

Lemma existsb_eqb_In (sid : string) (l : list string) :
  existsb (String.eqb sid) l = true <-> In sid l.
Proof.
  rewrite existsb_exists. split.
  - intros (x & Hx & E). apply String.eqb_eq in E. now subst.
  - intros H. exists sid. split; [assumption | apply String.eqb_refl].
Qed.

Lemma snapshot_known sid (l : list snapshot) :
  existsb (fun s => String.eqb (SnapshotId s) sid) l = true <->
  In sid (map SnapshotId l).
Proof.
  rewrite existsb_exists, in_map_iff. split.
  - intros (s & Hs & E). apply String.eqb_eq in E. eauto.
  - intros (s & E & Hs). exists s. split; [assumption|].
    rewrite E. apply String.eqb_refl.
Qed.

(** [delete_snapshot] when the request is accepted and the id is known. *)
Lemma delete_snapshot_ok sid w :
  faults w (DeleteSnapshot sid) = false ->
  In sid (map SnapshotId (snapshots w)) ->
  delete_snapshot sid w = (Ok tt, after_delete w [sid]).
Proof.
  intros Hf Hin. unfold delete_snapshot, bind, send. rewrite Hf.
  apply snapshot_known in Hin. rewrite Hin.
  unfold after_delete. cbn [existsb map]. do 2 f_equal.
  apply filter_ext. intros s. now rewrite orb_false_r.
Qed.

Lemma after_delete_nil w : after_delete w [] = w.
Proof.
  destruct w. unfold after_delete. cbn. rewrite app_nil_r. f_equal.
  induction snapshots0 as [|s l IH]; cbn; [reflexivity | now rewrite IH].
Qed.

Lemma filter_filter {A} (p q : A -> bool) (l : list A) :
  filter p (filter q l) = filter (fun x => q x && p x) l.
Proof.
  induction l as [|a l IH]; cbn; [reflexivity|].
  destruct (q a); cbn; [destruct (p a)|]; congruence.
Qed.

Lemma after_delete_cons w sid sids :
  after_delete (after_delete w [sid]) sids = after_delete w (sid :: sids).
Proof.
  unfold after_delete. cbn [reservations images snapshots account clock reads
    image_ids created faults history map]. f_equal.
  - rewrite filter_filter. apply filter_ext. intros s. cbn [existsb].
    rewrite orb_false_r. now rewrite negb_orb.
  - now rewrite <- app_assoc.
Qed.

(** The loop of [delete_snapshots] over distinct, known snapshots. *)
Lemma delete_loop ami (l : list snapshot) :
  forall w,
    no_faults w ->
    NoDup (map SnapshotId l) ->
    incl (map SnapshotId l) (map SnapshotId (snapshots w)) ->
    for_each l (fun snapshot =>
                  if matches ami snapshot
                  then delete_snapshot (SnapshotId snapshot)
                  else ret tt) w
    = (Ok tt, after_delete w (map SnapshotId (filter (matches ami) l))).
Proof.
  induction l as [|s l IH]; intros w Hf Hnd Hincl; cbn [for_each filter map].
  - unfold ret. now rewrite after_delete_nil.
  - inversion Hnd as [|? ? Hs Hl]; subst.
    assert (Hincl' : incl (map SnapshotId l) (map SnapshotId (snapshots w))).
    { intros x Hx. apply Hincl. now right. }
    unfold bind. destruct (matches ami s); cbn [map].
    + rewrite delete_snapshot_ok by (auto; apply Hincl; now left).
      rewrite IH; [now rewrite after_delete_cons | exact Hf | exact Hl |].
      intros x Hx. cbn [after_delete snapshots].
      apply in_map_iff in Hx. destruct Hx as (s' & E & Hs').
      specialize (Hincl' x ltac:(apply in_map_iff; eauto)).
      apply in_map_iff in Hincl'. destruct Hincl' as (s'' & E'' & Hs'').
      apply in_map_iff. exists s''. split; [assumption|].
      apply filter_In. split; [assumption|].
      cbn. rewrite orb_false_r. apply negb_true_iff, String.eqb_neq.
      intros C. apply Hs. rewrite <- C, E'', <- E. now apply in_map.
    + unfold ret. now apply IH.
Qed.

(** What [matches] tests: the id occurs in the description, and the
    description does not begin with it. *)
Lemma matches_iff ami s :
  matches ami s = true <->
  String.prefix ami (Description s) = false /\ contains (Description s) ami.
Proof.
  unfold matches, PyStr.find, contains.
  destruct (String.index 0 ami (Description s)) as [n|] eqn:E.
  - pose proof (String.index_correct1 _ _ _ _ E) as H1.
    pose proof (String.index_correct2 _ _ _ _ E) as H2.
    split.
    + intros H. apply Z.ltb_lt in H. split; [|eauto].
      destruct (String.prefix ami (Description s)) eqn:P; [|reflexivity].
      apply String.prefix_correct in P. exfalso.
      apply (H2 0%nat); [lia | lia | exact P].
    + intros [P _]. apply Z.ltb_lt. destruct n as [|n]; [|lia].
      apply String.prefix_correct in H1. congruence.
  - split; [discriminate|]. intros [P [m Hm]]. exfalso.
    destruct ami as [|c ami]; [destruct (Description s); discriminate|].
    apply (String.index_correct3 _ m _ _ E); [discriminate | lia | exact Hm].
Qed.

(** [delete_snapshots] for one image id, when no request is rejected. *)
Lemma delete_snapshots_ok ami w :
  no_faults w ->
  NoDup (map SnapshotId (snapshots w)) ->
  delete_snapshots ami w = (Ok tt, after_delete w (hits ami w)).
Proof.
  intros Hf Hnd. unfold delete_snapshots, get_caller_identity,
    describe_snapshots, bind at 1 2 3 4, send.
  rewrite !Hf. fold (page w). unfold hits.
  apply delete_loop; [exact Hf | |].
  - unfold page. now apply NoDup_map_firstn, NoDup_map_filter.
  - intros x Hx. apply in_map_iff in Hx. destruct Hx as (s & E & Hs).
    apply in_map_iff. exists s. split; [assumption|].
    unfold page in Hs. apply In_firstn in Hs. now apply filter_In in Hs.
Qed.

Lemma NoDup_map_inj {A B} (f : A -> B) (l : list A) x y :
  NoDup (map f l) -> In x l -> In y l -> f x = f y -> x = y.
Proof.
  induction l as [|a l IH]; cbn; intros Hnd Hx Hy E; [destruct Hx|].
  inversion Hnd as [|? ? Ha Hl]; subst.
  destruct Hx as [->|Hx], Hy as [->|Hy]; auto.
  - exfalso. apply Ha. rewrite E. now apply in_map.
  - exfalso. apply Ha. rewrite <- E. now apply in_map.
Qed.

(** An id at the very start of a description is not a match. *)
Lemma prefix_not_matched ami s :
  String.prefix ami (Description s) = true -> matches ami s = false.
Proof.
  unfold matches, PyStr.find. destruct (Description s) as [|b d]; cbn [String.index].
  - intros _. destruct ami; reflexivity.
  - intros ->. reflexivity.
Qed.

(** C1, on the code.  A snapshot whose description starts with the image
    id is not matched ([find(...) > 0] rejects offset 0) and is still there
    after [delete_snapshots].  On the sample world the image is
    deregistered first and the snapshot naming it in the middle of its
    description is deleted next, but the snapshot of the same account
    naming it at offset 0 is left in place. *)
Theorem snapshot_naming_image_at_offset_0_survives :
  (forall ami s,
     String.prefix ami (Description s) = true -> matches ami s = false) /\
  (forall ami w s,
     no_faults w -> NoDup (map SnapshotId (snapshots w)) ->
     In s (snapshots w) ->
     String.prefix ami (Description s) = true ->
     In s (snapshots (snd (delete_snapshots ami w)))) /\
  PyStr.find (Description snapshot_head) "ami-1" = 0 /\
  fst (lambda_handler world_snapshots) = Ok tt /\
  history (snd (lambda_handler world_snapshots))
  = [ImageDeregistered "ami-1"; SnapshotDeleted "snap-1"] /\
  snapshots (snd (lambda_handler world_snapshots))
  = [snapshot_head; snapshot_foreign].
Proof.
  split; [exact prefix_not_matched|]. split; [|repeat split; reflexivity].
  intros ami w s Hf Hnd Hin Hp.
  rewrite (delete_snapshots_ok ami w Hf Hnd). cbn [snd after_delete snapshots].
  apply filter_In. split; [exact Hin|].
  apply negb_true_iff. apply not_true_is_false. intros Hex.
  apply existsb_eqb_In in Hex. unfold hits in Hex. apply in_map_iff in Hex.
  destruct Hex as (s' & E & Hs'). apply filter_In in Hs'. destruct Hs' as [Hpage Hm].
  unfold page in Hpage. apply In_firstn in Hpage. apply filter_In in Hpage.
  assert (s' = s) by (eapply NoDup_map_inj; [exact Hnd | tauto | exact Hin | exact E]).
  subst s'. rewrite (prefix_not_matched ami s Hp) in Hm. discriminate.
Qed.

Lemma snapshot_naming_image_at_offset_0_survives_witness :
  matches "ami-1" snapshot_head = false /\
  In snapshot_head (snapshots (snd (delete_snapshots "ami-1" world_snapshots))).
Proof.
  destruct snapshot_naming_image_at_offset_0_survives as (H1 & H2 & _).
  split.
  - apply H1. reflexivity.
  - apply H2.
    + intros r. reflexivity.
    + repeat constructor; cbn; intuition discriminate.
    + right. left. reflexivity.
    + reflexivity.
Defined.

Lemma delete_snapshot_any sid w r w' :
  delete_snapshot sid w = (r, w') ->
  (r = Raise ClientError /\ w' = w) \/ (r = Ok tt /\ w' = after_delete w [sid]).
Proof.
  unfold delete_snapshot, bind, send.
  destruct (faults w (DeleteSnapshot sid)); cbv beta iota.
  { intros H. inversion H. now left. }
  destruct (existsb _ (snapshots w)); intros H; inversion H; [right | now left].
  split; [reflexivity|]. unfold after_delete. cbn [existsb map]. f_equal.
  apply filter_ext. intros s. now rewrite orb_false_r.
Qed.

(** The loop of [delete_snapshots], whatever its outcome: it has deleted
    some of the matching snapshots of its list, and nothing else changed. *)
Lemma delete_loop_any ami (l : list snapshot) :
  forall w r w',
    for_each l (fun snapshot =>
                  if matches ami snapshot
                  then delete_snapshot (SnapshotId snapshot)
                  else ret tt) w = (r, w') ->
    exists D, incl D (map SnapshotId (filter (matches ami) l)) /\
              w' = after_delete w D.
Proof.
  induction l as [|s l IH]; intros w r w' H.
  - cbn in H. inversion H; subst. exists []. split; [apply incl_refl|].
    now rewrite after_delete_nil.
  - cbn [for_each] in H. unfold bind in H. cbn [filter].
    destruct (matches ami s) eqn:Hm.
    + destruct (delete_snapshot (SnapshotId s) w) as [[[]|e] w0] eqn:Hs.
      * destruct (delete_snapshot_any _ _ _ _ Hs) as [(C & _)|(_ & ->)];
          [discriminate|].
        destruct (IH _ _ _ H) as (D & HD & ->).
        exists (SnapshotId s :: D). split.
        -- cbn [map]. apply incl_cons; [now left | now apply incl_tl].
        -- apply after_delete_cons.
      * inversion H; subst.
        destruct (delete_snapshot_any _ _ _ _ Hs) as [(_ & ->)|(C & _)];
          [|discriminate].
        exists []. split; [apply incl_nil_l|]. now rewrite after_delete_nil.
    + unfold ret in H. destruct (IH _ _ _ H) as (D & HD & ->).
      exists D. split; [exact HD | reflexivity].
Qed.

(** [delete_snapshots], whatever its outcome. *)
Lemma delete_snapshots_any ami w r w' :
  delete_snapshots ami w = (r, w') ->
  exists D, incl D (hits ami w) /\ w' = after_delete w D.
Proof.
  unfold delete_snapshots, get_caller_identity, describe_snapshots,
    bind at 1 2 3 4, send.
  destruct (faults w GetCallerIdentity); cbv beta iota.
  { intros H. inversion H. exists []. split; [apply incl_nil_l|].
    now rewrite after_delete_nil. }
  destruct (faults w DescribeSnapshots); cbv beta iota.
  { intros H. inversion H. exists []. split; [apply incl_nil_l|].
    now rewrite after_delete_nil. }
  fold (page w). unfold hits. apply delete_loop_any.
Qed.

(** C2, as the code has it.  [deregister_amis] hands [delete_snapshots]
    one image id at a time, right after deregistering that image, and that
    single id is the needle.  Whatever the outcome, every snapshot deleted
    is on the first page of the caller's snapshots and has a description
    that contains the id; and when no request is rejected and snapshot ids
    are unique, every snapshot of that page whose description contains the
    id and does not begin with it is deleted. *)
Theorem snapshots_matched_per_image_id :
  (forall ami rest w,
     deregister_amis (ami :: rest) w =
     (_ <- deregister_image ami ;;
      _ <- delete_snapshots ami ;;
      deregister_amis rest) w) /\
  (forall ami w r w',
     delete_snapshots ami w = (r, w') ->
     exists D,
       w' = after_delete w D /\
       forall sid, In sid D ->
         exists s, In s (page w) /\ SnapshotId s = sid /\
                   contains (Description s) ami) /\
  (forall ami w s,
     no_faults w ->
     NoDup (map SnapshotId (snapshots w)) ->
     In s (page w) ->
     contains (Description s) ami ->
     String.prefix ami (Description s) = false ->
     fst (delete_snapshots ami w) = Ok tt /\
     In (SnapshotDeleted (SnapshotId s)) (history (snd (delete_snapshots ami w))) /\
     ~ In s (snapshots (snd (delete_snapshots ami w)))).
Proof.
  split; [|split].
  - intros ami rest w. unfold deregister_amis. cbn [for_each].
    unfold deregister_ami, bind.
    destruct (deregister_image ami w) as [[[]|e] w1]; [|reflexivity].
    destruct (delete_snapshots ami w1) as [[[]|e] w2]; reflexivity.
  - intros ami w r w' H.
    destruct (delete_snapshots_any _ _ _ _ H) as (D & HD & ->).
    exists D. split; [reflexivity|]. intros sid Hsid.
    apply HD in Hsid. unfold hits in Hsid. apply in_map_iff in Hsid.
    destruct Hsid as (s & E & Hs). apply filter_In in Hs. destruct Hs as [Hp Hm].
    exists s. split; [exact Hp|]. split; [exact E|].
    now apply (matches_iff ami s).
  - intros ami w s Hf Hnd Hp Hc Hpre.
    rewrite (delete_snapshots_ok ami w Hf Hnd). cbn [fst snd after_delete snapshots history].
    assert (Hhit : In (SnapshotId s) (hits ami w)).
    { unfold hits. apply in_map. apply filter_In. split; [exact Hp|].
      apply matches_iff. auto. }
    split; [reflexivity|]. split.
    + apply in_or_app. right. now apply in_map.
    + intros Hin. apply filter_In in Hin. destruct Hin as [_ Hn].
      apply negb_true_iff in Hn.
      apply existsb_eqb_In in Hhit. congruence.
Qed.

Lemma snapshots_matched_per_image_id_witness :
  (exists D,
     snd (delete_snapshots "ami-1" world_snapshots) = after_delete world_snapshots D /\
     forall sid, In sid D ->
       exists s, In s (page world_snapshots) /\ SnapshotId s = sid /\
                 contains (Description s) "ami-1") /\
  fst (delete_snapshots "ami-1" world_snapshots) = Ok tt /\
  In (SnapshotDeleted "snap-1")
     (history (snd (delete_snapshots "ami-1" world_snapshots))) /\
  ~ In snapshot_tail (snapshots (snd (delete_snapshots "ami-1" world_snapshots))).
Proof.
  destruct snapshots_matched_per_image_id as (_ & H2 & H3).
  split.
  - apply (H2 "ami-1" world_snapshots
             (fst (delete_snapshots "ami-1" world_snapshots))).
    reflexivity.
  - apply (H3 "ami-1" world_snapshots snapshot_tail).
    + intros r. reflexivity.
    + repeat constructor; cbn; intuition discriminate.
    + left. reflexivity.
    + exists 32%nat. reflexivity.
    + reflexivity.
Defined.

(** C2 as stated fails: a snapshot is deleted. *)
Lemma snapshots_never_deleted_counterexample :
  In (SnapshotDeleted "snap-1") (history (snd (lambda_handler world_snapshots))) /\
  ~ In snapshot_tail (snapshots (snd (lambda_handler world_snapshots))).
Proof.
  split.
  - vm_compute. right. left. reflexivity.
  - vm_compute. intuition discriminate.
Qed.

(* ===================================================================== *)
(** ** A retention of zero days or less *)
(* ===================================================================== *)

Lemma four_digit_in_range t :
  four_digit_year t -> 0 <= t < PyDate.MAXORDINAL * 86400.
Proof.
  unfold four_digit_year. change year_1000 with 31525372800. lia.
Qed.

(** A [DeleteOn] value computed with a retention of at most 0 days and
    falling in a year of four digits is, as a string, at most every
    timestamp the clock shows from then on. *)
Lemma delete_on_le_now t1 t2 days dd :
  0 <= t1 < PyDate.MAXORDINAL * 86400 ->
  0 <= t2 < PyDate.MAXORDINAL * 86400 ->
  t1 <= t2 -> days <= 0 ->
  PyDate.add_days (PyDate.dt_date (PyDate.datetime_of_seconds t1)) days = Ok dd ->
  PyDate.ymd2ord (PyDate.mkDate 1000 1 1) <= t1 / 86400 + 1 + days ->
  PyStr.le (PyDate.strftime_date dd) (PyDate.strftime (PyDate.datetime_of_seconds t2))
  = true.
Proof.
  intros H1 H2 Hle Hd Hadd Hy.
  destruct (DeleteOnFacts.datetime_of_seconds_valid t1 H1) as (V1 & O1 & _).
  destruct (DeleteOnFacts.datetime_of_seconds_valid t2 H2) as (V2 & O2 & Hh & Hm & Hs).
  unfold PyDate.add_days in Hadd. rewrite O1 in Hadd.
  destruct (999999999 <? Z.abs days); [discriminate|].
  destruct (Z.ltb_spec 0 (t1 / 86400 + 1 + days)); [|discriminate].
  destruct (Z.leb_spec (t1 / 86400 + 1 + days) PyDate.MAXORDINAL); [|discriminate].
  cbn [andb] in Hadd. inversion Hadd as [E]. clear Hadd. subst dd.
  destruct (PyDateFacts.ord2ymd_spec (t1 / 86400 + 1 + days) ltac:(lia)) as [Vd Od].
  assert (t1 / 86400 <= t2 / 86400) by (apply Z.div_le_mono; lia).
  apply DeleteOnFacts.strftime_date_le; try assumption; try lia.
  apply (DeleteOnFacts.year_ge_1000 _ Vd). lia.
Qed.

(** What one iteration of the Backup Phase does when it succeeds. *)
Lemma backup_instance_ok i w w1 :
  backup_instance i w = (Ok tt, w1) ->
  exists name days dd,
    get_instance_name i = Ok name /\
    get_instance_retention_days i = Ok days /\
    PyDate.add_days
      (PyDate.dt_date (PyDate.datetime_of_seconds (clock w (S (reads w))))) days
    = Ok dd /\
    w1 = backed_up w i name dd.
Proof.
  unfold backup_instance, bind at 1 2, lift.
  destruct (get_instance_name i) as [name|e]; [|discriminate].
  destruct (get_instance_retention_days i) as [days|e]; [|discriminate].
  unfold create_ami, create_image, create_ami_tags, create_tags, today, bind,
    now, send, lift, ret, deregister_on, obind.
  cbn [faults tick clock reads created image_ids images history
       reservations snapshots account PyDate.dt_date].
  destruct (faults w (CreateImage (InstanceId i))); cbv beta iota;
    [discriminate|].
  cbn [faults tick clock reads created image_ids images history
       reservations snapshots account].
  destruct (PyDate.add_days _ days) as [dd|e] eqn:Hadd; cbv beta iota;
    [|discriminate].
  destruct (faults w (CreateTags (image_ids w (created w)))); cbv beta iota;
    [discriminate|].
  cbn [faults tick clock reads created image_ids images history
       reservations snapshots account].
  intros H. inversion H. exists name, days, dd.
  split; [reflexivity|]. split; [reflexivity|]. split; [exact Hadd|].
  unfold backed_up. rewrite <- app_assoc. reflexivity.
Qed.

(** ... and when it does succeed. *)
Lemma backup_instance_completes i w name days dd :
  no_faults w ->
  get_instance_name i = Ok name ->
  get_instance_retention_days i = Ok days ->
  PyDate.add_days
    (PyDate.dt_date (PyDate.datetime_of_seconds (clock w (S (reads w))))) days
  = Ok dd ->
  backup_instance i w = (Ok tt, backed_up w i name dd).
Proof.
  intros Hf Hn Hd Hadd.
  unfold backup_instance, bind at 1 2, lift. rewrite Hn, Hd.
  unfold create_ami, create_image, create_ami_tags, create_tags, today, bind,
    now, send, lift, ret, deregister_on, obind.
  cbn [faults tick clock reads created image_ids images history
       reservations snapshots account PyDate.dt_date].
  rewrite !Hf. cbv beta iota.
  cbn [faults tick clock reads created image_ids images history
       reservations snapshots account].
  rewrite Hadd, Hf. cbv beta iota.
  cbn [faults tick clock reads created image_ids images history
       reservations snapshots account].
  unfold backed_up. rewrite <- app_assoc. reflexivity.
Qed.

Lemma later_refl w : later w w [].
Proof. unfold later. rewrite app_nil_r. repeat split; auto. Qed.

Lemma later_trans w1 w2 w3 h1 h2 :
  later w1 w2 h1 -> later w2 w3 h2 -> later w1 w3 (h1 ++ h2).
Proof.
  intros (C1 & I1 & F1 & R1 & H1) (C2 & I2 & F2 & R2 & H2). unfold later.
  rewrite C2, I2, F2, H2, H1, app_assoc. repeat split; auto. lia.
Qed.

(** One successful iteration of the Backup Phase: the image it creates
    carries the [DeleteOn] tag it computes, the images that were there keep
    their tags, and the ids still to be handed out stay fresh. *)
Lemma backup_instance_effect i w w1 :
  backup_instance i w = (Ok tt, w1) ->
  ids_fresh w ->
  exists days dd,
    get_instance_retention_days i = Ok days /\
    PyDate.add_days
      (PyDate.dt_date (PyDate.datetime_of_seconds (clock w (S (reads w))))) days
    = Ok dd /\
    let ami := image_ids w (created w) in
    let d := PyDate.strftime_date dd in
    later w w1 [ImageCreated (InstanceId i) ami; TagsCreated ami d] /\
    reads w1 = S (S (reads w)) /\
    tagged w1 ami d /\
    (forall a e, tagged w a e -> tagged w1 a e) /\
    ids_fresh w1.
Proof.
  intros H [Finj Fnew].
  destruct (backup_instance_ok i w w1 H) as (name & days & dd & _ & Hd & Hadd & Hw).
  exists days, dd. split; [exact Hd|]. split; [exact Hadd|].
  unfold backed_up in Hw.
  cbv zeta in *. set (ami := image_ids w (created w)) in *.
  set (d := PyDate.strftime_date dd) in *.
  subst w1. unfold later, tagged, ids_fresh.
  cbn [clock image_ids faults reads history images created].
  split; [repeat split; auto|]. split; [reflexivity|]. split; [|split; [|split]].
  - eexists. split; [|split].
    + apply in_map_iff. eexists. split; [reflexivity|]. apply in_app_iff.
      right. left. reflexivity.
    + cbn [image_id]. rewrite String.eqb_refl. reflexivity.
    + cbn [image_id]. rewrite String.eqb_refl. unfold delete_on.
      cbn [image_tags set_tag filter app]. eexists _, _. split; reflexivity.
  - intros a e (img & Hin & Hid & Hdel). exists img. split; [|auto].
    apply in_map_iff. exists img. split; [|apply in_app_iff; now left].
    destruct (String.eqb_spec (image_id img) ami) as [E|E]; [|reflexivity].
    exfalso. apply (Fnew (created w) img); auto.
  - intros a b Ha Hb. apply Finj; lia.
  - intros k img Hk Hin. apply in_map_iff in Hin.
    destruct Hin as (img0 & E & Hin).
    assert (Hid : image_id img = image_id img0).
    { subst img. destruct (String.eqb (image_id img0) ami); reflexivity. }
    rewrite Hid. apply in_app_iff in Hin. destruct Hin as [Hin|[<-|[]]].
    + apply Fnew; [lia | exact Hin].
    + cbn [image_id]. unfold ami. intros C. apply Finj in C; lia.
Qed.

(** The Backup Phase loop, when it runs to its end. *)
Lemma backup_loop_effect l :
  forall w w1,
    for_each l backup_instance w = (Ok tt, w1) ->
    ids_fresh w ->
    (exists h, later w w1 h) /\
    (forall a e, tagged w a e -> tagged w1 a e) /\
    ids_fresh w1.
Proof.
  induction l as [|i l IH]; intros w w1 H Hfresh.
  - cbn in H. inversion H; subst. split; [exists []; apply later_refl | auto].
  - cbn [for_each] in H. unfold bind in H.
    destruct (backup_instance i w) as [[[]|e] w0] eqn:Hi; [|discriminate].
    destruct (backup_instance_effect i w w0 Hi Hfresh)
      as (days & dd & _ & _ & L0 & _ & _ & T0 & F0).
    destruct (IH w0 w1 H F0) as ((h & L1) & T1 & F1).
    split; [eexists; eapply later_trans; eassumption|]. split; [|exact F1].
    intros a e Ht. apply T1, T0, Ht.
Qed.

(** An eligible instance with a retention of at most 0 days: the image
    created for it ends the Backup Phase tagged with a [DeleteOn] value that
    is at most every timestamp shown from some reading [k] on. *)
Lemma backup_loop_nonpositive l :
  forall w w1 i days,
    for_each l backup_instance w = (Ok tt, w1) ->
    ids_fresh w -> clock_sane (clock w) ->
    In i l -> get_instance_retention_days i = Ok days -> days <= 0 ->
    (forall k, PyDate.ymd2ord (PyDate.mkDate 1000 1 1)
               <= clock w k / 86400 + 1 + days) ->
    exists ami d h k,
      later w w1 h /\
      In (ImageCreated (InstanceId i) ami) h /\ In (TagsCreated ami d) h /\
      tagged w1 ami d /\
      (k <= reads w1)%nat /\
      (forall j, (k <= j)%nat -> PyStr.le d (now_string (clock w) j) = true).
Proof.
  induction l as [|i0 l IH]; intros w w1 i days H Hfresh Hclock Hin Hret Hdays Hyear.
  - destruct Hin.
  - cbn [for_each] in H. unfold bind in H.
    destruct (backup_instance i0 w) as [[[]|e] w0] eqn:Hi; [|discriminate].
    destruct (backup_instance_effect i0 w w0 Hi Hfresh)
      as (days0 & dd & Hret0 & Hadd & L0 & R0 & Tnew & T0 & F0).
    cbv zeta in *.
    destruct (backup_loop_effect l w0 w1 H F0) as ((h1 & L1) & T1 & F1).
    destruct Hin as [->|Hin].
    + exists (image_ids w (created w)), (PyDate.strftime_date dd).
      eexists. exists (S (reads w)).
      split; [eapply later_trans; eassumption|].
      split; [apply in_app_iff; left; now left|].
      split; [apply in_app_iff; left; right; now left|].
      split; [apply T1, Tnew|].
      split.
      * destruct L1 as (_ & _ & _ & R1 & _). lia.
      * intros j Hj. assert (days0 = days) by congruence. subst days0.
        destruct Hclock as [Hmono Hrange].
        unfold now_string.
        apply (delete_on_le_now (clock w (S (reads w))) (clock w j) days dd);
          auto using four_digit_in_range.
    + assert (Hclock0 : clock_sane (clock w0)).
      { destruct L0 as (C0 & _). now rewrite C0. }
      assert (Hyear0 : forall k, PyDate.ymd2ord (PyDate.mkDate 1000 1 1)
                                 <= clock w0 k / 86400 + 1 + days).
      { destruct L0 as (C0 & _). now rewrite C0. }
      destruct (IH w0 w1 i days H F0 Hclock0 Hin Hret Hdays Hyear0)
        as (ami & d & h & k & L & Hc & Ht & Htag & Hk & Hle).
      exists ami, d. eexists. exists k.
      split; [eapply later_trans; eassumption|].
      split; [apply in_app_iff; now right|].
      split; [apply in_app_iff; now right|].
      split; [exact Htag|]. split; [exact Hk|].
      intros j Hj. destruct L0 as (C0 & _). rewrite <- C0. now apply Hle.
Qed.

(** The selection loop only reads the clock. *)
Lemma select_loop_ticks l :
  forall dd acc w r w',
    select_loop l dd acc w = (r, w') -> exists n, w' = ticks n w.
Proof.
  induction l as [|img l IH]; intros dd acc w r w' H.
  - inversion H. now exists 0%nat.
  - cbn [select_loop] in H. unfold bind, lift, now in H.
    destruct (extract_deletion_date img dd) as [[v|]|e].
    + destruct (le_str v _) as [[]|e]; cbv beta iota in H.
      * destruct (IH _ _ _ _ _ H) as [n ->]. exists (S n). apply ticks_S.
      * destruct (IH _ _ _ _ _ H) as [n ->]. exists (S n). apply ticks_S.
      * inversion H. now exists 1%nat.
    + inversion H. now exists 1%nat.
    + inversion H. now exists 0%nat.
Qed.

Lemma history_ticks n w : history (ticks n w) = history w.
Proof. unfold ticks. induction n as [|n IH]; [reflexivity | exact IH]. Qed.

Lemma clock_ticks n w : clock (ticks n w) = clock w.
Proof. unfold ticks. induction n as [|n IH]; [reflexivity | exact IH]. Qed.

(** One iteration that does not raise goes on with the rest of the list,
    the accumulated list only growing. *)
Lemma select_loop_cons img rest dd acc w res w' :
  select_loop (img :: rest) dd acc w = (Ok res, w') ->
  exists dd' acc',
    incl acc acc' /\ select_loop rest dd' acc' (tick w) = (Ok res, w').
Proof.
  intros H. cbn [select_loop] in H. unfold bind, lift, now in H.
  destruct (extract_deletion_date img dd) as [[v|]|e]; try discriminate.
  destruct (le_str v _) as [[]|e]; cbv beta iota in H; try discriminate.
  - eexists _, _. split; [|exact H]. intros x Hx. apply in_app_iff. now left.
  - eexists _, _. split; [|exact H]. apply incl_refl.
Qed.

Lemma select_loop_acc l :
  forall dd acc w res w',
    select_loop l dd acc w = (Ok res, w') -> incl acc res.
Proof.
  induction l as [|img l IH]; intros dd acc w res w' H.
  - inversion H. apply incl_refl.
  - destruct (select_loop_cons _ _ _ _ _ _ _ H) as (dd' & acc' & Hincl & H').
    eapply incl_tran; [exact Hincl | eapply IH, H'].
Qed.

(** An image whose [DeleteOn] value is at most every timestamp shown from
    now on is in the list the selection returns. *)
Lemma select_loop_selects l :
  forall dd acc w res w' img d,
    select_loop l dd acc w = (Ok res, w') ->
    In img l -> delete_on img d ->
    (forall j, (reads w <= j)%nat -> PyStr.le d (now_string (clock w) j) = true) ->
    In (image_id img) res.
Proof.
  induction l as [|i0 l IH]; intros dd acc w res w' img d H Hin Hd Hle.
  - destruct Hin.
  - destruct Hin as [->|Hin].
    + rewrite (select_loop_step img d l dd acc w Hd) in H.
      rewrite (Hle (reads w) (Nat.le_refl _)) in H.
      apply (select_loop_acc _ _ _ _ _ _ H). apply in_app_iff. right. now left.
    + destruct (select_loop_cons _ _ _ _ _ _ _ H) as (dd' & acc' & _ & H').
      apply (IH _ _ _ _ _ img d H' Hin Hd).
      intros j Hj. cbn [clock reads tick] in *. apply Hle. lia.
Qed.

Lemma for_each_history {A} (body : A -> M unit) :
  (forall x w r w', body x w = (r, w') -> exists h, history w' = history w ++ h) ->
  forall l w r w',
    for_each l body w = (r, w') -> exists h, history w' = history w ++ h.
Proof.
  intros Hbody. induction l as [|x l IH]; intros w r w' H.
  - inversion H. exists []. now rewrite app_nil_r.
  - cbn [for_each] in H. unfold bind in H.
    destruct (body x w) as [[[]|e] w0] eqn:Hx.
    + destruct (Hbody _ _ _ _ Hx) as [h0 E0]. destruct (IH _ _ _ H) as [h1 E1].
      exists (h0 ++ h1). now rewrite E1, E0, app_assoc.
    + inversion H; subst. eapply Hbody, Hx.
Qed.

Lemma delete_snapshots_history ami w r w' :
  delete_snapshots ami w = (r, w') -> exists h, history w' = history w ++ h.
Proof.
  unfold delete_snapshots, get_caller_identity, describe_snapshots,
    bind at 1 2 3 4, send.
  destruct (faults w GetCallerIdentity); cbv beta iota.
  { intros H. inversion H. exists []. now rewrite app_nil_r. }
  destruct (faults w DescribeSnapshots); cbv beta iota.
  { intros H. inversion H. exists []. now rewrite app_nil_r. }
  apply for_each_history. clear. intros s w r w'.
  destruct (matches ami s).
  - unfold delete_snapshot, bind, send.
    destruct (faults w _); cbv beta iota.
    { intros H. inversion H. exists []. now rewrite app_nil_r. }
    destruct (existsb _ _); intros H; inversion H.
    + eexists. reflexivity.
    + exists []. now rewrite app_nil_r.
  - intros H. inversion H. exists []. now rewrite app_nil_r.
Qed.

(** The Expiry Phase loop, when it runs to its end, has deregistered every
    image of the list. *)
Lemma deregister_loop l :
  forall w w',
    for_each l deregister_ami w = (Ok tt, w') ->
    exists h, history w' = history w ++ h /\
              forall a, In a l -> In (ImageDeregistered a) h.
Proof.
  induction l as [|a l IH]; intros w w' H.
  - inversion H. exists []. rewrite app_nil_r. split; [reflexivity | intros ? []].
  - cbn [for_each] in H. unfold bind at 1 in H.
    destruct (deregister_ami a w) as [[[]|e] w0] eqn:Ha; [|discriminate].
    destruct (IH _ _ H) as (h1 & E1 & Hall).
    unfold deregister_ami, deregister_image, bind at 1 2, send in Ha.
    destruct (faults w (DeregisterImage a)); cbv beta iota in Ha; [discriminate|].
    destruct (existsb _ (images w)); [|discriminate].
    destruct (delete_snapshots_history _ _ _ _ Ha) as [h0 E0].
    cbn [history] in E0.
    exists ((ImageDeregistered a :: h0) ++ h1). split.
    + rewrite E1, E0, <- !app_assoc. reflexivity.
    + intros b [<-|Hb]; [now left|]. apply in_app_iff. right. now apply Hall.
Qed.

Lemma delete_on_has_key img d :
  delete_on img d ->
  match image_tags img with
  | Some ts => has_tag_key "DeleteOn" ts
  | None => false
  end = true.
Proof.
  intros (ts & rest & Ht & Hv). rewrite Ht.
  destruct (tag_values_cons _ _ _ _ Hv) as (t & ts' & Hf & _).
  assert (Hin : In t (filter (fun t => String.eqb (Key t) "DeleteOn") ts))
    by (rewrite Hf; now left).
  apply filter_In in Hin. unfold has_tag_key. apply existsb_exists. eauto.
Qed.

(** An instance tagged [Backup = Yes] is among those the Backup Phase
    enumerates. *)
Lemma eligible_instance_listed w r i :
  faults w DescribeInstances = false ->
  In r (reservations w) -> In i (Instances r) ->
  has_tag "Backup" "Yes" (Tags i) = true ->
  exists l, get_instances_by_tag_keys w = (Ok l, w) /\ In i l.
Proof.
  intros Hf Hr Hi Ht.
  unfold get_instances_by_tag_keys, describe_instances, bind, send, ret.
  rewrite Hf. eexists. split; [reflexivity|].
  unfold flatten_list. apply in_concat.
  exists (filter (fun i => has_tag "Backup" "Yes" (Tags i)) (Instances r)).
  assert (Hi' : In i (filter (fun i => has_tag "Backup" "Yes" (Tags i)) (Instances r)))
    by (apply filter_In; auto).
  split; [|exact Hi'].
  apply in_map_iff.
  exists (mkReservation (filter (fun i => has_tag "Backup" "Yes" (Tags i)) (Instances r))).
  split; [reflexivity|]. apply filter_In. split.
  - apply in_map_iff. exists r. auto.
  - cbn [Instances]. destruct (filter _ (Instances r)); [destruct Hi' | reflexivity].
Qed.

Lemma NoDup_snoc {A} (l : list A) a : NoDup l -> ~ In a l -> NoDup (l ++ [a]).
Proof.
  induction l as [|x l IH]; cbn; intros Hl Ha.
  - constructor; [intros [] | constructor].
  - inversion Hl; subst. constructor.
    + rewrite in_app_iff. cbn. intros [H|[H|[]]]; [auto | subst; auto].
    + apply IH; auto.
Qed.

(** A successful iteration of the Backup Phase keeps the images sane. *)
Lemma backed_up_images_sane w i name dd :
  ids_fresh w -> images_sane (images w) ->
  images_sane (images (backed_up w i name dd)).
Proof.
  intros [_ Fnew] [Hnd Hwf]. unfold backed_up. cbn [images].
  set (ami := image_ids w (created w)).
  set (d := PyDate.strftime_date dd).
  match goal with |- images_sane (map ?f (_ ++ [?n])) =>
    set (retag := f); set (new := n) end.
  assert (Hid : forall x, image_id (retag x) = image_id x).
  { intros x. unfold retag. destruct (String.eqb (image_id x) ami); reflexivity. }
  assert (Hfresh : ~ In ami (map image_id (images w))).
  { intros Hin. apply in_map_iff in Hin. destruct Hin as (x & E & Hx).
    apply (Fnew (created w) x); auto. }
  split.
  - rewrite map_map. rewrite (map_ext _ image_id) by exact Hid.
    rewrite map_app. cbn [map]. now apply NoDup_snoc.
  - intros img Hin Hkey. apply in_map_iff in Hin. destruct Hin as (x & E & Hx).
    apply in_app_iff in Hx. destruct Hx as [Hx|[<-|[]]].
    + assert (Hne : String.eqb (image_id x) ami = false).
      { apply String.eqb_neq. intros C. apply Hfresh. rewrite <- C. now apply in_map. }
      unfold retag in E. rewrite Hne in E. subst img. now apply Hwf.
    + subst img. exists d. unfold retag, new. cbn [image_id].
      rewrite String.eqb_refl. unfold delete_on. cbn [image_tags set_tag filter app].
      eexists _, _. split; reflexivity.
Qed.

(** A successful iteration of the Backup Phase keeps the snapshot ids
    distinct. *)
Lemma backed_up_snapshots_fresh w i name dd :
  snapshots_fresh w -> snapshots_fresh (backed_up w i name dd).
Proof.
  intros H n. specialize (H (S n)). unfold backed_up.
  cbn [snapshots created image_snapshots]. cbn [seq flat_map] in H.
  now rewrite <- app_assoc.
Qed.

(** The Backup Phase runs to its end when nothing is rejected and every
    enumerated instance resolves. *)
Lemma backup_loop_completes l :
  forall w,
    no_faults w -> ids_fresh w -> images_sane (images w) -> snapshots_fresh w ->
    (forall i, In i l -> backs_up (clock w) i) ->
    exists w1,
      for_each l backup_instance w = (Ok tt, w1) /\
      no_faults w1 /\ images_sane (images w1) /\ snapshots_fresh w1.
Proof.
  induction l as [|i l IH]; intros w Hf Hfresh Hsane Hsn Hall.
  - exists w. cbn. auto.
  - destruct (Hall i (or_introl eq_refl)) as ((name & Hn) & (days & Hd & Hdd)).
    destruct (Hdd (S (reads w))) as [dd Hadd].
    pose proof (backup_instance_completes i w name days dd Hf Hn Hd Hadd) as Hi.
    destruct (backup_instance_effect i w _ Hi Hfresh)
      as (_ & _ & _ & _ & _ & _ & _ & _ & F0).
    destruct (IH (backed_up w i name dd)) as (w1 & H1 & Hf1 & Hs1 & Hsn1).
    + exact Hf.
    + exact F0.
    + now apply backed_up_images_sane.
    + now apply backed_up_snapshots_fresh.
    + intros j Hj. apply Hall. now right.
    + exists w1. cbn [for_each]. unfold bind. rewrite Hi. auto.
Qed.

(** The instances the Backup Phase enumerates are tagged [Backup = Yes]. *)
Lemma listed_instance_eligible w l i :
  get_instances_by_tag_keys w = (Ok l, w) -> In i l ->
  exists r, In r (reservations w) /\ In i (Instances r) /\
            has_tag "Backup" "Yes" (Tags i) = true.
Proof.
  unfold get_instances_by_tag_keys, describe_instances, bind, send, ret.
  destruct (faults w DescribeInstances); [discriminate|].
  intros H Hin. inversion H as [E]. clear H. subst l.
  unfold flatten_list in Hin. apply in_concat in Hin.
  destruct Hin as (xs & His & Hi). apply in_map_iff in His.
  destruct His as (r' & <- & Hr'). apply filter_In in Hr'. destruct Hr' as [Hr' _].
  apply in_map_iff in Hr'. destruct Hr' as (r & <- & Hr).
  cbn [Instances] in Hi. apply filter_In in Hi. exists r. tauto.
Qed.

Lemma selected_sub l c :
  forall k,
    NoDup (map image_id l) ->
    NoDup (selected l c k) /\ incl (selected l c k) (map image_id l).
Proof.
  induction l as [|i l IH]; intros k Hnd; cbn [selected map].
  - split; [constructor | apply incl_refl].
  - inversion Hnd as [|? ? Hi Hl]; subst. destruct (IH (S k) Hl) as [Hn Hincl].
    destruct (expired i (now_string c k)); cbn [app].
    + split.
      * constructor; [|exact Hn]. intros Hin. apply Hi, Hincl, Hin.
      * intros x [<-|Hx]; [now left | right; now apply Hincl].
    + split; [exact Hn|]. intros x Hx. right. now apply Hincl.
Qed.

(** The Expiry Phase loop runs to its end on distinct ids of images that
    exist, when nothing is rejected. *)
Lemma deregister_loop_completes res :
  forall w,
    no_faults w -> NoDup res ->
    incl res (map image_id (images w)) ->
    NoDup (map SnapshotId (snapshots w)) ->
    exists w', for_each res deregister_ami w = (Ok tt, w').
Proof.
  induction res as [|a res IH]; intros w Hf Hnd Hincl Hsn.
  - exists w. reflexivity.
  - inversion Hnd as [|? ? Ha Hres]; subst.
    assert (E1 : deregister_image a w = (Ok tt, deregistered w a)).
    { unfold deregister_image, bind, send. rewrite Hf.
      assert (Hex : existsb (fun i => String.eqb (image_id i) a) (images w) = true).
      { specialize (Hincl a (or_introl eq_refl)). apply in_map_iff in Hincl.
        destruct Hincl as (x & E & Hx). apply existsb_exists. exists x.
        split; [exact Hx|]. rewrite E. apply String.eqb_refl. }
      now rewrite Hex. }
    assert (E2 : delete_snapshots a (deregistered w a)
                 = (Ok tt, after_delete (deregistered w a) (hits a (deregistered w a)))).
    { apply delete_snapshots_ok; [exact Hf | exact Hsn]. }
    destruct (IH (after_delete (deregistered w a) (hits a (deregistered w a))))
      as [w' H'].
    + exact Hf.
    + exact Hres.
    + intros b Hb. cbn [after_delete deregistered images].
      specialize (Hincl b (or_intror Hb)). apply in_map_iff in Hincl.
      destruct Hincl as (x & E & Hx). apply in_map_iff. exists x.
      split; [exact E|]. apply filter_In. split; [exact Hx|].
      apply negb_true_iff, String.eqb_neq. intros C. apply Ha. congruence.
    + cbn [after_delete deregistered snapshots]. now apply NoDup_map_filter.
    + exists w'. cbn [for_each]. unfold bind at 1, deregister_ami, bind at 1.
      now rewrite E1, E2.
Qed.

Lemma ticks_fields n w :
  faults (ticks n w) = faults w /\ images (ticks n w) = images w /\
  snapshots (ticks n w) = snapshots w.
Proof. unfold ticks. induction n as [|n IH]; [auto | exact IH]. Qed.

(** In a well-behaved world the run meets no exception. *)
Lemma run_completes w :
  well_behaved w -> exists w', lambda_handler w = (Ok tt, w').
Proof.
  intros (Hf & Hclock & Hfresh & Hsane & Hsn & Hinst).
  assert (Hl : exists l, get_instances_by_tag_keys w = (Ok l, w)).
  { unfold get_instances_by_tag_keys, describe_instances, bind, send, ret.
    rewrite Hf. eauto. }
  destruct Hl as [l Hl].
  destruct (backup_loop_completes l w Hf Hfresh Hsane Hsn)
    as (w1 & H1 & Hf1 & Hs1 & Hsn1).
  { intros i Hi. destruct (listed_instance_eligible w l i Hl Hi) as (r & Hr & Hir & Ht).
    eapply Hinst; eassumption. }
  set (amis := filter (fun i => match image_tags i with
                                | Some ts => has_tag_key "DeleteOn" ts
                                | None => false
                                end) (images w1)).
  assert (Hwf : Forall (fun i => exists d, delete_on i d) amis).
  { apply Forall_forall. intros img Hin. apply filter_In in Hin.
    destruct Hs1 as [_ Hs1]. now apply Hs1. }
  pose proof (select_loop_well_formed amis Hwf None [] w1) as Hsel. cbn [app] in Hsel.
  destruct (selected_sub amis (clock w1) (reads w1)) as [Hn Hincl].
  { apply NoDup_map_filter. apply Hs1. }
  destruct (ticks_fields (List.length amis) w1) as (T1 & T2 & T3).
  destruct (deregister_loop_completes (selected amis (clock w1) (reads w1))
              (ticks (List.length amis) w1)) as [w' H'].
  - intros r. rewrite T1. apply Hf1.
  - exact Hn.
  - rewrite T2. intros x Hx. specialize (Hincl x Hx).
    apply in_map_iff in Hincl. destruct Hincl as (y & E & Hy).
    apply filter_In in Hy. apply in_map_iff. exists y. tauto.
  - rewrite T3. specialize (Hsn1 0%nat). cbn [seq flat_map] in Hsn1.
    now rewrite app_nil_r in Hsn1.
  - exists w'. unfold lambda_handler, create_backup_amis, bind at 1 2. rewrite Hl, H1.
    unfold deregister_backup_amis, get_amis_with_deleteon_tag, images_with_tag_key,
      bind at 1 2 3, send.
    rewrite Hf1. cbv beta iota. fold amis.
    unfold get_list_of_images_to_deregister. rewrite Hsel. exact H'.
Qed.

(** When the run completes: the image created for an eligible instance with
    a retention of at most 0 days is tagged with a [DeleteOn] value that is
    at most every timestamp read after the Backup Phase, and the Expiry Phase
    deregisters it. *)
Lemma nonpositive_retention_when_run_completes w w' r i days :
  lambda_handler w = (Ok tt, w') ->
  clock_sane (clock w) ->
  ids_fresh w ->
  In r (reservations w) -> In i (Instances r) ->
  has_tag "Backup" "Yes" (Tags i) = true ->
  get_instance_retention_days i = Ok days ->
  days <= 0 ->
  (forall k, PyDate.ymd2ord (PyDate.mkDate 1000 1 1)
             <= clock w k / 86400 + 1 + days) ->
  exists w1 ami d hb he,
    create_backup_amis w = (Ok tt, w1) /\
    deregister_backup_amis w1 = (Ok tt, w') /\
    history w1 = history w ++ hb /\
    history w' = history w1 ++ he /\
    In (ImageCreated (InstanceId i) ami) hb /\
    In (TagsCreated ami d) hb /\
    tagged w1 ami d /\
    (forall j, (reads w1 <= j)%nat -> PyStr.le d (now_string (clock w) j) = true) /\
    In (ImageDeregistered ami) he.
Proof.
  intros H Hclock Hfresh Hr Hi Htag Hret Hdays Hyear.
  unfold lambda_handler, bind in H.
  destruct (create_backup_amis w) as [[[]|e] w1] eqn:Hb; [|discriminate].
  assert (Hf : faults w DescribeInstances = false).
  { unfold create_backup_amis, get_instances_by_tag_keys, describe_instances,
      bind, send in Hb.
    destruct (faults w DescribeInstances); [discriminate | reflexivity]. }
  destruct (eligible_instance_listed w r i Hf Hr Hi Htag) as (l & Hl & Hin).
  assert (Hloop : for_each l backup_instance w = (Ok tt, w1)).
  { unfold create_backup_amis, bind in Hb. now rewrite Hl in Hb. }
  destruct (backup_loop_nonpositive l w w1 i days Hloop Hfresh Hclock Hin Hret Hdays
              Hyear)
    as (ami & d & hb & k & (C1 & _ & _ & _ & H1) & Hc & Ht & Htagged & Hk & Hle).
  exists w1, ami, d, hb.
  unfold deregister_backup_amis, get_amis_with_deleteon_tag, images_with_tag_key,
    bind at 1 2 3, send in H.
  destruct (faults w1 DescribeImages) eqn:F; cbv beta iota in H; [discriminate|].
  set (amis := filter _ (images w1)) in H.
  destruct (get_list_of_images_to_deregister amis w1) as [[res|e] w2] eqn:Hsel;
    [|discriminate].
  destruct Htagged as (img & Himg & Hid & Hdel).
  assert (Hres : In ami res).
  { rewrite <- Hid. unfold get_list_of_images_to_deregister in Hsel.
    apply (select_loop_selects _ _ _ _ _ _ img d Hsel).
    - apply filter_In. split; [exact Himg | now apply (delete_on_has_key img d)].
    - exact Hdel.
    - intros j Hj. rewrite C1. apply Hle. lia. }
  destruct (select_loop_ticks _ _ _ _ _ _ Hsel) as [n ->].
  destruct (deregister_loop res _ _ H) as (he & E & Hall).
  rewrite history_ticks in E.
  exists he. split; [reflexivity|]. split.
  { unfold deregister_backup_amis, get_amis_with_deleteon_tag, images_with_tag_key,
      bind at 1 2 3, send.
    rewrite F. cbv beta iota. fold amis. rewrite Hsel. exact H. }
  split; [exact H1|]. split; [exact E|].
  split; [exact Hc|]. split; [exact Ht|].
  split; [exists img; auto|]. split; [|now apply Hall].
  intros j Hj. apply Hle. lia.
Qed.

Lemma unary_inj a b c :
  (unary a ++ c)%string = (unary b ++ c)%string -> a = b.
Proof.
  revert b. induction a as [|a IH]; intros b H.
  - destruct b as [|b]; [reflexivity|]. exfalso. cbn in H.
    apply (f_equal String.length) in H. cbn in H.
    rewrite PyStrFacts.length_app in H. lia.
  - destruct b as [|b].
    + exfalso. cbn in H. apply (f_equal String.length) in H. cbn in H.
      rewrite PyStrFacts.length_app in H. lia.
    + cbn in H. inversion H. f_equal. now apply IH.
Qed.

Lemma ami_ids_inj a b : ami_ids a = ami_ids b -> a = b.
Proof. unfold ami_ids. cbn. intros H. inversion H. now apply (unary_inj a b "0"). Qed.

Lemma NoDup_map_injective {A B} (f : A -> B) (l : list A) :
  (forall x y, f x = f y -> x = y) -> NoDup l -> NoDup (map f l).
Proof.
  intros Hf. induction 1 as [|x l Hx Hl IH]; cbn; constructor; [|exact IH].
  intros Hin. apply in_map_iff in Hin. destruct Hin as (y & E & Hy).
  apply Hf in E. now subst.
Qed.

Lemma snapshots_of_image_fresh (w : world) :
  snapshots w = [] -> image_snapshots w = snapshots_of_image -> snapshots_fresh w.
Proof.
  intros Hs Ho n. rewrite Hs, Ho. cbn [app].
  assert (E : forall l, map SnapshotId (flat_map snapshots_of_image l)
                        = map (fun k => ("snap-new" ++ unary k)%string) l).
  { induction l as [|k l IH]; cbn; [reflexivity | now rewrite IH]. }
  rewrite E. apply NoDup_map_injective; [|apply seq_NoDup].
  intros x y H. inversion H as [H']. apply (unary_inj x y "").
  now rewrite H'.
Qed.

Lemma clock_20240102_sane : clock_sane clock_20240102.
Proof.
  split; intros; unfold clock_20240102, four_digit_year, PyDate.MAXORDINAL;
    [lia|]. change year_1000 with 31525372800. lia.
Qed.

Lemma world_zero_retention_well_behaved : well_behaved world_zero_retention.
Proof.
  split; [intros r; reflexivity|].
  split; [exact clock_20240102_sane|].
  split; [split; [intros a b _ _; apply ami_ids_inj | intros a img _ []]|].
  split; [split; [constructor | intros img []]|].
  split; [apply snapshots_of_image_fresh; reflexivity|].
  intros r i [<-|[]] [<-|[]] _. split.
  - eexists. reflexivity.
  - exists 0. split; [reflexivity|]. intros k. eexists. reflexivity.
Qed.

(** C10, as the code has it.  In a well-behaved world (no request is
    rejected, the clock does not run backwards and shows a year of four
    digits, image and snapshot ids are unique and fresh, the tags of the
    eligible instances resolve and the deletion dates they give exist) the
    run completes, and for every instance tagged [Backup = Yes] whose
    retention resolves to an integer [<= 0] that does not lead back before
    1000-01-01: the Backup Phase creates an image and tags it with a
    [DeleteOn] value that is, as a string, at most every timestamp read
    afterwards, and the Expiry Phase of that same run deregisters that
    image. *)
Theorem nonpositive_retention_expires_in_same_run w r i days :
  well_behaved w ->
  In r (reservations w) -> In i (Instances r) ->
  has_tag "Backup" "Yes" (Tags i) = true ->
  get_instance_retention_days i = Ok days ->
  days <= 0 ->
  (forall k, PyDate.ymd2ord (PyDate.mkDate 1000 1 1)
             <= clock w k / 86400 + 1 + days) ->
  exists w1 w' ami d hb he,
    lambda_handler w = (Ok tt, w') /\
    create_backup_amis w = (Ok tt, w1) /\
    deregister_backup_amis w1 = (Ok tt, w') /\
    history w1 = history w ++ hb /\
    history w' = history w1 ++ he /\
    In (ImageCreated (InstanceId i) ami) hb /\
    In (TagsCreated ami d) hb /\
    tagged w1 ami d /\
    (forall j, (reads w1 <= j)%nat -> PyStr.le d (now_string (clock w) j) = true) /\
    In (ImageDeregistered ami) he.
Proof.
  intros Hw Hr Hi Ht Hd Hdays Hyear.
  destruct (run_completes w Hw) as [w' Hrun].
  destruct Hw as (_ & Hclock & Hfresh & _).
  destruct (nonpositive_retention_when_run_completes w w' r i days
              Hrun Hclock Hfresh Hr Hi Ht Hd Hdays Hyear)
    as (w1 & ami & d & hb & he & H).
  exists w1, w', ami, d, hb, he. split; [exact Hrun | exact H].
Qed.

Lemma nonpositive_retention_expires_in_same_run_witness :
  exists w1 w' ami d hb he,
    lambda_handler world_zero_retention = (Ok tt, w') /\
    create_backup_amis world_zero_retention = (Ok tt, w1) /\
    deregister_backup_amis w1 = (Ok tt, w') /\
    history w1 = history world_zero_retention ++ hb /\
    history w' = history w1 ++ he /\
    In (ImageCreated (InstanceId instance_scratch) ami) hb /\
    In (TagsCreated ami d) hb /\
    tagged w1 ami d /\
    (forall j, (reads w1 <= j)%nat ->
               PyStr.le d (now_string (clock world_zero_retention) j) = true) /\
    In (ImageDeregistered ami) he.
Proof.
  apply (nonpositive_retention_expires_in_same_run world_zero_retention
           (mkReservation [instance_scratch]) instance_scratch 0).
  - exact world_zero_retention_well_behaved.
  - left. reflexivity.
  - left. reflexivity.
  - reflexivity.
  - reflexivity.
  - lia.
  - intros k. vm_compute. discriminate.
Defined.

(** C10 as stated fails.  With a retention far enough below 0 the deletion
    date does not exist: the image is created, never tagged, and the run
    ends with [OverflowError] before the Expiry Phase.  And with a retention
    that leads back to the year 299 the [DeleteOn] value has 13 characters
    and is, as a string, greater than the timestamp: the run completes and
    the image is not deregistered. *)
Lemma nonpositive_retention_counterexample :
  (get_instance_retention_days instance_far_past = Ok (-3000000) /\
   fst (lambda_handler world_far_past) = Raise OverflowError /\
   history (snd (lambda_handler world_far_past)) = [ImageCreated "i-8" "ami-new0"] /\
   map image_tags (images (snd (lambda_handler world_far_past))) = [None]) /\
  (get_instance_retention_days instance_year_299 = Ok (-630000) /\
   fst (lambda_handler world_year_299) = Ok tt /\
   history (snd (lambda_handler world_year_299))
   = [ImageCreated "i-7" "ami-new0"; TagsCreated "ami-new0" "2990214000000"] /\
   PyStr.le "2990214000000" (now_string (clock world_year_299) 2) = false /\
   map image_id (images (snd (lambda_handler world_year_299))) = ["ami-new0"]).
Proof. repeat split; reflexivity. Qed.

Example zero_retention_run :
  history (snd (lambda_handler world_zero_retention))
  = [ImageCreated "i-9" "ami-new0"; TagsCreated "ami-new0" "20240102000000";
     ImageDeregistered "ami-new0"; SnapshotDeleted "snap-new"].
Proof. reflexivity. Qed.
(* ===================================================================== *)
(** ** Timestamps as strings keep the order of the clock *)
(* ===================================================================== *)

Lemma ymd_compare_ord a b :
  PyDate.valid_date a -> PyDate.valid_date b ->
  ymd_compare a b = (PyDate.ymd2ord a ?= PyDate.ymd2ord b).
Proof.
  intros Va Vb. unfold ymd_compare.
  destruct (PyDateFacts.date_trichotomy a b) as [L|[E|L]].
  - pose proof (PyDateFacts.ymd2ord_lt a b Va Vb L) as H.
    apply Z.compare_lt_iff in H. rewrite H.
    destruct L as [L|(E1 & [L|(E2 & L)])].
    + apply Z.compare_lt_iff in L. now rewrite L.
    + rewrite E1, Z.compare_refl. apply Z.compare_lt_iff in L. now rewrite L.
    + rewrite E1, E2, !Z.compare_refl. now apply Z.compare_lt_iff.
  - subst. now rewrite !Z.compare_refl.
  - pose proof (PyDateFacts.ymd2ord_lt b a Vb Va L) as H.
    apply Z.compare_gt_iff in H. rewrite H.
    destruct L as [L|(E1 & [L|(E2 & L)])].
    + apply Z.compare_gt_iff in L. now rewrite L.
    + rewrite <- E1, Z.compare_refl. apply Z.compare_gt_iff in L. now rewrite L.
    + rewrite <- E1, <- E2, !Z.compare_refl. now apply Z.compare_gt_iff.
Qed.

Lemma dim_le_31 y m : PyDate.days_in_month y m <= 31.
Proof.
  unfold PyDate.days_in_month, PyDate.DAYS_IN_MONTH.
  destruct ((m =? 2) && PyDate.is_leap y); [lia|].
  destruct m as [|p|p]; try lia.
  do 4 (destruct p as [p|p|]; try lia).
Qed.

(** The formatted string of a [datetime] against that of another: the
    fields compared in order. *)
Lemma strftime_compare dt1 dt2 :
  PyDate.valid_date (PyDate.dt_date dt1) -> PyDate.valid_date (PyDate.dt_date dt2) ->
  PyDate.year_digits (PyDate.year (PyDate.dt_date dt1))
  = PyDate.year_digits (PyDate.year (PyDate.dt_date dt2)) ->
  0 <= PyDate.hour dt1 < 100 -> 0 <= PyDate.minute dt1 < 100 ->
  0 <= PyDate.second dt1 < 100 ->
  0 <= PyDate.hour dt2 < 100 -> 0 <= PyDate.minute dt2 < 100 ->
  0 <= PyDate.second dt2 < 100 ->
  String.compare (PyDate.strftime dt1) (PyDate.strftime dt2) =
  match ymd_compare (PyDate.dt_date dt1) (PyDate.dt_date dt2) with
  | Eq => match PyDate.hour dt1 ?= PyDate.hour dt2 with
          | Eq => match PyDate.minute dt1 ?= PyDate.minute dt2 with
                  | Eq => PyDate.second dt1 ?= PyDate.second dt2
                  | c => c
                  end
          | c => c
          end
  | c => c
  end.
Proof.
  intros V1 V2 W Hh1 Hm1 Hs1 Hh2 Hm2 Hs2.
  destruct dt1 as [[y1 m1 d1] h1 mi1 s1], dt2 as [[y2 m2 d2] h2 mi2 s2].
  unfold PyDate.valid_date, ymd_compare in *.
  cbn [PyDate.year PyDate.month PyDate.day PyDate.dt_date PyDate.hour
       PyDate.minute PyDate.second] in *.
  pose proof (dim_le_31 y1 m1). pose proof (dim_le_31 y2 m2).
  pose proof (DeleteOnFacts.year_digits_bound y1 ltac:(lia)) as B1.
  pose proof (DeleteOnFacts.year_digits_bound y2 ltac:(lia)) as B2.
  rewrite W in B1.
  unfold PyDate.strftime.
  cbn [PyDate.year PyDate.month PyDate.day PyDate.dt_date PyDate.hour
       PyDate.minute PyDate.second].
  rewrite W.
  rewrite !PyStrFacts.compare_app by (rewrite !PyStrFacts.zfill_length; reflexivity).
  rewrite (PyStrFacts.zfill_compare _ y1 y2 B1 B2).
  change 2%nat with (Z.to_nat 2).
  rewrite !PyStrFacts.zfill_compare
    by (rewrite Z2Nat.id by lia; change (10 ^ 2) with 100; lia).
  destruct (y1 ?= y2); try reflexivity.
  destruct (m1 ?= m2); reflexivity.
Qed.

(** Formatting the clock preserves its order exactly, between readings
    whose years take as many characters. *)
Lemma now_compare_same_width t1 t2 :
  0 <= t1 < PyDate.MAXORDINAL * 86400 ->
  0 <= t2 < PyDate.MAXORDINAL * 86400 ->
  PyDate.year_digits (PyDate.year (PyDate.dt_date (PyDate.datetime_of_seconds t1)))
  = PyDate.year_digits (PyDate.year (PyDate.dt_date (PyDate.datetime_of_seconds t2))) ->
  String.compare (PyDate.strftime (PyDate.datetime_of_seconds t1))
                 (PyDate.strftime (PyDate.datetime_of_seconds t2))
  = (t1 ?= t2).
Proof.
  intros H1 H2 W.
  destruct (DeleteOnFacts.datetime_of_seconds_valid t1 H1) as (V1 & O1 & Hh1 & Hm1 & Hs1).
  destruct (DeleteOnFacts.datetime_of_seconds_valid t2 H2) as (V2 & O2 & Hh2 & Hm2 & Hs2).
  rewrite strftime_compare by (try assumption; lia).
  rewrite (ymd_compare_ord _ _ V1 V2), O1, O2.
  unfold PyDate.datetime_of_seconds.
  cbn [PyDate.hour PyDate.minute PyDate.second].
  clear. symmetry.
  destruct (Z.compare_spec (t1 / 86400 + 1) (t2 / 86400 + 1));
    [destruct (Z.compare_spec (t1 mod 86400 / 3600) (t2 mod 86400 / 3600));
     [destruct (Z.compare_spec (t1 mod 3600 / 60) (t2 mod 3600 / 60));
      [destruct (Z.compare_spec (t1 mod 60) (t2 mod 60))|..]|..]|..];
  first [apply Z.compare_eq_iff | apply Z.compare_lt_iff | apply Z.compare_gt_iff];
  Z.div_mod_to_equations; lia.
Qed.

(** The readings of the clock from 1000-01-01 on are those whose year is
    printed on four characters. *)
Lemma four_digit_year_iff t :
  0 <= t < PyDate.MAXORDINAL * 86400 ->
  (four_digit_year t <->
   PyDate.year_digits (PyDate.year (PyDate.dt_date (PyDate.datetime_of_seconds t)))
   = 4%nat).
Proof.
  intros H.
  destruct (DeleteOnFacts.datetime_of_seconds_valid t H) as (V & O & _).
  rewrite DeleteOnFacts.year_digits_four, (DeleteOnFacts.year_ge_1000 _ V), O.
  unfold four_digit_year. change year_1000 with (364877 * 86400).
  change (PyDate.ymd2ord (PyDate.mkDate 1000 1 1)) with 364878.
  split; intros; [|split; [|lia]]; Z.div_mod_to_equations; lia.
Qed.

Lemma now_compare t1 t2 :
  four_digit_year t1 -> four_digit_year t2 ->
  String.compare (PyDate.strftime (PyDate.datetime_of_seconds t1))
                 (PyDate.strftime (PyDate.datetime_of_seconds t2))
  = (t1 ?= t2).
Proof.
  intros H1 H2.
  pose proof (four_digit_in_range _ H1) as R1.
  pose proof (four_digit_in_range _ H2) as R2.
  apply now_compare_same_width; try assumption.
  rewrite (proj1 (four_digit_year_iff t1 R1) H1).
  now rewrite (proj1 (four_digit_year_iff t2 R2) H2).
Qed.

(** Two readings of the clock that print the same show the same second. *)
Lemma strftime_inj t1 t2 :
  0 <= t1 < PyDate.MAXORDINAL * 86400 ->
  0 <= t2 < PyDate.MAXORDINAL * 86400 ->
  PyDate.strftime (PyDate.datetime_of_seconds t1)
  = PyDate.strftime (PyDate.datetime_of_seconds t2) ->
  t1 = t2.
Proof.
  intros H1 H2 E.
  assert (W : PyDate.year_digits
                (PyDate.year (PyDate.dt_date (PyDate.datetime_of_seconds t1)))
              = PyDate.year_digits
                  (PyDate.year (PyDate.dt_date (PyDate.datetime_of_seconds t2)))).
  { pose proof (f_equal String.length E) as L.
    rewrite !DeleteOnFacts.strftime_length in L. lia. }
  pose proof (now_compare_same_width t1 t2 H1 H2 W) as C.
  rewrite E, PyStrFacts.compare_refl in C. symmetry in C.
  now apply Z.compare_eq_iff in C.
Qed.

Lemma le_of_compare a b : PyStr.le a b = true <-> String.compare a b <> Gt.
Proof.
  unfold PyStr.le, String.leb. destruct (String.compare a b); split;
    congruence.
Qed.

(** X1. The timestamp [strftime('%Y%m%d%H%M%S')] of the clock: two readings
    that [datetime] can show print the same only when they are the same
    second; a reading prints on 14 characters exactly when its year has four
    digits; and between readings in years of four digits the strings are
    ordered as the readings are. *)
Theorem timestamp_keeps_clock_order t1 t2 :
  in_range t1 -> in_range t2 ->
  (PyDate.strftime (PyDate.datetime_of_seconds t1)
   = PyDate.strftime (PyDate.datetime_of_seconds t2) <-> t1 = t2) /\
  (String.length (PyDate.strftime (PyDate.datetime_of_seconds t1)) = 14%nat
   <-> four_digit_year t1) /\
  (four_digit_year t1 -> four_digit_year t2 ->
   (PyStr.le (PyDate.strftime (PyDate.datetime_of_seconds t1))
             (PyDate.strftime (PyDate.datetime_of_seconds t2)) = true
    <-> t1 <= t2)).
Proof.
  intros H1 H2. split; [|split].
  - split; [now apply strftime_inj | now intros ->].
  - rewrite DeleteOnFacts.strftime_length, (four_digit_year_iff t1 H1). lia.
  - intros F1 F2. rewrite le_of_compare, (now_compare t1 t2 F1 F2).
    rewrite Z.compare_gt_iff. lia.
Qed.

Lemma timestamp_keeps_clock_order_witness :
  ("20240102000000" = "20240102235959" <-> 63839750400 = 63839836799) /\
  (String.length "20240102000000" = 14%nat <-> four_digit_year 63839750400) /\
  (four_digit_year 63839750400 -> four_digit_year 63839836799 ->
   (PyStr.le "20240102000000" "20240102235959" = true
    <-> 63839750400 <= 63839836799)).
Proof.
  apply (timestamp_keeps_clock_order 63839750400 63839836799);
    unfold in_range, PyDate.MAXORDINAL; lia.
Defined.

Lemma strftime_date_as_datetime d :
  PyDate.strftime_date d = PyDate.strftime (PyDate.mkDatetime d 0 0 0).
Proof. reflexivity. Qed.

(** A formatted date against a formatted [datetime]: the date is at most
    the [datetime] exactly when its day is not after the day shown. *)
Lemma strftime_date_le_iff d dt :
  PyDate.valid_date d -> PyDate.valid_date (PyDate.dt_date dt) ->
  1000 <= PyDate.year d -> 1000 <= PyDate.year (PyDate.dt_date dt) ->
  0 <= PyDate.hour dt < 100 -> 0 <= PyDate.minute dt < 100 ->
  0 <= PyDate.second dt < 100 ->
  (PyStr.le (PyDate.strftime_date d) (PyDate.strftime dt) = true <->
   PyDate.ymd2ord d <= PyDate.ymd2ord (PyDate.dt_date dt)).
Proof.
  intros Vd Vdt Y1 Y2 Hh Hm Hs.
  rewrite le_of_compare, strftime_date_as_datetime.
  rewrite strftime_compare; cbn [PyDate.dt_date PyDate.hour PyDate.minute PyDate.second];
    try assumption; try lia;
    [|rewrite (proj2 (DeleteOnFacts.year_digits_four _) Y1);
      now rewrite (proj2 (DeleteOnFacts.year_digits_four _) Y2)].
  rewrite (ymd_compare_ord _ _ Vd Vdt).
  destruct (Z.compare_spec (PyDate.ymd2ord d) (PyDate.ymd2ord (PyDate.dt_date dt))).
  - destruct (Z.compare_spec 0 (PyDate.hour dt)); [|split; [lia | discriminate]|lia].
    destruct (Z.compare_spec 0 (PyDate.minute dt)); [|split; [lia | discriminate]|lia].
    destruct (Z.compare_spec 0 (PyDate.second dt)); [| |lia]; split; (lia || discriminate).
  - split; [lia | discriminate].
  - split; [congruence | lia].
Qed.

(** X2. Retention is counted in whole days: when neither the deletion day
    nor the clock is before the year 1000, the [DeleteOn] value computed on
    day [today] with [n] retention days is at most the timestamp of a clock
    reading exactly when that reading falls on day [today + n] or later,
    whatever the time of day. *)
Theorem delete_on_reached_on_its_day today n d t :
  PyDate.valid_date today ->
  deregister_on today n = Ok d ->
  PyDate.ymd2ord (PyDate.mkDate 1000 1 1) <= PyDate.ymd2ord today + n ->
  four_digit_year t ->
  (PyStr.le d (PyDate.strftime (PyDate.datetime_of_seconds t)) = true <->
   PyDate.ymd2ord today + n <= day_of t).
Proof.
  intros V Hd Hy Ft. pose proof (four_digit_in_range t Ft) as Ht.
  destruct (DeleteOnFacts.datetime_of_seconds_valid t Ht) as (Vt & Ot & Hh & Hm & Hs).
  unfold deregister_on, obind in Hd.
  destruct (PyDate.add_days today n) as [dd|e] eqn:Hadd; [|discriminate].
  inversion Hd. subst d. clear Hd.
  assert (R : 1 <= PyDate.ymd2ord today + n <= PyDate.MAXORDINAL).
  { destruct (Z_le_dec 1 (PyDate.ymd2ord today + n)) as [H1|H1];
      [destruct (Z_le_dec (PyDate.ymd2ord today + n) PyDate.MAXORDINAL) as [H2|H2]|];
      [lia | |];
      rewrite (DeleteOnFacts.add_days_overflow today n V) in Hadd by lia;
      discriminate. }
  rewrite (DeleteOnFacts.add_days_shift today n V R) in Hadd. inversion Hadd. subst dd.
  destruct (DeleteOnFacts.shift_days_spec today n V R) as [Vd Od].
  assert (Y1 : 1000 <= PyDate.year (PyDate.shift_days today n)).
  { apply (DeleteOnFacts.year_ge_1000 _ Vd). lia. }
  assert (Y2 : 1000 <= PyDate.year (PyDate.dt_date (PyDate.datetime_of_seconds t))).
  { apply DeleteOnFacts.year_digits_four. now apply (four_digit_year_iff t Ht). }
  rewrite strftime_date_le_iff by (try assumption; lia).
  rewrite Od, Ot. unfold day_of. reflexivity.
Qed.

Lemma delete_on_reached_on_its_day_witness :
  (PyStr.le "20240111000000" "20240110235959" = true <->
   PyDate.ymd2ord (PyDate.mkDate 2024 1 1) + 10 <= day_of 63840527999) /\
  (PyStr.le "20240111000000" "20240111000000" = true <->
   PyDate.ymd2ord (PyDate.mkDate 2024 1 1) + 10 <= day_of 63840528000).
Proof.
  assert (V : PyDate.valid_date (PyDate.mkDate 2024 1 1)) by (cbv; intuition discriminate).
  split.
  - apply (delete_on_reached_on_its_day (PyDate.mkDate 2024 1 1) 10
             "20240111000000" 63840527999 V eq_refl).
    + vm_compute. discriminate.
    + unfold four_digit_year, PyDate.MAXORDINAL.
      change year_1000 with 31525372800. lia.
  - apply (delete_on_reached_on_its_day (PyDate.mkDate 2024 1 1) 10
             "20240111000000" 63840528000 V eq_refl).
    + vm_compute. discriminate.
    + unfold four_digit_year, PyDate.MAXORDINAL.
      change year_1000 with 31525372800. lia.
Defined.

Lemma lex_le_trans a b c : lex_le a b -> lex_le b c -> lex_le a c.
Proof.
  intros H. revert c. induction H as [s|c1 c2 s1 s2 L|ch s1 s2 H IH]; intros c Hc.
  - constructor.
  - inversion Hc; subst.
    + apply lex_lt. lia.
    + now apply lex_lt.
  - inversion Hc; subst.
    + now apply lex_lt.
    + apply lex_eq. now apply IH.
Qed.

Lemma le_trans a b c :
  PyStr.le a b = true -> PyStr.le b c = true -> PyStr.le a c = true.
Proof.
  rewrite !PyStrFacts.le_lex. apply lex_le_trans.
Qed.

Lemma now_string_mono c k k' :
  clock_sane c -> (k <= k')%nat ->
  PyStr.le (now_string c k) (now_string c k') = true.
Proof.
  intros [Hm Hr] Hk. unfold now_string. apply le_of_compare.
  rewrite (now_compare _ _ (Hr k) (Hr k')). rewrite Z.compare_gt_iff.
  specialize (Hm k k' Hk). lia.
Qed.

(** Two runs of the selection loop over the same images, the second one
    reading the clock later: what the first selects, the second selects. *)
Lemma select_loop_mono l :
  forall dd acc acc' w w' res res' v v',
    clock_sane (clock w) -> clock w' = clock w -> (reads w <= reads w')%nat ->
    incl acc acc' ->
    select_loop l dd acc w = (Ok res, v) ->
    select_loop l dd acc' w' = (Ok res', v') ->
    incl res res'.
Proof.
  induction l as [|img l IH]; intros dd acc acc' w w' res res' v v' Hc Hcl Hr Hi H H'.
  - cbn in H, H'. inversion H; inversion H'; subst. exact Hi.
  - cbn [select_loop] in H, H'. unfold bind, lift, now in H, H'.
    destruct (extract_deletion_date img dd) as [[x|]|e]; try discriminate.
    destruct x as [d| |]; cbn [le_str] in H, H'; try discriminate.
    cbv beta iota in H, H'.
    assert (Hmono : PyStr.le d (PyDate.strftime (PyDate.datetime_of_seconds (clock w (reads w)))) = true ->
                    PyStr.le d (PyDate.strftime (PyDate.datetime_of_seconds (clock w' (reads w')))) = true).
    { intros E. eapply le_trans; [exact E|]. rewrite Hcl.
      apply (now_string_mono (clock w) _ _ Hc Hr). }
    assert (Hc' : clock_sane (clock (tick w))) by exact Hc.
    assert (Hcl' : clock (tick w') = clock (tick w)) by exact Hcl.
    assert (Hr' : (reads (tick w) <= reads (tick w'))%nat) by (cbn; lia).
    destruct (PyStr.le d (PyDate.strftime (PyDate.datetime_of_seconds (clock w (reads w))))).
    + rewrite (Hmono eq_refl) in H'.
      eapply (IH _ _ _ _ _ _ _ _ _ Hc' Hcl' Hr' _ H H').
    + destruct (PyStr.le d _).
      * eapply (IH _ _ _ _ _ _ _ _ _ Hc' Hcl' Hr' _ H H').
      * eapply (IH _ _ _ _ _ _ _ _ _ Hc' Hcl' Hr' _ H H').
  Unshelve.
  all: intros y Hy; try (apply in_app_iff; apply in_app_iff in Hy;
                         destruct Hy as [Hy|Hy]; [left; now apply Hi | now right]);
       try (apply in_app_iff; left; now apply Hi); try now apply Hi.
Qed.

(** X3. Once expired, always expired: with a clock that does not run
    backwards and stays in years of four digits, every image id that the
    selection returns is returned again by any later selection over the
    same images. *)
Theorem selection_grows_with_time l w w' res res' v v' :
  clock_sane (clock w) -> clock w' = clock w -> (reads w <= reads w')%nat ->
  get_list_of_images_to_deregister l w = (Ok res, v) ->
  get_list_of_images_to_deregister l w' = (Ok res', v') ->
  incl res res'.
Proof.
  intros Hc Hcl Hr H H'. unfold get_list_of_images_to_deregister in *.
  eapply (select_loop_mono l None [] [] w w'); eauto. apply incl_refl.
Qed.

Lemma selection_grows_with_time_witness :
  incl ["ami-1"] ["ami-1"; "ami-6"].
Proof.
  apply (selection_grows_with_time [image_expired; image_noon]
           (world_hourly 0) (world_hourly 12) ["ami-1"] ["ami-1"; "ami-6"]
           (ticks 2 (world_hourly 0)) (ticks 2 (world_hourly 12))).
  - split.
    + intros i j Hij. unfold world_hourly, clock_hourly. cbn [clock]. lia.
    + intros i. unfold world_hourly, clock_hourly, four_digit_year,
        PyDate.MAXORDINAL.
      cbn [clock]. change year_1000 with 31525372800. lia.
  - reflexivity.
  - cbn. lia.
  - reflexivity.
  - reflexivity.
Defined.

(* ===================================================================== *)
(** ** Enumerating the instances, naming the images *)
(* ===================================================================== *)

Lemma append_inj_l a b c : (a ++ b)%string = (a ++ c)%string -> b = c.
Proof.
  induction a as [|x a IH]; cbn; intros H; [exact H|].
  inversion H. now apply IH.
Qed.

(** X4. [create_ami] registers exactly one new, untagged image, named
    [{name}-{id}-{timestamp}], with one reading of the clock; a rejected
    request creates nothing; and the names it gives the same instance at two
    readings of the clock differ unless both show the same second. *)
Theorem create_ami_names_one_image instance_id instance_name :
  (forall w,
     faults w (CreateImage instance_id) = false ->
     create_ami instance_id instance_name w
     = (Ok (image_ids w (created w)), image_created w instance_id instance_name)) /\
  (forall w,
     faults w (CreateImage instance_id) = true ->
     create_ami instance_id instance_name w = (Raise ClientError, tick w)) /\
  (forall t1 t2,
     in_range t1 -> in_range t2 ->
     (ami_name instance_name instance_id
        (PyDate.strftime (PyDate.datetime_of_seconds t1))
      = ami_name instance_name instance_id
          (PyDate.strftime (PyDate.datetime_of_seconds t2))
      <-> t1 = t2)).
Proof.
  split; [|split].
  - intros w Hf. unfold create_ami, create_image, bind, now, send.
    cbn [faults tick]. rewrite Hf. reflexivity.
  - intros w Hf. unfold create_ami, create_image, bind, now, send.
    cbn [faults tick]. rewrite Hf. reflexivity.
  - intros t1 t2 H1 H2. split; [|now intros ->].
    unfold ami_name. intros E.
    apply append_inj_l in E. apply (append_inj_l "-") in E.
    apply append_inj_l in E. apply (append_inj_l "-") in E.
    exact (strftime_inj t1 t2 H1 H2 E).
Qed.

Lemma create_ami_names_one_image_witness :
  create_ami "i-9" "web1" world_zero_retention
  = (Ok "ami-new0", image_created world_zero_retention "i-9" "web1") /\
  create_ami "i-1" "app1" world_create_fails
  = (Raise ClientError, tick world_create_fails) /\
  ("web1-i-9-20240102000000" = "web1-i-9-20240102000001"
   <-> 63839750400 = 63839750401).
Proof.
  destruct (create_ami_names_one_image "i-9" "web1") as (H1 & _ & H3).
  destruct (create_ami_names_one_image "i-1" "app1") as (_ & H2 & _).
  split; [|split].
  - apply H1. reflexivity.
  - apply H2. reflexivity.
  - apply (H3 63839750400 63839750401); unfold in_range, PyDate.MAXORDINAL; lia.
Defined.

Lemma comprehension_raise_inv {A B} (f : A -> outcome B) cond l e :
  comprehension f cond l = Raise e ->
  exists x, In x l /\ cond x = true /\ f x = Raise e.
Proof.
  induction l as [|x l IH]; cbn; [discriminate|].
  destruct (cond x) eqn:C.
  - destruct (f x) as [y|e'] eqn:F; cbn.
    + destruct (comprehension f cond l) as [ys|e'] eqn:R; cbn; [discriminate|].
      intros H. inversion H; subst. destruct (IH eq_refl) as (x' & ? & ? & ?).
      exists x'. tauto.
    + intros H. inversion H; subst. exists x. tauto.
  - intros H. destruct (IH H) as (x' & ? & ? & ?). exists x'. tauto.
Qed.

(** X5. The name of an instance is the value of its first [Name] tag, and
    "Not Specified" when it has none; the only exception is [KeyError], for
    a [Name] tag without a value. *)
Theorem instance_name_resolution (i : instance) :
  (tag_values "Name" (Tags i) = [] -> get_instance_name i = Ok "Not Specified") /\
  (forall v rest,
     tag_values "Name" (Tags i) = Some v :: rest ->
     Forall (fun o => o <> None) rest ->
     get_instance_name i = Ok v) /\
  (forall rest,
     tag_values "Name" (Tags i) = None :: rest ->
     get_instance_name i = Raise KeyError) /\
  (forall e, get_instance_name i = Raise e -> e = KeyError).
Proof.
  unfold get_instance_name. split; [|split; [|split]].
  - intros H. unfold tag_values in H. apply map_eq_nil in H.
    rewrite (comprehension_Forall2 _ _ _ []); [reflexivity|].
    rewrite H. constructor.
  - intros v rest H Hrest.
    destruct (tag_values_cons _ _ _ _ H) as (t & ts' & Hf & Hv & Hm). subst rest.
    assert (Hall : exists vs, Forall2 (fun t v => tag_value t = Ok v) ts' vs).
    { clear - Hrest. induction ts' as [|t ts IH]; [exists []; constructor|].
      cbn in Hrest. inversion Hrest as [|? ? Ht Hts]; subst.
      destruct (IH Hts) as [vs Hvs]. unfold tag_value at 1.
      destruct (Value t) as [v|] eqn:E; [|congruence].
      exists (v :: vs). constructor; [|exact Hvs]. unfold tag_value. now rewrite E. }
    destruct Hall as [vs Hvs].
    rewrite (comprehension_Forall2 _ _ _ (v :: vs)); [reflexivity|].
    rewrite Hf. constructor; [|exact Hvs]. unfold tag_value. now rewrite Hv.
  - intros rest H.
    destruct (tag_values_cons _ _ _ _ H) as (t & ts' & Hf & Hv & _).
    rewrite (comprehension_first_raise _ _ _ t ts' KeyError Hf); [reflexivity|].
    unfold tag_value. now rewrite Hv.
  - intros e. unfold try_except, obind.
    destruct (comprehension tag_value _ (Tags i)) as [l|e'] eqn:C.
    + destruct l; cbn; intros H; discriminate.
    + destruct (comprehension_raise_inv _ _ _ _ C) as (t & _ & _ & Ht).
      unfold tag_value in Ht. destruct (Value t); [discriminate|].
      inversion Ht; subst. cbn. intros H. now inversion H.
Qed.

Lemma instance_name_resolution_witness :
  get_instance_name instance_scratch = Ok "Not Specified" /\
  get_instance_name instance_web1 = Ok "web1" /\
  get_instance_name (mkInstance "i-7" [mkTag "Name" None]) = Raise KeyError.
Proof.
  split; [|split].
  - apply (proj1 (instance_name_resolution _)). reflexivity.
  - apply (proj1 (proj2 (instance_name_resolution _)) "web1" []);
      [reflexivity | constructor].
  - apply (proj1 (proj2 (proj2 (instance_name_resolution _))) []). reflexivity.
Defined.

(** X6. The Backup Phase enumerates exactly the instances that carry the
    tag [Backup] with the value "Yes" (any other value, "yes" or "No"
    included, leaves an instance out), reservation after reservation, and
    enumerating changes nothing; a rejected request raises [ClientError]. *)
Theorem backup_enumeration_is_backup_yes w :
  (faults w DescribeInstances = false ->
   get_instances_by_tag_keys w
   = (Ok (filter (fun i => has_tag "Backup" "Yes" (Tags i))
                 (flatten_list (map Instances (reservations w)))), w)) /\
  (faults w DescribeInstances = true ->
   get_instances_by_tag_keys w = (Raise ClientError, w)) /\
  (forall i,
     has_tag "Backup" "Yes" (Tags i) = true <->
     exists t, In t (Tags i) /\ Key t = "Backup" /\ Value t = Some "Yes").
Proof.
  split; [|split].
  - intros Hf. unfold get_instances_by_tag_keys, describe_instances, bind, send, ret.
    rewrite Hf. do 2 f_equal. unfold flatten_list.
    induction (reservations w) as [|r rs IH]; [reflexivity|].
    cbn [map filter List.concat Instances]. rewrite filter_app, <- IH.
    destruct (filter _ (Instances r)) eqn:E; reflexivity.
  - intros Hf. unfold get_instances_by_tag_keys, describe_instances, bind, send.
    now rewrite Hf.
  - intros i. unfold has_tag. rewrite existsb_exists. split.
    + intros (t & Hin & H). apply andb_true_iff in H. destruct H as [Hk Hv].
      apply String.eqb_eq in Hk. destruct (Value t) as [v|] eqn:Ev; [|discriminate].
      apply String.eqb_eq in Hv. subst v. eauto.
    + intros (t & Hin & Hk & Hv). exists t. split; [exact Hin|].
      rewrite Hk, Hv, !String.eqb_refl. reflexivity.
Qed.

Lemma backup_enumeration_is_backup_yes_witness :
  get_instances_by_tag_keys world_bad_retention
  = (Ok [instance_web1; instance_db1], world_bad_retention) /\
  has_tag "Backup" "Yes" [mkTag "Backup" (Some "yes")] = false.
Proof.
  split.
  - apply (proj1 (backup_enumeration_is_backup_yes world_bad_retention)). reflexivity.
  - reflexivity.
Defined.

(* ===================================================================== *)
(** ** The Backup Phase, whatever its outcome *)
(* ===================================================================== *)

Lemma get_instance_name_raises i e :
  get_instance_name i = Raise e -> e = KeyError.
Proof.
  unfold get_instance_name, try_except, obind.
  destruct (comprehension tag_value _ (Tags i)) as [l|e'] eqn:C.
  - destruct l; cbn; intros H; discriminate.
  - destruct (comprehension_raise_inv _ _ _ _ C) as (t & _ & _ & Ht).
    unfold tag_value in Ht. destruct (Value t); [discriminate|].
    inversion Ht; subst. cbn. intros H. now inversion H.
Qed.

Lemma get_instance_retention_days_raises i e :
  get_instance_retention_days i = Raise e -> e = KeyError \/ e = ValueError.
Proof.
  unfold get_instance_retention_days, try_except.
  destruct (comprehension _ _ (Tags i)) as [l|e'] eqn:C; unfold obind at 1.
  - destruct l; cbn; intros H; discriminate.
  - destruct (comprehension_raise_inv _ _ _ _ C) as (t & _ & _ & Ht).
    assert (He : e' = KeyError \/ e' = ValueError).
    { unfold tag_value, PyStr.int, obind in Ht. destruct (Value t) as [v|].
      - destruct (PyStr.parse_int v); [discriminate|]. inversion Ht. now right.
      - inversion Ht. now left. }
    destruct He as [-> | ->]; cbn; intros H; inversion H; auto.
Qed.

(** The four ways an iteration of the Backup Phase can end. *)
Lemma backup_instance_cases i w r w1 :
  backup_instance i w = (r, w1) ->
  (exists e, (e = KeyError \/ e = ValueError) /\ r = Raise e /\ w1 = w) \/
  (r = Raise ClientError /\ w1 = tick w) \/
  (exists name e,
     (e = OverflowError \/ e = ClientError) /\ r = Raise e /\
     w1 = tick (image_created w (InstanceId i) name)) \/
  (exists name dd, r = Ok tt /\ w1 = backed_up w i name dd).
Proof.
  unfold backup_instance, bind at 1 2, lift.
  destruct (get_instance_name i) as [name|e] eqn:Hn.
  2:{ intros H. inversion H; subst. left. exists e.
      split; [left; now apply (get_instance_name_raises i)|auto]. }
  destruct (get_instance_retention_days i) as [days|e] eqn:Hd.
  2:{ intros H. inversion H; subst. left. exists e.
      split; [now apply (get_instance_retention_days_raises i)|auto]. }
  unfold create_ami, create_image, create_ami_tags, create_tags, today, bind,
    now, send, lift, ret, deregister_on, obind.
  cbn [faults tick clock reads created image_ids images history
       reservations snapshots account PyDate.dt_date].
  destruct (faults w (CreateImage (InstanceId i))); cbv beta iota.
  { intros H. inversion H. right. left. auto. }
  cbn [faults tick clock reads created image_ids images history
       reservations snapshots account].
  destruct (PyDate.add_days _ days) as [dd|e] eqn:Hadd; cbv beta iota.
  2:{ intros H. inversion H; subst. right. right. left. exists name, e.
      split; [|split; reflexivity].
      left. unfold PyDate.add_days in Hadd.
      destruct (_ <? _); [now inversion Hadd|].
      destruct (_ && _); [discriminate | now inversion Hadd]. }
  destruct (faults w (CreateTags (image_ids w (created w)))); cbv beta iota.
  { intros H. inversion H; subst. right. right. left. exists name, ClientError.
    split; [now right | split; reflexivity]. }
  cbn [faults tick clock reads created image_ids images history
       reservations snapshots account].
  intros H. inversion H. right. right. right. exists name, dd.
  split; [reflexivity|]. unfold backed_up. rewrite <- app_assoc. reflexivity.
Qed.

Lemma firstn_map_seq {A} (f : nat -> A) a k :
  map f (seq a (S k)) = f a :: map f (seq (S a) k).
Proof. reflexivity. Qed.

(** The loop of the Backup Phase, whatever its outcome: it has created an
    image for the first [k] instances, in order, under the next [k] ids of
    the provider. *)
Lemma backup_loop_progress l :
  forall w r w1,
    for_each l backup_instance w = (r, w1) ->
    exists k h,
      (k <= List.length l)%nat /\
      history w1 = history w ++ h /\
      created_for h = map InstanceId (firstn k l) /\
      created_images h = map (image_ids w) (seq (created w) k) /\
      List.length (images w1) = (List.length (images w) + k)%nat /\
      created w1 = (created w + k)%nat /\
      deregistered_images h = [] /\ deleted_snapshots h = [] /\
      (r = Ok tt -> k = List.length l /\ tagged_images h = created_images h).
Proof.
  induction l as [|i l IH]; intros w r w1 H.
  - cbn in H. inversion H; subst. exists 0%nat, []. cbn.
    rewrite app_nil_r, Nat.add_0_r. repeat split; auto.
  - cbn [for_each] in H. unfold bind in H.
    destruct (backup_instance i w) as [[[]|e] w0] eqn:Hi.
    + destruct (backup_instance_cases _ _ _ _ Hi)
        as [(e & _ & C & _)|[(C & _)|[(nm & e & _ & C & _)|(nm & dd & _ & ->)]]];
        try discriminate.
      destruct (IH _ _ _ H) as (k & h & Hk & Hh & Hc & Hci & Hl & Hcr & Hd & Hs & Hok).
      exists (S k), ([ImageCreated (InstanceId i) (image_ids w (created w));
                      TagsCreated (image_ids w (created w)) (PyDate.strftime_date dd)] ++ h).
      cbn [backed_up history created images image_ids] in *.
      rewrite length_map, length_app in Hl. cbn [List.length] in Hl.
      split; [cbn; lia|]. split; [rewrite Hh, <- app_assoc; reflexivity|].
      split.
      { change (created_for (_ ++ h)) with (InstanceId i :: created_for h).
        now rewrite Hc. }
      split.
      { change (created_images (_ ++ h))
          with (image_ids w (created w) :: created_images h).
        now rewrite Hci. }
      split; [lia|]. split; [lia|]. split; [exact Hd|]. split; [exact Hs|].
      intros Hr. destruct (Hok Hr) as [-> Ht]. split; [reflexivity|].
      change (tagged_images (_ ++ h))
        with (image_ids w (created w) :: tagged_images h).
      change (created_images (_ ++ h))
        with (image_ids w (created w) :: created_images h).
      now rewrite Ht.
    + inversion H; subst.
      destruct (backup_instance_cases _ _ _ _ Hi)
        as [(e' & _ & _ & ->)|[(_ & ->)|[(nm & e' & _ & _ & ->)|(nm & dd & C & _)]]];
        try discriminate.
      * exists 0%nat, []. cbn. rewrite app_nil_r, Nat.add_0_r.
        repeat split; auto; try lia; discriminate.
      * exists 0%nat, []. cbn. rewrite app_nil_r, Nat.add_0_r.
        repeat split; auto; try lia; discriminate.
      * exists 1%nat, [ImageCreated (InstanceId i) (image_ids w (created w))].
        cbn. rewrite length_app. cbn.
        repeat split; auto; try lia; discriminate.
Qed.

(** X7. The Backup Phase creates one image per enumerated instance, in
    enumeration order and under the provider's next ids, and never
    deregisters an image or deletes a snapshot; when it ends with an
    exception, that holds of the instances it got to; when it runs to its
    end, every instance has its image and every image created was tagged. *)
Theorem backup_phase_one_image_per_instance w r w1 :
  create_backup_amis w = (r, w1) ->
  exists k h,
    let l := filter (fun i => has_tag "Backup" "Yes" (Tags i))
                    (flatten_list (map Instances (reservations w))) in
    (k <= List.length l)%nat /\
    history w1 = history w ++ h /\
    created_for h = map InstanceId (firstn k l) /\
    created_images h = map (image_ids w) (seq (created w) k) /\
    List.length (images w1) = (List.length (images w) + k)%nat /\
    deregistered_images h = [] /\ deleted_snapshots h = [] /\
    (r = Ok tt -> k = List.length l /\ tagged_images h = created_images h).
Proof.
  intros H. unfold create_backup_amis, bind in H.
  destruct (faults w DescribeInstances) eqn:Hf.
  - unfold get_instances_by_tag_keys, describe_instances, bind, send in H.
    rewrite Hf in H. inversion H; subst. exists 0%nat, []. cbn.
    rewrite app_nil_r, Nat.add_0_r. repeat split; auto; try lia; discriminate.
  - assert (Hl : get_instances_by_tag_keys w
                 = (Ok (filter (fun i => has_tag "Backup" "Yes" (Tags i))
                          (flatten_list (map Instances (reservations w)))), w)).
    { unfold get_instances_by_tag_keys, describe_instances, bind, send, ret.
      rewrite Hf. do 2 f_equal. unfold flatten_list.
      induction (reservations w) as [|x rs IH]; [reflexivity|].
      cbn [map filter List.concat Instances]. rewrite filter_app, <- IH.
      destruct (filter _ (Instances x)) eqn:E; reflexivity. }
    rewrite Hl in H.
    destruct (backup_loop_progress _ _ _ _ H)
      as (k & h & Hk & Hh & Hc & Hci & Hlen & _ & Hd & Hs & Hok).
    exists k, h. cbv zeta. repeat split; auto; apply Hok; assumption.
Qed.

Lemma backup_phase_one_image_per_instance_witness :
  exists k h,
    let l := filter (fun i => has_tag "Backup" "Yes" (Tags i))
                    (flatten_list (map Instances (reservations world_two_instances))) in
    (k <= List.length l)%nat /\
    history (snd (create_backup_amis world_two_instances))
    = history world_two_instances ++ h /\
    created_for h = map InstanceId (firstn k l) /\
    created_images h
    = map (image_ids world_two_instances) (seq (created world_two_instances) k) /\
    List.length (images (snd (create_backup_amis world_two_instances)))
    = (List.length (images world_two_instances) + k)%nat /\
    deregistered_images h = [] /\ deleted_snapshots h = [] /\
    (fst (create_backup_amis world_two_instances) = Ok tt ->
     k = List.length l /\ tagged_images h = created_images h).
Proof.
  apply (backup_phase_one_image_per_instance world_two_instances
           (fst (create_backup_amis world_two_instances))
           (snd (create_backup_amis world_two_instances))).
  apply surjective_pairing.
Defined.

(** With fresh ids, a successful iteration appends the tagged image and
    leaves the images that were there as they were. *)
Lemma backed_up_images_fresh w i name dd :
  ids_fresh w ->
  images (backed_up w i name dd)
  = images w ++
    [mkImage (image_ids w (created w))
       (Some [mkTag "DeleteOn" (Some (PyDate.strftime_date dd))])
       (ami_name name (InstanceId i) (now_string (clock w) (reads w)))
       (ami_description name (InstanceId i) (now_string (clock w) (reads w)))].
Proof.
  intros [_ Fnew]. unfold backed_up. cbn [images]. rewrite map_app. f_equal.
  - rewrite <- (map_id (images w)) at 2. apply map_ext_in. intros x Hx.
    destruct (String.eqb_spec (image_id x) (image_ids w (created w))) as [E|E];
      [|reflexivity].
    exfalso. apply (Fnew (created w) x); auto.
  - cbn [map image_id]. rewrite String.eqb_refl. reflexivity.
Qed.

(** With fresh ids the loop of the Backup Phase, whatever its outcome,
    only appends images. *)
Lemma backup_loop_appends l :
  forall w r w1,
    for_each l backup_instance w = (r, w1) ->
    ids_fresh w ->
    exists new, images w1 = images w ++ new.
Proof.
  induction l as [|i l IH]; intros w r w1 H Hfresh.
  - cbn in H. inversion H; subst. exists []. now rewrite app_nil_r.
  - cbn [for_each] in H. unfold bind in H.
    destruct (backup_instance i w) as [[[]|e] w0] eqn:Hi.
    + destruct (backup_instance_effect i w w0 Hi Hfresh)
        as (_ & _ & _ & _ & _ & _ & _ & _ & F0).
      destruct (backup_instance_cases _ _ _ _ Hi)
        as [(e & _ & C & _)|[(C & _)|[(nm & e & _ & C & _)|(nm & dd & _ & ->)]]];
        try discriminate.
      destruct (IH _ _ _ H F0) as [new Hnew].
      rewrite (backed_up_images_fresh w i nm dd Hfresh) in Hnew.
      eexists. rewrite Hnew, <- app_assoc. reflexivity.
    + inversion H; subst.
      destruct (backup_instance_cases _ _ _ _ Hi)
        as [(e' & _ & _ & ->)|[(_ & ->)|[(nm & e' & _ & _ & ->)|(nm & dd & C & _)]]];
        try discriminate.
      * exists []. now rewrite app_nil_r.
      * exists []. cbn. now rewrite app_nil_r.
      * eexists. cbn [tick image_created images]. reflexivity.
Qed.

Lemma backed_up_image_ids w i name dd :
  map image_id (images (backed_up w i name dd))
  = map image_id (images w) ++ [image_ids w (created w)].
Proof.
  unfold backed_up. cbn [images]. rewrite map_map.
  rewrite (map_ext _ image_id)
    by (intros x; destruct (String.eqb (image_id x) _); reflexivity).
  now rewrite map_app.
Qed.

(** The loop of the Backup Phase never touches the instances, keeps every
    image id, and adds to the snapshots those the provider creates with
    each new image. *)
Lemma backup_loop_keeps l :
  forall w r w1,
    for_each l backup_instance w = (r, w1) ->
    reservations w1 = reservations w /\
    (exists k,
       snapshots w1
       = snapshots w ++ flat_map (image_snapshots w) (seq (created w) k)) /\
    account w1 = account w /\
    exists ids, map image_id (images w1) = map image_id (images w) ++ ids.
Proof.
  induction l as [|i l IH]; intros w r w1 H.
  - cbn in H. inversion H; subst. split; [reflexivity|].
    split; [exists 0%nat; cbn; now rewrite app_nil_r|]. split; [reflexivity|].
    exists []. now rewrite app_nil_r.
  - cbn [for_each] in H. unfold bind in H.
    destruct (backup_instance i w) as [[[]|e] w0] eqn:Hi.
    + destruct (backup_instance_cases _ _ _ _ Hi)
        as [(e & _ & C & _)|[(C & _)|[(nm & e & _ & C & _)|(nm & dd & _ & ->)]]];
        try discriminate.
      destruct (IH _ _ _ H) as (Hr & (k & Hs) & Ha & ids & Hids).
      rewrite backed_up_image_ids in Hids.
      cbn [backed_up reservations snapshots account created image_snapshots] in *.
      split; [exact Hr|]. split.
      { exists (S k). cbn [seq flat_map]. now rewrite Hs, <- app_assoc. }
      split; [exact Ha|].
      eexists. rewrite Hids, <- app_assoc. reflexivity.
    + inversion H; subst.
      destruct (backup_instance_cases _ _ _ _ Hi)
        as [(e' & _ & _ & ->)|[(_ & ->)|[(nm & e' & _ & _ & ->)|(nm & dd & C & _)]]];
        try discriminate.
      * split; [reflexivity|].
        split; [exists 0%nat; cbn; now rewrite app_nil_r|]. split; [reflexivity|].
        exists []. now rewrite app_nil_r.
      * split; [reflexivity|].
        split; [exists 0%nat; cbn; now rewrite app_nil_r|]. split; [reflexivity|].
        exists []. cbn. now rewrite app_nil_r.
      * split; [reflexivity|].
        split; [exists 1%nat; cbn; now rewrite app_nil_r|]. split; [reflexivity|].
        cbn [tick image_created images]. rewrite map_app.
        eexists. reflexivity.
Qed.

(** X8. The Backup Phase, whatever its outcome, leaves the instances as
    they are and removes neither an image nor a snapshot: the snapshots that
    were there are still there, in order, followed by those the provider
    created with the new images; the image ids that were there are still
    there, in order, followed by the new ones; and when the provider's ids
    are fresh, the images that were there are unchanged, tags included. *)
Theorem backup_phase_only_adds_images w r w1 :
  create_backup_amis w = (r, w1) ->
  reservations w1 = reservations w /\
  (exists k,
     snapshots w1
     = snapshots w ++ flat_map (image_snapshots w) (seq (created w) k)) /\
  (exists ids, map image_id (images w1) = map image_id (images w) ++ ids) /\
  (ids_fresh w -> exists new, images w1 = images w ++ new).
Proof.
  intros H. unfold create_backup_amis, bind in H.
  destruct (get_instances_by_tag_keys w) as [[l|e] w0] eqn:Hl.
  - assert (w0 = w).
    { unfold get_instances_by_tag_keys, describe_instances, bind, send, ret in Hl.
      destruct (faults w DescribeInstances); now inversion Hl. }
    subst w0. destruct (backup_loop_keeps _ _ _ _ H) as (Hr & Hs & _ & Hids).
    repeat split; auto. intros Hfresh. eapply backup_loop_appends; eassumption.
  - assert (w0 = w).
    { unfold get_instances_by_tag_keys, describe_instances, bind, send, ret in Hl.
      destruct (faults w DescribeInstances); now inversion Hl. }
    inversion H; subst. split; [reflexivity|]. split; [|split].
    + exists 0%nat. cbn. now rewrite app_nil_r.
    + exists []. now rewrite app_nil_r.
    + intros _. exists []. now rewrite app_nil_r.
Qed.

Lemma backup_phase_only_adds_images_witness :
  reservations (snd (create_backup_amis world_two_instances))
  = reservations world_two_instances /\
  (exists k,
     snapshots (snd (create_backup_amis world_two_instances))
     = snapshots world_two_instances
       ++ flat_map (image_snapshots world_two_instances)
            (seq (created world_two_instances) k)) /\
  (exists ids,
     map image_id (images (snd (create_backup_amis world_two_instances)))
     = map image_id (images world_two_instances) ++ ids) /\
  (ids_fresh world_two_instances ->
   exists new,
     images (snd (create_backup_amis world_two_instances))
     = images world_two_instances ++ new).
Proof.
  apply (backup_phase_only_adds_images world_two_instances
           (fst (create_backup_amis world_two_instances))).
  apply surjective_pairing.
Defined.

(* ===================================================================== *)
(** ** The Expiry Phase, whatever its outcome *)
(* ===================================================================== *)

(** X9. [delete_snapshots], whatever its outcome, deletes only snapshots of
    the first page of the caller's own snapshots whose description matches:
    a snapshot of another account, one beyond the first 1000, or one whose
    description does not match is still there afterwards; and an empty image
    id matches nothing. *)
Theorem delete_snapshots_spares_the_rest ami w r w' s :
  delete_snapshots ami w = (r, w') ->
  NoDup (map SnapshotId (snapshots w)) ->
  In s (snapshots w) ->
  (OwnerId s <> account w \/ ~ In s (page w) \/ matches ami s = false \/ ami = "") ->
  In s (snapshots w').
Proof.
  intros H Hnd Hin Hwhy.
  destruct (delete_snapshots_any _ _ _ _ H) as (D & HD & ->).
  cbn [after_delete snapshots]. apply filter_In. split; [exact Hin|].
  apply negb_true_iff, not_true_is_false. intros Hex.
  apply existsb_eqb_In in Hex. apply HD in Hex. unfold hits in Hex.
  apply in_map_iff in Hex. destruct Hex as (s' & E & Hs').
  apply filter_In in Hs'. destruct Hs' as [Hpage Hm].
  assert (Hs'w : In s' (snapshots w)).
  { unfold page in Hpage. apply In_firstn in Hpage. now apply filter_In in Hpage. }
  assert (s' = s) by (eapply NoDup_map_inj; eauto). subst s'.
  destruct Hwhy as [Ho|[Hp|[Hn|He]]].
  - unfold page in Hpage. apply In_firstn in Hpage. apply filter_In in Hpage.
    destruct Hpage as [_ Ho']. apply String.eqb_eq in Ho'. contradiction.
  - contradiction.
  - congruence.
  - subst ami. unfold matches, PyStr.find in Hm.
    destruct (Description s); cbn in Hm; discriminate.
Qed.

Lemma delete_snapshots_spares_the_rest_witness :
  In snapshot_foreign (snapshots (snd (delete_snapshots "ami-1" world_snapshots))) /\
  In snapshot_tail (snapshots (snd (delete_snapshots "" world_snapshots))).
Proof.
  assert (Hnd : NoDup (map SnapshotId (snapshots world_snapshots)))
    by (repeat constructor; cbn; intuition discriminate).
  split.
  - apply (delete_snapshots_spares_the_rest "ami-1" world_snapshots
             (fst (delete_snapshots "ami-1" world_snapshots)) _ snapshot_foreign
             eq_refl Hnd).
    + right. right. left. reflexivity.
    + left. discriminate.
  - apply (delete_snapshots_spares_the_rest "" world_snapshots
             (fst (delete_snapshots "" world_snapshots)) _ snapshot_tail
             eq_refl Hnd).
    + left. reflexivity.
    + right. right. right. reflexivity.
Defined.

Lemma without_images_nil l : without_images [] l = l.
Proof.
  unfold without_images. induction l as [|x l IH]; [reflexivity|].
  cbn [filter existsb negb]. f_equal. exact IH.
Qed.

Lemma without_images_cons a A l :
  without_images A (without_images [a] l) = without_images (a :: A) l.
Proof.
  unfold without_images. rewrite filter_filter. apply filter_ext. intros x.
  cbn [existsb]. rewrite orb_false_r. now rewrite negb_orb.
Qed.

(** What one iteration of the Expiry Phase loop does, whatever its outcome. *)
Lemma deregister_ami_any a w r w' :
  deregister_ami a w = (r, w') ->
  (r = Raise ClientError /\ w' = w) \/
  (In a (map image_id (images w)) /\
   exists D, incl D (hits a (deregistered w a)) /\
             w' = after_delete (deregistered w a) D).
Proof.
  unfold deregister_ami, deregister_image, bind at 1 2, send.
  destruct (faults w (DeregisterImage a)); cbv beta iota.
  { intros H. inversion H. now left. }
  destruct (existsb _ (images w)) eqn:Hex.
  - fold (deregistered w a). intros H. right. split.
    + apply existsb_exists in Hex. destruct Hex as (x & Hx & E).
      apply String.eqb_eq in E. subst a. now apply in_map.
    + now apply delete_snapshots_any in H.
  - intros H. inversion H. now left.
Qed.

Lemma projections_snapshot_events D :
  deregistered_images (map SnapshotDeleted D) = [] /\
  created_images (map SnapshotDeleted D) = [] /\
  deleted_snapshots (map SnapshotDeleted D) = D.
Proof.
  induction D as [|d D (H1 & H2 & H3)]; [auto|].
  split; [exact H1|]. split; [exact H2|].
  change (deleted_snapshots (map SnapshotDeleted (d :: D)))
    with (d :: deleted_snapshots (map SnapshotDeleted D)).
  now rewrite H3.
Qed.

Lemma projections_app h1 h2 :
  deregistered_images (h1 ++ h2) = deregistered_images h1 ++ deregistered_images h2 /\
  created_images (h1 ++ h2) = created_images h1 ++ created_images h2.
Proof.
  unfold deregistered_images, created_images. now rewrite !flat_map_app.
Qed.

(** The loop of the Expiry Phase, whatever its outcome: it has deregistered
    the first [k] ids of its list, which existed and are distinct, has
    created nothing, and the snapshots left are among those that were there. *)
Lemma deregister_loop_any l :
  forall w r w',
    for_each l deregister_ami w = (r, w') ->
    exists k h,
      (k <= List.length l)%nat /\
      history w' = history w ++ h /\
      deregistered_images h = firstn k l /\
      created_images h = [] /\
      images w' = without_images (firstn k l) (images w) /\
      NoDup (firstn k l) /\
      incl (firstn k l) (map image_id (images w)) /\
      incl (snapshots w') (snapshots w) /\
      reservations w' = reservations w /\
      (r = Ok tt -> k = List.length l).
Proof.
  induction l as [|a l IH]; intros w r w' H.
  - cbn in H. inversion H; subst. exists 0%nat, []. cbn.
    rewrite app_nil_r, without_images_nil.
    repeat split; auto; try constructor; try apply incl_refl; apply incl_nil_l.
  - cbn [for_each] in H. unfold bind at 1 in H.
    destruct (deregister_ami a w) as [[[]|e] w0] eqn:Ha.
    + destruct (deregister_ami_any _ _ _ _ Ha) as [(C & _)|(Hin & D & HD & ->)];
        [discriminate|].
      destruct (IH _ _ _ H)
        as (k & h & Hk & Hh & Hd & Hc & Hi & Hn & Hincl & Hs & Hr & Hok).
      cbn [after_delete deregistered history images snapshots reservations] in *.
      destruct (projections_snapshot_events D) as (P1 & P2 & _).
      exists (S k), ((ImageDeregistered a :: map SnapshotDeleted D) ++ h).
      split; [cbn; lia|].
      split; [rewrite Hh, <- !app_assoc; reflexivity|].
      split.
      { rewrite (proj1 (projections_app _ _)), Hd.
        change (deregistered_images (ImageDeregistered a :: map SnapshotDeleted D))
          with (a :: deregistered_images (map SnapshotDeleted D)).
        now rewrite P1. }
      split.
      { rewrite (proj2 (projections_app _ _)), Hc.
        change (created_images (ImageDeregistered a :: map SnapshotDeleted D))
          with (created_images (map SnapshotDeleted D)).
        now rewrite P2. }
      split.
      { rewrite Hi. cbn [firstn].
        change (filter (fun i => negb (String.eqb (image_id i) a)) (images w))
          with (filter (fun i => negb (String.eqb (image_id i) a)) (images w)).
        rewrite <- without_images_cons. f_equal.
        unfold without_images. apply filter_ext. intros x. cbn [existsb].
        now rewrite orb_false_r. }
      assert (Hsub : forall b, In b (firstn k l) ->
                               In b (map image_id (images w)) /\ b <> a).
      { intros b Hb. apply Hincl in Hb. apply in_map_iff in Hb.
        destruct Hb as (x & E & Hx). apply filter_In in Hx. destruct Hx as [Hx Hne].
        apply negb_true_iff, String.eqb_neq in Hne. split; [|congruence].
        rewrite <- E. now apply in_map. }
      split.
      { cbn [firstn]. constructor; [|exact Hn].
        intros Hb. now destruct (Hsub a Hb). }
      split.
      { cbn [firstn]. intros b [<-|Hb]; [exact Hin | now apply Hsub]. }
      split.
      { intros x Hx. apply Hs in Hx. now apply filter_In in Hx. }
      split; [exact Hr|].
      intros Hrok. rewrite (Hok Hrok). reflexivity.
    + inversion H; subst.
      destruct (deregister_ami_any _ _ _ _ Ha) as [(_ & ->)|(Hin & D & HD & ->)].
      * exists 0%nat, []. cbn. rewrite app_nil_r, without_images_nil.
        repeat split; auto; try constructor; try apply incl_refl; try lia;
          try discriminate; apply incl_nil_l.
      * destruct (projections_snapshot_events D) as (P1 & P2 & _).
        exists 1%nat, (ImageDeregistered a :: map SnapshotDeleted D).
        cbn [after_delete deregistered history images snapshots reservations firstn].
        split; [cbn; lia|].
        split; [rewrite <- app_assoc; reflexivity|].
        split.
        { change (deregistered_images (ImageDeregistered a :: map SnapshotDeleted D))
            with (a :: deregistered_images (map SnapshotDeleted D)).
          now rewrite P1. }
        split.
        { change (created_images (ImageDeregistered a :: map SnapshotDeleted D))
            with (created_images (map SnapshotDeleted D)).
          exact P2. }
        split.
        { unfold without_images. apply filter_ext. intros x. cbn [existsb].
          now rewrite orb_false_r. }
        split; [constructor; [intros [] | constructor]|].
        split; [intros b [<-|[]]; exact Hin|].
        split; [intros x Hx; now apply filter_In in Hx|].
        split; [reflexivity | discriminate].
Qed.

Lemma selected_ids l c : forall k, incl (selected l c k) (map image_id l).
Proof.
  induction l as [|i l IH]; intros k; cbn [selected map]; [apply incl_refl|].
  apply incl_app.
  - destruct (expired i _); [|apply incl_nil_l]. intros x [<-|[]]. now left.
  - apply incl_tl, IH.
Qed.

(** A loop raises what one of its iterations raises. *)
Lemma for_each_raise_inv {A} (body : A -> M unit) (P : exn -> Prop) :
  (forall x w e w', body x w = (Raise e, w') -> P e) ->
  forall l w e w', for_each l body w = (Raise e, w') -> P e.
Proof.
  intros Hb. induction l as [|x l IH]; intros w e w' H; [discriminate|].
  cbn [for_each] in H. unfold bind in H.
  destruct (body x w) as [[[]|e'] w0] eqn:Hx.
  - eapply IH, H.
  - inversion H; subst. eapply Hb, Hx.
Qed.

Lemma delete_snapshots_raises ami w e w' :
  delete_snapshots ami w = (Raise e, w') -> e = ClientError.
Proof.
  unfold delete_snapshots, get_caller_identity, describe_snapshots,
    bind at 1 2 3 4, send.
  destruct (faults w GetCallerIdentity); cbv beta iota;
    [intros H; now inversion H|].
  destruct (faults w DescribeSnapshots); cbv beta iota;
    [intros H; now inversion H|].
  apply (for_each_raise_inv _ (fun e => e = ClientError)).
  intros s w1 e1 w1' Hs. destruct (matches ami s); [|discriminate].
  destruct (delete_snapshot_any _ _ _ _ Hs) as [(C & _)|(C & _)]; now inversion C.
Qed.

Lemma deregister_ami_raises a w e w' :
  deregister_ami a w = (Raise e, w') -> e = ClientError.
Proof.
  unfold deregister_ami, deregister_image, bind at 1 2, send.
  destruct (faults w (DeregisterImage a)); cbv beta iota;
    [intros H; now inversion H|].
  destruct (existsb _ (images w)); [|intros H; now inversion H].
  apply delete_snapshots_raises.
Qed.

Lemma deregister_loop_raises l w e w' :
  for_each l deregister_ami w = (Raise e, w') -> e = ClientError.
Proof.
  apply (for_each_raise_inv _ (fun e => e = ClientError)).
  intros x w1 e1 w1'. apply deregister_ami_raises.
Qed.

(** The Expiry Phase, whatever its outcome. *)
Lemma expiry_phase_any w r w' :
  deregister_backup_amis w = (r, w') ->
  exists k h,
    let sel := selected (enumerated w) (clock w) (reads w) in
    history w' = history w ++ h /\
    deregistered_images h = firstn k sel /\
    created_images h = [] /\
    images w' = without_images (firstn k sel) (images w) /\
    NoDup (firstn k sel) /\
    incl (snapshots w') (snapshots w) /\
    reservations w' = reservations w /\
    (r = Ok tt -> k = List.length sel) /\
    (forall e, r = Raise e -> e = TypeError \/ e = ClientError).
Proof.
  intros H. cbv zeta.
  assert (Hnone : forall e, (e = TypeError \/ e = ClientError) ->
            (r, w') = (Raise e, w) \/ (exists n, (r, w') = (Raise e, ticks n w)) ->
            exists k h,
              history w' = history w ++ h /\
              deregistered_images h
              = firstn k (selected (enumerated w) (clock w) (reads w)) /\
              created_images h = [] /\
              images w'
              = without_images (firstn k (selected (enumerated w) (clock w) (reads w)))
                  (images w) /\
              NoDup (firstn k (selected (enumerated w) (clock w) (reads w))) /\
              incl (snapshots w') (snapshots w) /\
              reservations w' = reservations w /\
              (r = Ok tt -> k = List.length (selected (enumerated w) (clock w) (reads w))) /\
              (forall e, r = Raise e -> e = TypeError \/ e = ClientError)).
  { intros e He Hw. exists 0%nat, []. cbn [firstn].
    assert (E : r = Raise e /\ history w' = history w /\ images w' = images w /\
                snapshots w' = snapshots w /\ reservations w' = reservations w).
    { destruct Hw as [Hw|[n Hw]]; inversion Hw; subst; [repeat split|].
      destruct (ticks_fields n w) as (_ & T2 & T3).
      rewrite history_ticks, T2, T3. repeat split.
      unfold ticks. clear. induction n as [|n IH]; [reflexivity | exact IH]. }
    destruct E as (-> & E1 & E2 & E3 & E4).
    rewrite E1, E2, E3, E4, app_nil_r, without_images_nil.
    split; [reflexivity|]. split; [reflexivity|]. split; [reflexivity|].
    split; [reflexivity|]. split; [constructor|]. split; [apply incl_refl|].
    split; [reflexivity|]. split; [discriminate|].
    intros e1 H1. inversion H1. now subst. }
  unfold deregister_backup_amis, get_amis_with_deleteon_tag, images_with_tag_key,
    bind at 1 2 3, send in H.
  destruct (faults w DescribeImages); cbv beta iota in H.
  { apply (Hnone ClientError); [now right | left; now inversion H]. }
  fold (enumerated w) in H.
  change (filter (fun i => match image_tags i with
                           | Some ts => has_tag_key "DeleteOn" ts
                           | None => false
                           end) (images w)) with (enumerated w) in H.
  destruct (get_list_of_images_to_deregister (enumerated w) w) as [[res|e] w0] eqn:Hsel.
  - unfold get_list_of_images_to_deregister in Hsel.
    pose proof (select_loop_enumerated _ (enumerated_has_delete_on w) _ _ _ _ _ Hsel)
      as Hres. cbn [app] in Hres. subst res.
    destruct (select_loop_ticks _ _ _ _ _ _ Hsel) as [n ->].
    destruct (deregister_loop_any _ _ _ _ H)
      as (k & h & Hk & Hh & Hd & Hc & Hi & Hn & Hincl & Hs & Hr & Hok).
    destruct (ticks_fields n w) as (_ & T2 & T3).
    rewrite history_ticks in Hh. rewrite T2 in Hi. rewrite T3 in Hs.
    exists k, h. repeat split; auto.
    + rewrite Hr. unfold ticks. clear. induction n as [|n IH]; [reflexivity | exact IH].
    + intros e He. subst r. right.
      exact (deregister_loop_raises _ _ _ _ H).
  - inversion H; subst.
    unfold get_list_of_images_to_deregister in Hsel.
    pose proof (select_loop_enumerated _ (enumerated_has_delete_on w) _ _ _ _ _ Hsel)
      as He. cbn in He. subst e.
    destruct (select_loop_ticks _ _ _ _ _ _ Hsel) as [n ->].
    apply (Hnone TypeError); [now left | right; now exists n].
Qed.

Lemma deregistered_images_In a h :
  In a (deregistered_images h) <-> In (ImageDeregistered a) h.
Proof.
  unfold deregistered_images. rewrite in_flat_map. split.
  - intros (e & He & Ha). destruct e; cbn in Ha; try contradiction.
    destruct Ha as [<-|[]]. exact He.
  - intros H. exists (ImageDeregistered a). split; [exact H | now left].
Qed.

Lemma without_images_In ids l i :
  In i (without_images ids l) <-> In i l /\ ~ In (image_id i) ids.
Proof.
  unfold without_images. rewrite filter_In, negb_true_iff.
  split; intros [Hi Hn]; split; auto.
  - intros Hin. assert (E : existsb (String.eqb (image_id i)) ids = true).
    { apply existsb_exists. exists (image_id i). split; [exact Hin|].
      apply String.eqb_refl. }
    congruence.
  - destruct (existsb _ ids) eqn:E; [|reflexivity].
    apply existsb_exists in E. destruct E as (x & Hx & E).
    apply String.eqb_eq in E. subst x. contradiction.
Qed.

(** X10. Whatever the outcome of the Expiry Phase ([deregister_backup_amis]),
    what it did is a prefix of one fixed plan: the images that carry a
    [DeleteOn] tag are judged in the order of the enumeration, the [j]-th
    against the [j]-th reading of the clock, and the expired ones are
    deregistered in that order.  The images left are those whose id was not
    deregistered; no image is created, no snapshot appears, the instances
    are untouched; and when the phase returns, the whole plan was carried
    out. *)
Theorem expiry_phase_follows_the_selection w r w' :
  deregister_backup_amis w = (r, w') ->
  exists k h,
    let plan := selected (enumerated w) (clock w) (reads w) in
    history w' = history w ++ h /\
    deregistered_images h = firstn k plan /\
    created_images h = [] /\
    images w' = without_images (firstn k plan) (images w) /\
    incl (snapshots w') (snapshots w) /\
    reservations w' = reservations w /\
    (r = Ok tt -> k = List.length plan).
Proof.
  intros H.
  destruct (expiry_phase_any _ _ _ H)
    as (k & h & Hh & Hd & Hc & Hi & _ & Hs & Hr & Hok & _).
  exists k, h. cbv zeta. auto 10.
Qed.

Lemma expiry_phase_follows_the_selection_witness :
  exists k h,
    let w := world_snapshots in
    let w' := snd (deregister_backup_amis world_snapshots) in
    let plan := selected (enumerated w) (clock w) (reads w) in
    history w' = history w ++ h /\
    deregistered_images h = firstn k plan /\
    created_images h = [] /\
    images w' = without_images (firstn k plan) (images w) /\
    incl (snapshots w') (snapshots w) /\
    reservations w' = reservations w /\
    (fst (deregister_backup_amis world_snapshots) = Ok tt -> k = List.length plan).
Proof.
  exact (expiry_phase_follows_the_selection world_snapshots
           (fst (deregister_backup_amis world_snapshots))
           (snd (deregister_backup_amis world_snapshots)) eq_refl).
Defined.

(** X11. The Expiry Phase never deregisters an image that has not expired:
    when image ids are unique, an image whose first [DeleteOn] value is
    missing, unreadable, or greater than every timestamp the run can read
    is still registered after [deregister_backup_amis], whatever the
    outcome of the phase. *)
Theorem unexpired_image_survives_expiry w r w' img :
  deregister_backup_amis w = (r, w') ->
  NoDup (map image_id (images w)) ->
  In img (images w) ->
  (forall j, expired img (now_string (clock w) j) = false) ->
  In img (images w').
Proof.
  intros H Hnd Hin Hex.
  destruct (expiry_phase_any _ _ _ H) as (k & h & _ & _ & _ & Hi & _).
  cbv zeta in Hi. rewrite Hi. apply without_images_In. split; [exact Hin|].
  intros Hk. apply In_firstn in Hk. apply selected_In in Hk.
  destruct Hk as (j & i & Hj & Hid & He).
  apply nth_error_In in Hj. unfold enumerated in Hj. apply filter_In in Hj.
  destruct Hj as [Hj _].
  assert (i = img) by (eapply NoDup_map_inj; eauto). subst i.
  rewrite Hex in He. discriminate.
Qed.

Lemma unexpired_image_survives_expiry_witness :
  In image_future (images (snd (deregister_backup_amis world_snapshots))).
Proof.
  apply (unexpired_image_survives_expiry world_snapshots
           (fst (deregister_backup_amis world_snapshots)) _ image_future eq_refl).
  - repeat constructor; cbn; intuition discriminate.
  - right. left. reflexivity.
  - intros j. reflexivity.
Defined.

(** X12. When the Expiry Phase returns, every enumerated image whose first
    [DeleteOn] value is at or below the timestamps read during the phase
    has been deregistered: the deregistration is in the history and no
    image with that id is left. *)
Theorem expired_image_gone_after_expiry w w' img :
  deregister_backup_amis w = (Ok tt, w') ->
  In img (images w) ->
  has_delete_on img = true ->
  (forall j, (reads w <= j)%nat -> expired img (now_string (clock w) j) = true) ->
  In (ImageDeregistered (image_id img)) (history w') /\
  forall i, In i (images w') -> image_id i <> image_id img.
Proof.
  intros H Hin Hdo Hex.
  destruct (expiry_phase_any _ _ _ H)
    as (k & h & Hh & Hd & _ & Hi & _ & _ & _ & Hok & _).
  cbv zeta in *. rewrite (Hok eq_refl), firstn_all in *.
  assert (Hsel : In (image_id img) (selected (enumerated w) (clock w) (reads w))).
  { assert (He : In img (enumerated w)) by (apply filter_In; auto).
    apply In_nth_error in He. destruct He as [j Hj].
    apply selected_In. exists j, img. repeat split; [exact Hj|].
    apply Hex. lia. }
  split.
  - rewrite Hh. apply in_or_app. right. apply deregistered_images_In.
    now rewrite Hd.
  - intros i Hi' E. rewrite Hi in Hi'. apply without_images_In in Hi'.
    destruct Hi' as [_ Hn]. apply Hn. now rewrite E.
Qed.

Lemma expired_image_gone_after_expiry_witness :
  In (ImageDeregistered "ami-1")
     (history (snd (deregister_backup_amis world_snapshots))) /\
  forall i, In i (images (snd (deregister_backup_amis world_snapshots))) ->
            image_id i <> "ami-1".
Proof.
  apply (expired_image_gone_after_expiry world_snapshots _ image_expired eq_refl).
  - left. reflexivity.
  - reflexivity.
  - intros j _. reflexivity.
Defined.

Lemma backup_instance_raises i w e w' :
  backup_instance i w = (Raise e, w') -> backup_exception e.
Proof.
  intros H. unfold backup_exception.
  destruct (backup_instance_cases _ _ _ _ H)
    as [(e0 & He & E & _)|[(E & _)|[(n & e0 & He & E & _)|(n & dd & E & _)]]];
    inversion E; subst; tauto.
Qed.

Lemma create_backup_amis_raises w e w' :
  create_backup_amis w = (Raise e, w') -> backup_exception e.
Proof.
  unfold create_backup_amis, get_instances_by_tag_keys, describe_instances,
    bind at 1 2 3, send, ret.
  destruct (faults w DescribeInstances); cbv beta iota.
  { intros H. inversion H. unfold backup_exception. tauto. }
  apply (for_each_raise_inv _ backup_exception). apply backup_instance_raises.
Qed.

(** X13. The exceptions a run can end with, by phase: the Backup Phase
    ends only with [KeyError] (a tag without a value), [ValueError]
    (retention not an integer), [OverflowError] (deletion date out of
    range) or [ClientError] (a rejected request), and then the Expiry Phase
    has not started; the Expiry Phase ends only with [TypeError] (an
    unreadable [DeleteOn] value) or [ClientError].  In particular
    [IndexError] never leaves the handler, and the unbound [deletion_date]
    of [get_list_of_images_to_deregister] cannot be reached from it,
    since the enumeration returns only images that have tags. *)
Theorem run_exceptions_by_phase w e w' :
  lambda_handler w = (Raise e, w') ->
  (create_backup_amis w = (Raise e, w') /\ backup_exception e) \/
  (exists w1, create_backup_amis w = (Ok tt, w1) /\
              deregister_backup_amis w1 = (Raise e, w') /\ expiry_exception e).
Proof.
  unfold lambda_handler, bind at 1.
  destruct (create_backup_amis w) as [[[]|e1] w1] eqn:Hb; intros H.
  - right. exists w1. repeat split; [exact H|].
    destruct (expiry_phase_any _ _ _ H) as (k & h & Hrest).
    cbv zeta in Hrest. decompose [and] Hrest. unfold expiry_exception. auto.
  - inversion H; subst. left. split; [reflexivity|].
    eapply create_backup_amis_raises, Hb.
Qed.

Lemma run_exceptions_by_phase_witness :
  (create_backup_amis world_bad_retention
   = (Raise ValueError, snd (lambda_handler world_bad_retention)) /\
   backup_exception ValueError) \/
  (exists w1, create_backup_amis world_bad_retention = (Ok tt, w1) /\
              deregister_backup_amis w1
              = (Raise ValueError, snd (lambda_handler world_bad_retention)) /\
              expiry_exception ValueError).
Proof.
  exact (run_exceptions_by_phase world_bad_retention ValueError _ eq_refl).
Defined.
